(** * Interactive cards: the canvas state-and-geometry engine

    A shallow embedding of [InteractiveCardsComponent]
    (src/app/interactive-cards/interactive-cards.component.ts) and the
    properties its specification states about it.

    Modelling choices.
    - A JavaScript [number] is an exact rational ([Q]); [Math.round v] is
      [floor (v + 1/2)], [Math.max], [Math.min] and [Math.abs] are the
      rational ones.  Equality of numbers is [Qeq] ([==]).  A division
      by zero is [0] here where JavaScript has an infinity or [NaN]: the
      arithmetic properties are stated for a positive scale and grid
      spacing, which the code keeps ([0.5 <= scale <= 2], and
      [setGridSpacing] clamps to [10 .. 200]).
    - The one place where the source tests computed numbers for
      equality, the choice of the smallest of the four displacements in
      [preventOverlap], is decided by the rounding of binary64
      arithmetic whenever two displacements tie in the rationals (they
      do for every square card).  There the displacements are the
      binary64 numbers the source computes ([Num.double]).
    - A card is a JavaScript object: it lives in a store of objects and
      the arrays [cards], [selectedCards], the connectors and
      [connectingFrom] hold references to it ([ref]).  [===] on cards and
      [Array.includes] compare references.
    - The SVG path of a connector and everything [updateLines] and
      [ChangeDetectorRef] do is rendering: it reads the state and never
      writes a field the engine reads back, so it is left out.
    - The [mousemove]/[mouseup] closures the gestures register on the
      document are the [listeners] field of the state, one entry per
      registered pair, in the order of registration, holding what the
      closures captured.  A pair stays registered until its own
      [mouseup] closure has run.
    - [getCardRect] is the rectangle the template positions the card's
      element at, for a container at the origin of the viewport.
    - The cursor ([updateCursor]) is styling and is not modelled.  The
      properties are stated for every state, whichever way it was
      reached, unless they say [reachable]. *)

From Stdlib Require Import QArith Qround Qabs Qminmax Lqa ZArith Lia.
From stdpp Require Import gmap strings list pretty.

(** ** Numbers *)

Module Num.
Local Open Scope Q_scope.

(** [Math.round]: the nearest integer, halves going up. *)
Definition round (v : Q) : Q := inject_Z (Qfloor (v + (1 # 2))).

(** [a < b], [a <= b], [a >= b], [a > b] and [a === b] on numbers. *)
Definition ltb (a b : Q) : bool := negb (Qle_bool b a).
Definition leb (a b : Q) : bool := Qle_bool a b.
Definition geb (a b : Q) : bool := Qle_bool b a.
Definition gtb (a b : Q) : bool := negb (Qle_bool a b).
Definition eqb (a b : Q) : bool := Qeq_bool a b.

(** [Math.min] of four numbers. *)
Definition min4 (a b c d : Q) : Q := Qmin (Qmin (Qmin a b) c) d.

(** *** Binary64 arithmetic *)

(** [2 ^ k] for an integer [k] of either sign. *)
Definition pow2 (k : Z) : Q :=
  if (0 <=? k)%Z then inject_Z (2 ^ k) else / inject_Z (2 ^ (- k)).

(** The integer nearest to [n / d], a tie going to the even one. *)
Definition nearestEven (n d : Z) : Z :=
  let q := (n / d)%Z in
  let r := (n mod d)%Z in
  match (2 * r ?= d)%Z with
  | Lt => q
  | Gt => (q + 1)%Z
  | Eq => if Z.even q then q else (q + 1)%Z
  end.

(** The binary64 number nearest to [v], ties to even: 53 significant
    bits, [e] being the exponent of [v].  The exponent range is not
    bounded: the engine's numbers are far from overflow and from the
    subnormal numbers. *)
Definition double (v : Q) : Q :=
  let n := Qnum (Qred v) in
  let d := Zpos (Qden (Qred v)) in
  if (n =? 0)%Z then 0
  else
    let a := Z.abs n in
    let e0 := (Z.log2 a - Z.log2 d)%Z in
    let e := if Qle_bool (pow2 e0) (inject_Z a / inject_Z d) then e0 else (e0 - 1)%Z in
    let k := (52 - e)%Z in
    let m :=
      if (0 <=? k)%Z then nearestEven (a * 2 ^ k) d
      else nearestEven a (d * 2 ^ (- k)) in
    Qred (inject_Z (Z.sgn n * m) * pow2 (- k)).

(** [a + b], [a - b] and [a * b] as the source computes them: the
    operation on the binary64 numbers nearest to the operands, rounded. *)
Definition fadd (a b : Q) : Q := double (double a + double b).
Definition fsub (a b : Q) : Q := double (double a - double b).
Definition fmul (a b : Q) : Q := double (double a * double b).

End Num.

(** ** The data model *)

(** A reference to a card object. *)
Definition ref := nat.

(** [interface Card]. *)
Record Card := mkCard {
  id : string;
  title : string;
  inputValue : string;
  baseX : Q;
  baseY : Q;
  baseWidth : Q;
  baseHeight : Q;
}.

(** [interface Connector]; [path] is the rendered SVG element. *)
Record Connector := mkConnector {
  from : ref;
  to : ref;
}.

#[global] Instance Connector_eq_dec : EqDecision Connector.
Proof. solve_decision. Defined.

(** An entry of [connections] in a clipboard item. *)
Record Connection := mkConnection {
  fromId : string;
  toId : string;
}.

(** An item of [clipboard]: the object literal [copyCards] builds. *)
Record ClipboardItem := mkClipboardItem {
  clip_baseX : Q;
  clip_baseY : Q;
  clip_baseWidth : Q;
  clip_baseHeight : Q;
  clip_title : string;
  clip_inputValue : string;
  connections : list Connection;
}.

(** The strings [getResizeDirection] returns. *)
Inductive Direction :=
| Top | Bottom | Left | Right
| TopLeft | TopRight | BottomLeft | BottomRight.

(** What the closures of [handleDrag] and [handleResize] captured. *)
Record Offset := mkOffset {
  off_card : ref;
  offsetX : Q;
  offsetY : Q;
}.

Record ResizeStart := mkResizeStart {
  rs_card : ref;
  rs_direction : Direction;
  rs_startX : Q;
  rs_startY : Q;
  initialWidth : Q;
  initialHeight : Q;
  initialX : Q;
  initialY : Q;
}.

(** A pair of [mousemove]/[mouseup] closures registered on the document,
    by [handleDrag] or by [handleResize]. *)
Inductive Gesture :=
| Dragging (offsets : list Offset)
| Resizing (start : ResizeStart).

(** The fields of the component the engine reads and writes, the store
    of card objects and the next free reference. *)
Record State := mkState {
  scale : Q;
  cardCount : nat;
  cards : list ref;
  connectors : list Connector;
  connectingFrom : option ref;
  selectedCards : list ref;
  clipboard : list ClipboardItem;
  gridSpacing : Q;
  store : ref -> Card;
  nextRef : ref;
  listeners : list Gesture;
}.

(** The pointer events the handlers read: coordinates, modifier keys and
    whether [event.target instanceof HTMLInputElement]. *)
Record MouseEvent := mkMouseEvent {
  clientX : Q;
  clientY : Q;
  altKey : bool;
  ctrlKey : bool;
  shiftKey : bool;
  targetIsInput : bool;
}.

(** [new DOMRect(x, y, width, height)]. *)
Record DOMRect := mkDOMRect {
  rect_left : Q;
  rect_top : Q;
  rect_width : Q;
  rect_height : Q;
}.

(** *** Field updates *)

Definition set_scale (v : Q) (s : State) : State :=
  mkState v (cardCount s) (cards s) (connectors s) (connectingFrom s)
    (selectedCards s) (clipboard s) (gridSpacing s) (store s) (nextRef s) (listeners s).

Definition set_cardCount (v : nat) (s : State) : State :=
  mkState (scale s) v (cards s) (connectors s) (connectingFrom s)
    (selectedCards s) (clipboard s) (gridSpacing s) (store s) (nextRef s) (listeners s).

Definition set_cards (v : list ref) (s : State) : State :=
  mkState (scale s) (cardCount s) v (connectors s) (connectingFrom s)
    (selectedCards s) (clipboard s) (gridSpacing s) (store s) (nextRef s) (listeners s).

Definition set_connectors (v : list Connector) (s : State) : State :=
  mkState (scale s) (cardCount s) (cards s) v (connectingFrom s)
    (selectedCards s) (clipboard s) (gridSpacing s) (store s) (nextRef s) (listeners s).

Definition set_connectingFrom (v : option ref) (s : State) : State :=
  mkState (scale s) (cardCount s) (cards s) (connectors s) v
    (selectedCards s) (clipboard s) (gridSpacing s) (store s) (nextRef s) (listeners s).

Definition set_selectedCards (v : list ref) (s : State) : State :=
  mkState (scale s) (cardCount s) (cards s) (connectors s) (connectingFrom s)
    v (clipboard s) (gridSpacing s) (store s) (nextRef s) (listeners s).

Definition set_clipboard (v : list ClipboardItem) (s : State) : State :=
  mkState (scale s) (cardCount s) (cards s) (connectors s) (connectingFrom s)
    (selectedCards s) v (gridSpacing s) (store s) (nextRef s) (listeners s).

Definition set_gridSpacing (v : Q) (s : State) : State :=
  mkState (scale s) (cardCount s) (cards s) (connectors s) (connectingFrom s)
    (selectedCards s) (clipboard s) v (store s) (nextRef s) (listeners s).

Definition set_store (v : ref -> Card) (s : State) : State :=
  mkState (scale s) (cardCount s) (cards s) (connectors s) (connectingFrom s)
    (selectedCards s) (clipboard s) (gridSpacing s) v (nextRef s) (listeners s).

Definition set_nextRef (v : ref) (s : State) : State :=
  mkState (scale s) (cardCount s) (cards s) (connectors s) (connectingFrom s)
    (selectedCards s) (clipboard s) (gridSpacing s) (store s) v (listeners s).

Definition set_listeners (v : list Gesture) (s : State) : State :=
  mkState (scale s) (cardCount s) (cards s) (connectors s) (connectingFrom s)
    (selectedCards s) (clipboard s) (gridSpacing s) (store s) (nextRef s) v.

(** Assignment to the fields of a card object. *)
Definition with_pos (c : Card) (vx vy : Q) : Card :=
  mkCard (id c) (title c) (inputValue c) vx vy (baseWidth c) (baseHeight c).

Definition with_geometry (c : Card) (vx vy vw vh : Q) : Card :=
  mkCard (id c) (title c) (inputValue c) vx vy vw vh.

(** [card.f = v; ...] on the object [r] refers to. *)
Definition update (r : ref) (f : Card -> Card) (s : State) : State :=
  set_store (fun r' => if decide (r' = r) then f (store s r') else store s r') s.

(** [new] of a card object: the object gets the next free reference. *)
Definition alloc (c : Card) (s : State) : ref * State :=
  let r := nextRef s in
  (r, set_nextRef (S r)
        (set_store (fun r' => if decide (r' = r) then c else store s r') s)).

(** [l.forEach((card) => { card.f = ...; })]: the assignments [F] makes
    to each card object of [l] in turn, reading the current state. *)
Definition forEachCard (F : State -> ref -> Card -> Card) (l : list ref) (s : State)
    : State :=
  fold_left (fun s card => update card (F s card) s) l s.

(** [array.includes(card)]. *)
Definition includes (l : list ref) (card : ref) : bool := bool_decide (card ∈ l).

(** The component when it is constructed: no card yet; the first card
    object will get the reference 1.  [emptyCard] is what the store
    holds where no object was allocated. *)
Definition emptyCard : Card := mkCard "" "" "" 0 0 0 0.

Definition initial : State :=
  mkState 1 0 [] [] None [] [] 50 (fun _ => emptyCard) 1 [].

(** ** The engine *)

Section Engine.
Local Open Scope Q_scope.

(** [snapToGrid(value)]. *)
Definition snapToGrid (s : State) (value : Q) : Q :=
  Num.round (value / (gridSpacing s * scale s)) * (gridSpacing s * scale s).

(** [adjustCardsAfterGridChange()]. *)
Definition adjustCardsAfterGridChange (s : State) : State :=
  forEachCard (fun s card c =>
    with_geometry c (snapToGrid s (baseX c)) (snapToGrid s (baseY c))
      (snapToGrid s (baseWidth c)) (snapToGrid s (baseHeight c)))
    (cards s) s.

(** [setGridSpacing(size)]. *)
Definition setGridSpacing (size : Q) (s : State) : State :=
  adjustCardsAfterGridChange (set_gridSpacing (Qmax 10 (Qmin 200 size)) s).

(** The default value of the parameters [x] and [y] of [addNewCard]. *)
Definition defaultPosition (s : State) : Q :=
  100 / scale s + inject_Z (Z.of_nat (cardCount s)) * 50 / scale s.

(** [addNewCard(x, y)]; the defaults are evaluated before the body. *)
Definition addNewCard (ox oy : option Q) (s : State) : State :=
  let vx := default (defaultPosition s) ox in
  let vy := default (defaultPosition s) oy in
  let s := set_cardCount (S (cardCount s)) s in
  let newCard :=
    mkCard ("card" +:+ pretty (cardCount s)) ("Card " +:+ pretty (cardCount s)) ""
      (snapToGrid s vx) (snapToGrid s vy) 200 100 in
  let '(r, s) := alloc newCard s in
  set_cards (cards s ++ [r]) s.

(** [ngAfterViewInit()]. *)
Definition ngAfterViewInit (s : State) : State :=
  addNewCard (Some 400) (Some 200) (addNewCard (Some 100) (Some 100) s).

(** [dxLeft], [dxRight], [dyTop] and [dyBottom] of [preventOverlap], in
    this order, as the source computes them from the eight fields of
    [movingRect] and [otherRect]: every sum, product and difference is
    the binary64 one.  [m] is the moving card, proposed at
    [(proposedX, proposedY)], and [o] the other card. *)
Definition displacements (s : State) (m : Card) (proposedX proposedY : Q) (o : Card)
    : Q * Q * Q * Q :=
  let mLeft := Num.fmul proposedX (scale s) in
  let mTop := Num.fmul proposedY (scale s) in
  let mRight := Num.fmul (Num.fadd proposedX (baseWidth m)) (scale s) in
  let mBottom := Num.fmul (Num.fadd proposedY (baseHeight m)) (scale s) in
  let oLeft := Num.fmul (baseX o) (scale s) in
  let oTop := Num.fmul (baseY o) (scale s) in
  let oRight := Num.fmul (Num.fadd (baseX o) (baseWidth o)) (scale s) in
  let oBottom := Num.fmul (Num.fadd (baseY o) (baseHeight o)) (scale s) in
  (Num.fsub oRight mLeft, Num.fsub mRight oLeft,
   Num.fsub oBottom mTop, Num.fsub mBottom oTop).

(** The body of the [for] loop of [preventOverlap]; [adjusted] is
    [(adjustedX, adjustedY)].  The rectangle of the moving card is the
    one at the proposed position throughout.  Which of the four
    displacements is the smallest is decided on the numbers the source
    computes ([displacements]). *)
Definition resolveStep (s : State) (movingCard : ref) (proposedX proposedY : Q)
    (adjusted : Q * Q) (otherCard : ref) : Q * Q :=
  let m := store s movingCard in
  let mLeft := proposedX * scale s in
  let mTop := proposedY * scale s in
  let mRight := (proposedX + baseWidth m) * scale s in
  let mBottom := (proposedY + baseHeight m) * scale s in
  if bool_decide (otherCard = movingCard) || includes (selectedCards s) otherCard
  then adjusted
  else
    let o := store s otherCard in
    let oLeft := baseX o * scale s in
    let oTop := baseY o * scale s in
    let oRight := (baseX o + baseWidth o) * scale s in
    let oBottom := (baseY o + baseHeight o) * scale s in
    if Num.ltb mLeft oRight && Num.gtb mRight oLeft
       && Num.ltb mTop oBottom && Num.gtb mBottom oTop
    then
      let '(dxLeft, dxRight, dyTop, dyBottom) :=
        displacements s m proposedX proposedY o in
      let minDisplacement :=
        Num.min4 (Qabs dxLeft) (Qabs dxRight) (Qabs dyTop) (Qabs dyBottom) in
      if Num.eqb minDisplacement (Qabs dxLeft) then
        (oRight / scale s + gridSpacing s * scale s, snd adjusted)
      else if Num.eqb minDisplacement (Qabs dxRight) then
        ((oLeft - baseWidth m) / scale s - gridSpacing s * scale s, snd adjusted)
      else if Num.eqb minDisplacement (Qabs dyTop) then
        (fst adjusted, oBottom / scale s + gridSpacing s * scale s)
      else if Num.eqb minDisplacement (Qabs dyBottom) then
        (fst adjusted, (oTop - baseHeight m) / scale s - gridSpacing s * scale s)
      else adjusted
    else adjusted.

(** [preventOverlap(movingCard, proposedX, proposedY)]: the pair is the
    returned object's [x] and [y]. *)
Definition preventOverlap (s : State) (movingCard : ref) (proposedX proposedY : Q)
    : Q * Q :=
  let adjusted :=
    fold_left (resolveStep s movingCard proposedX proposedY) (cards s)
      (proposedX, proposedY) in
  (snapToGrid s (fst adjusted), snapToGrid s (snd adjusted)).

(** [preventOverlapsAfterZoom()]. *)
Definition preventOverlapsAfterZoom (s : State) : State :=
  forEachCard (fun s card c =>
    let proposedX := baseX c in
    let proposedY := baseY c in
    let adjustedPosition := preventOverlap s card proposedX proposedY in
    with_pos c (fst adjustedPosition) (snd adjustedPosition))
    (cards s) s.

(** [zoom(delta)]. *)
Definition zoom (delta : Q) (s : State) : State :=
  let newScale := scale s * delta in
  if Num.geb newScale (1 # 2) && Num.leb newScale 2 then
    let s := set_scale newScale s in
    let s :=
      forEachCard (fun _ _ c =>
        with_geometry c (baseX c * delta) (baseY c * delta)
          (baseWidth c * delta) (baseHeight c * delta)) (cards s) s in
    preventOverlapsAfterZoom s
  else s.

(** [preventOverlapsAfterPaste()]. *)
Definition preventOverlapsAfterPaste (s : State) : State :=
  forEachCard (fun s card c =>
    let proposedX := baseX c / scale s in
    let proposedY := baseY c / scale s in
    let adjustedPosition := preventOverlap s card proposedX proposedY in
    with_pos c (fst adjustedPosition * scale s) (snd adjustedPosition * scale s))
    (cards s) s.

(** [selectCard(card)]. *)
Definition selectCard (card : ref) (s : State) : State :=
  if bool_decide (connectingFrom s ≠ Some card) then
    if negb (includes (selectedCards s) card)
    then set_selectedCards (selectedCards s ++ [card]) s
    else s
  else s.

(** [clearSelection()]. *)
Definition clearSelection (s : State) : State :=
  set_selectedCards
    (filter (fun card => connectingFrom s = Some card) (selectedCards s)) s.

(** [getCardRect(card)]: the rectangle the template gives the card's
    element, which is the [DOMRect] of the fallback branch. *)
Definition getCardRect (s : State) (card : ref) : DOMRect :=
  let c := store s card in
  mkDOMRect (baseX c * scale s) (baseY c * scale s)
    (baseWidth c * scale s) (baseHeight c * scale s).

Definition borderWidth : Q := 10.

(** [getResizeDirection(card, event)]. *)
Definition getResizeDirection (s : State) (card : ref) (event : MouseEvent)
    : option Direction :=
  let rect := getCardRect s card in
  let edgeSize := borderWidth * scale s in
  let x := clientX event - rect_left rect in
  let y := clientY event - rect_top rect in
  let leftEdge := - edgeSize in
  let rightEdge := rect_width rect + edgeSize in
  let topEdge := - edgeSize in
  let bottomEdge := rect_height rect + edgeSize in
  let inTop := Num.geb y topEdge && Num.leb y edgeSize in
  let inBottom := Num.geb y (rect_height rect - edgeSize) && Num.leb y bottomEdge in
  let inLeft := Num.geb x leftEdge && Num.leb x edgeSize in
  let inRight := Num.geb x (rect_width rect - edgeSize) && Num.leb x rightEdge in
  let midX := Num.gtb x edgeSize && Num.ltb x (rect_width rect - edgeSize) in
  let midY := Num.gtb y edgeSize && Num.ltb y (rect_height rect - edgeSize) in
  if inTop && midX then Some Top
  else if inBottom && midX then Some Bottom
  else if inLeft && midY then Some Left
  else if inRight && midY then Some Right
  else if inLeft && inTop then Some TopLeft
  else if inRight && inTop then Some TopRight
  else if inLeft && inBottom then Some BottomLeft
  else if inRight && inBottom then Some BottomRight
  else None.

(** [isResizingEdge(card, event)]: the disjunction of the same eight
    conditions. *)
Definition isResizingEdge (s : State) (card : ref) (event : MouseEvent) : bool :=
  let rect := getCardRect s card in
  let edgeSize := borderWidth * scale s in
  let x := clientX event - rect_left rect in
  let y := clientY event - rect_top rect in
  let leftEdge := - edgeSize in
  let rightEdge := rect_width rect + edgeSize in
  let topEdge := - edgeSize in
  let bottomEdge := rect_height rect + edgeSize in
  let inTop := Num.geb y topEdge && Num.leb y edgeSize in
  let inBottom := Num.geb y (rect_height rect - edgeSize) && Num.leb y bottomEdge in
  let inLeft := Num.geb x leftEdge && Num.leb x edgeSize in
  let inRight := Num.geb x (rect_width rect - edgeSize) && Num.leb x rightEdge in
  let midX := Num.gtb x edgeSize && Num.ltb x (rect_width rect - edgeSize) in
  let midY := Num.gtb y edgeSize && Num.ltb y (rect_height rect - edgeSize) in
  (inTop && midX) || (inBottom && midX) || (inLeft && midY) || (inRight && midY)
  || (inLeft && inTop) || (inRight && inTop)
  || (inLeft && inBottom) || (inRight && inBottom).
End Engine.

Section Gestures.
Local Open Scope Q_scope.

(** [handleDrag(event, card)]: the offsets are captured once, the two
    closures are registered on the document. *)
Definition handleDrag (event : MouseEvent) (card : ref) (s : State) : State :=
  let offsets :=
    map (fun selectedCard =>
           mkOffset selectedCard
             (clientX event - baseX (store s selectedCard) * scale s)
             (clientY event - baseY (store s selectedCard) * scale s))
        (selectedCards s) in
  set_listeners (listeners s ++ [Dragging offsets]) s.

(** [onMouseMove] of [handleDrag]. *)
Definition drag_onMouseMove (offsets : list Offset) (e : MouseEvent) (s : State)
    : State :=
  fold_left (fun s o =>
    let newX := (clientX e - offsetX o) / scale s in
    let newY := (clientY e - offsetY o) / scale s in
    let adjustedPosition := preventOverlap s (off_card o) newX newY in
    update (off_card o)
      (fun c => with_pos c (fst adjustedPosition) (snd adjustedPosition)) s)
    offsets s.

(** [onMouseUp] of [handleDrag].  Its last two statements remove the
    pair it belongs to; when a [mouseup] closure runs, the pairs
    registered before its own have run and removed themselves, so its
    own pair is the first one still registered. *)
Definition drag_onMouseUp (s : State) : State :=
  let s :=
    forEachCard (fun s selectedCard c =>
      with_pos c (snapToGrid s (baseX c)) (snapToGrid s (baseY c)))
      (selectedCards s) s in
  set_listeners (tail (listeners s)) s.

(** [handleResize(event, card)]. *)
Definition handleResize (event : MouseEvent) (card : ref) (s : State) : State :=
  match getResizeDirection s card event with
  | None => s
  | Some direction =>
      let c := store s card in
      set_listeners
        (listeners s ++
           [Resizing (mkResizeStart card direction (clientX event) (clientY event)
                        (baseWidth c) (baseHeight c) (baseX c) (baseY c))]) s
  end.

(** The two statements every case of the [switch] runs for a width,
    [Math.max(100 / scale, w)] then [snapToGrid(newWidth * scale) / scale],
    and the same for a height with [50]. *)
Definition resizedWidth (s : State) (w : Q) : Q :=
  snapToGrid s (Qmax (100 / scale s) w * scale s) / scale s.

Definition resizedHeight (s : State) (h : Q) : Q :=
  snapToGrid s (Qmax (50 / scale s) h * scale s) / scale s.

(** The [switch] of [onMouseMove] in [handleResize]:
    [(newWidth, newHeight, newX, newY)]. *)
Definition resizeGeometry (s : State) (st : ResizeStart) (deltaX deltaY : Q)
    : Q * Q * Q * Q :=
  let wMinus := resizedWidth s (initialWidth st - deltaX) in
  let wPlus := resizedWidth s (initialWidth st + deltaX) in
  let hMinus := resizedHeight s (initialHeight st - deltaY) in
  let hPlus := resizedHeight s (initialHeight st + deltaY) in
  match rs_direction st with
  | Top =>
      (initialWidth st, hMinus, initialX st, initialY st + (initialHeight st - hMinus))
  | Bottom => (initialWidth st, hPlus, initialX st, initialY st)
  | Left =>
      (wMinus, initialHeight st, initialX st + (initialWidth st - wMinus), initialY st)
  | Right => (wPlus, initialHeight st, initialX st, initialY st)
  | TopLeft =>
      (wMinus, hMinus, initialX st + (initialWidth st - wMinus),
       initialY st + (initialHeight st - hMinus))
  | TopRight =>
      (wPlus, hMinus, initialX st, initialY st + (initialHeight st - hMinus))
  | BottomLeft =>
      (wMinus, hPlus, initialX st + (initialWidth st - wMinus), initialY st)
  | BottomRight => (wPlus, hPlus, initialX st, initialY st)
  end.

(** [onMouseMove] of [handleResize]. *)
Definition resize_onMouseMove (st : ResizeStart) (e : MouseEvent) (s : State)
    : State :=
  let deltaX := (clientX e - rs_startX st) / scale s in
  let deltaY := (clientY e - rs_startY st) / scale s in
  let '(newWidth, newHeight, newX, newY) := resizeGeometry s st deltaX deltaY in
  update (rs_card st) (fun c => with_geometry c newX newY newWidth newHeight) s.

(** [onMouseUp] of [handleResize]: it only removes its own pair. *)
Definition resize_onMouseUp (s : State) : State :=
  set_listeners (tail (listeners s)) s.

(** A [mousemove] on the document: the [onMouseMove] closure of every
    registered pair runs, in the order of registration. *)
Definition documentMouseMove (e : MouseEvent) (s : State) : State :=
  fold_left (fun s listener =>
    match listener with
    | Dragging offsets => drag_onMouseMove offsets e s
    | Resizing st => resize_onMouseMove st e s
    end) (listeners s) s.

(** A [mouseup] on the document: the [onMouseUp] closure of every
    registered pair runs, in the order of registration, and removes its
    pair. *)
Definition documentMouseUp (s : State) : State :=
  fold_left (fun s listener =>
    match listener with
    | Dragging _ => drag_onMouseUp s
    | Resizing _ => resize_onMouseUp s
    end) (listeners s) s.

(** [onCardMouseDown(event, card)]. *)
Definition onCardMouseDown (event : MouseEvent) (card : ref) (s : State) : State :=
  if targetIsInput event then s
  else if negb (altKey event) then
    if isResizingEdge s card event then handleResize event card s
    else
      let s :=
        if ctrlKey event || shiftKey event then
          if includes (selectedCards s) card
          then set_selectedCards (filter (fun c => c ≠ card) (selectedCards s)) s
          else selectCard card s
        else
          if negb (includes (selectedCards s) card)
          then selectCard card (clearSelection s)
          else s in
      if includes (selectedCards s) card then handleDrag event card s else s
  else s.

(** The predicate of [findIndex] in [onCardClick]: the connector joins
    [a] and [b], in either direction. *)
Definition joins (a b : ref) (c : Connector) : Prop :=
  (from c = a ∧ to c = b) ∨ (from c = b ∧ to c = a).

#[global] Instance joins_dec a b c : Decision (joins a b c).
Proof. unfold joins. apply _. Defined.

(** [connectors.findIndex(...)]: [None] is [-1]. *)
Definition findIndex (a b : ref) (l : list Connector) : option nat :=
  fst <$> list_find (joins a b) l.

(** [onCardClick(event, card)]. *)
Definition onCardClick (event : MouseEvent) (card : ref) (s : State) : State :=
  if altKey event && negb (targetIsInput event) then
    match connectingFrom s with
    | None => set_connectingFrom (Some card) s
    | Some connecting =>
        if bool_decide (connecting = card) then set_connectingFrom None s
        else
          let s :=
            match findIndex connecting card (connectors s) with
            | Some existingConnectorIndex =>
                set_connectors (delete existingConnectorIndex (connectors s)) s
            | None =>
                set_connectors (connectors s ++ [mkConnector connecting card]) s
            end in
          set_connectingFrom None s
    end
  else s.
End Gestures.

Section Clipboard.
Local Open Scope Q_scope.

(** [String.prototype.replace(pattern, replacement)] with a string
    pattern: the first occurrence is replaced. *)
Fixpoint replace (pattern replacement s : string) : string :=
  if String.prefix pattern s then
    replacement +:+
      String.substring (String.length pattern)
        (String.length s - String.length pattern) s
  else
    match s with
    | EmptyString => EmptyString
    | String c s' => String c (replace pattern replacement s')
    end.

(** [copyCards()]. *)
Definition copyCards (s : State) : State :=
  if bool_decide (length (selectedCards s) = 0%nat) then s
  else
    set_clipboard
      (map (fun card =>
         let c := store s card in
         mkClipboardItem (baseX c / scale s) (baseY c / scale s)
           (baseWidth c / scale s) (baseHeight c / scale s)
           (title c) (inputValue c)
           (map (fun c => mkConnection (id (store s (from c))) (id (store s (to c))))
              (filter (fun c => from c = card ∨ to c = card) (connectors s))))
         (selectedCards s)) s.

(** The first [forEach] of [pasteCards]: one new card per item, pushed,
    recorded under the item's title and selected. *)
Definition pasteItem (offX offY : Q) (acc : gmap string ref * State)
    (item : ClipboardItem) : gmap string ref * State :=
  let '(newCardsMap, s) := acc in
  let s := set_cardCount (S (cardCount s)) s in
  let newCard :=
    mkCard ("card" +:+ pretty (cardCount s)) (clip_title item) (clip_inputValue item)
      ((clip_baseX item + offX) * scale s) ((clip_baseY item + offY) * scale s)
      (clip_baseWidth item * scale s) (clip_baseHeight item * scale s) in
  let '(r, s) := alloc newCard s in
  let s := set_cards (cards s ++ [r]) s in
  (<[clip_title item := r]> newCardsMap, selectCard r s).

(** The body of the inner [forEach] of the second loop. *)
Definition pasteConnection (newCardsMap : gmap string ref) (s : State)
    (conn : Connection) : State :=
  match newCardsMap !! replace "card" "Card " (fromId conn),
        newCardsMap !! replace "card" "Card " (toId conn) with
  | Some fromCard, Some toCard =>
      if bool_decide (fromCard ≠ toCard)
      then set_connectors (connectors s ++ [mkConnector fromCard toCard]) s
      else s
  | _, _ => s
  end.

(** [pasteCards()]. *)
Definition pasteCards (s : State) : State :=
  if bool_decide (length (clipboard s) = 0%nat) then s
  else
    let offX := 20 / scale s in
    let offY := 20 / scale s in
    let s := clearSelection s in
    let '(newCardsMap, s) := fold_left (pasteItem offX offY) (clipboard s) (∅, s) in
    let s :=
      fold_left (fun s item => fold_left (pasteConnection newCardsMap) (connections item) s)
        (clipboard s) s in
    preventOverlapsAfterPaste s.

(** [deleteSelectedCards()]; [confirmed] is what [confirm] returns. *)
Definition deleteSelectedCards (confirmed : bool) (s : State) : State :=
  if bool_decide (length (selectedCards s) = 0%nat) then s
  else if confirmed then
    let s1 :=
      set_cards (filter (fun card => card ∉ selectedCards s) (cards s)) s in
    let s2 :=
      set_connectors
        (filter (fun conn => (from conn ∉ selectedCards s1) ∧ (to conn ∉ selectedCards s1))
           (connectors s1)) s1 in
    let s3 :=
      match connectingFrom s2 with
      | Some c => if includes (selectedCards s2) c then set_connectingFrom None s2 else s2
      | None => s2
      end in
    set_selectedCards [] s3
  else s.
End Clipboard.

(** ** Rectangle selection, wheel, keyboard and sidebar *)

Section Host.
Local Open Scope Q_scope.

(** The rectangle of the selection in viewport coordinates, the local
    [rect] of [onMouseMove]. *)
Record Rect := mkRect {
  left_ : Q;
  top_ : Q;
  right_ : Q;
  bottom_ : Q;
}.

(** [cardRect.left < rect.right && cardRect.right > rect.left && ...]:
    [isInside] in [onMouseMove]; [right] and [bottom] of a [DOMRect] are
    [left + width] and [top + height]. *)
Definition isInside (s : State) (rect : Rect) (card : ref) : bool :=
  let cardRect := getCardRect s card in
  Num.ltb (rect_left cardRect) (right_ rect)
  && Num.gtb (rect_left cardRect + rect_width cardRect) (left_ rect)
  && Num.ltb (rect_top cardRect) (bottom_ rect)
  && Num.gtb (rect_top cardRect + rect_height cardRect) (top_ rect).

(** The body of [this.cards.forEach] in [onMouseMove]; [additive] is
    [event.ctrlKey || event.shiftKey]. *)
Definition selectionStep (rect : Rect) (additive : bool) (s : State) (card : ref)
    : State :=
  if isInside s rect card && negb (includes (selectedCards s) card)
  then selectCard card s
  else if negb (isInside s rect card) && includes (selectedCards s) card
          && bool_decide (connectingFrom s ≠ Some card) && negb additive
  then set_selectedCards (filter (fun c => c ≠ card) (selectedCards s)) s
  else s.

(** The loop of [onMouseMove] over the cards. *)
Definition selectByRectangle (rect : Rect) (additive : bool) (s : State) : State :=
  fold_left (selectionStep rect additive) (cards s) s.

(** The fields of the component beside those of [State]: the sidebar
    flag and the rectangle selection in progress.  [selectionRect] is
    relative to the container. *)
Record Component := mkComponent {
  engine : State;
  isSidebarOpen : bool;
  isSelecting : bool;
  selectionRect : DOMRect;
  startX : Q;
  startY : Q;
}.

(** [startSelection(event)]; [onContainer] is
    [event.target === this.zoomContainer.nativeElement] and
    [containerRect] what [getBoundingClientRect()] returns for it. *)
Definition startSelection (onContainer : bool) (containerRect : DOMRect)
    (event : MouseEvent) (c : Component) : Component :=
  if onContainer && negb (altKey event) then
    let sX := clientX event - rect_left containerRect in
    let sY := clientY event - rect_top containerRect in
    let s :=
      if negb (ctrlKey event || shiftKey event) then clearSelection (engine c)
      else engine c in
    mkComponent s (isSidebarOpen c) true (mkDOMRect sX sY 0 0) sX sY
  else c.

(** [onMouseMove(event)], the listener of [document:mousemove]. *)
Definition onMouseMove (containerRect : DOMRect) (event : MouseEvent) (c : Component)
    : Component :=
  if isSelecting c then
    let currentX := clientX event - rect_left containerRect in
    let currentY := clientY event - rect_top containerRect in
    let sel :=
      mkDOMRect (Qmin (startX c) currentX) (Qmin (startY c) currentY)
        (Qabs (currentX - startX c)) (Qabs (currentY - startY c)) in
    let rect :=
      mkRect (rect_left sel + rect_left containerRect)
        (rect_top sel + rect_top containerRect)
        (rect_left sel + rect_width sel + rect_left containerRect)
        (rect_top sel + rect_height sel + rect_top containerRect) in
    mkComponent
      (selectByRectangle rect (ctrlKey event || shiftKey event) (engine c))
      (isSidebarOpen c) (isSelecting c) sel (startX c) (startY c)
  else c.

(** [onMouseUp()], the listener of [document:mouseup]. *)
Definition onMouseUp (c : Component) : Component :=
  if isSelecting c
  then mkComponent (engine c) (isSidebarOpen c) false (selectionRect c) (startX c) (startY c)
  else c.

(** [toggleSidebar()]. *)
Definition toggleSidebar (c : Component) : Component :=
  mkComponent (engine c) (negb (isSidebarOpen c)) (isSelecting c) (selectionRect c)
    (startX c) (startY c).

(** What [onWheel] reads of a [WheelEvent]. *)
Record WheelEvent := mkWheelEvent {
  wheel_ctrlKey : bool;
  deltaY : Q;
}.

(** [onWheel(event)]. *)
Definition onWheel (event : WheelEvent) (s : State) : State :=
  if wheel_ctrlKey event
  then zoom (if Num.gtb (deltaY event) 0 then 9 # 10 else 11 # 10) s
  else s.

(** What [onKeyDown] reads of a [KeyboardEvent]. *)
Record KeyboardEvent := mkKeyboardEvent {
  key_ctrlKey : bool;
  key : string;
}.

(** [onKeyDown(event)]; the second letter of each pair is the Cyrillic
    one on the same key, and [confirmed] is what [confirm] would answer. *)
Definition onKeyDown (confirmed : bool) (event : KeyboardEvent) (s : State) : State :=
  if key_ctrlKey event && (bool_decide (key event = "c") || bool_decide (key event = "с"))
  then copyCards s
  else if key_ctrlKey event
          && (bool_decide (key event = "v") || bool_decide (key event = "м"))
  then pasteCards s
  else if bool_decide (key event = "Delete") then deleteSelectedCards confirmed s
  else s.
End Host.

(** ** The inputs of the engine *)

(** What the template and the host listeners hand to the engine: the
    calls that write the fields of [State]. *)
Inductive Input :=
| AddNewCard (x y : option Q)
| SetGridSpacing (size : Q)
| Zoom (delta : Q)
| Wheel (event : WheelEvent)
| CardMouseDown (event : MouseEvent) (card : ref)
| CardClick (event : MouseEvent) (card : ref)
| DocumentMouseMove (event : MouseEvent)
| DocumentMouseUp
| BackgroundMouseDown
| SelectionMove (rect : Rect) (additive : bool)
| KeyDown (confirmed : bool) (event : KeyboardEvent)
| EditText (card : ref) (text : string).

(** The handler an input runs.  [BackgroundMouseDown] is what a plain
    [startSelection] does to the engine, [SelectionMove] what
    [onMouseMove] does to it while selecting, and [EditText] the
    two-way binding of the card's text input to [card.inputValue]. *)
Definition handle (i : Input) (s : State) : State :=
  match i with
  | AddNewCard x y => addNewCard x y s
  | SetGridSpacing size => setGridSpacing size s
  | Zoom delta => zoom delta s
  | Wheel event => onWheel event s
  | CardMouseDown event card => onCardMouseDown event card s
  | CardClick event card => onCardClick event card s
  | DocumentMouseMove event => documentMouseMove event s
  | DocumentMouseUp => documentMouseUp s
  | BackgroundMouseDown => clearSelection s
  | SelectionMove rect additive => selectByRectangle rect additive s
  | KeyDown confirmed event => onKeyDown confirmed event s
  | EditText card text =>
      update card
        (fun c => mkCard (id c) (title c) text (baseX c) (baseY c)
                    (baseWidth c) (baseHeight c)) s
  end.

(** The template binds the card handlers to the elements of [cards]. *)
Definition admissible (i : Input) (s : State) : Prop :=
  match i with
  | CardMouseDown _ card | CardClick _ card | EditText card _ => card ∈ cards s
  | _ => True
  end.

(** The states the component goes through from its construction. *)
Inductive reachable : State -> Prop :=
| reachable_initial : reachable initial
| reachable_handle i s : reachable s -> admissible i s -> reachable (handle i s).

(** A sequence of inputs, run in order, and whether each of them is
    admissible when its turn comes. *)
Definition run (inputs : list Input) (s : State) : State :=
  fold_left (fun s i => handle i s) inputs s.

Definition admissibleb (i : Input) (s : State) : bool :=
  match i with
  | CardMouseDown _ card | CardClick _ card | EditText card _ =>
      bool_decide (card ∈ cards s)
  | _ => true
  end.

Fixpoint runnable (inputs : list Input) (s : State) : bool :=
  match inputs with
  | [] => true
  | i :: rest => admissibleb i s && runnable rest (handle i s)
  end.

(** ** Event sequences used in the examples *)

Module Scenario.
(** A pointer event at [(x, y)] outside any text input. *)
Definition pointer (x y : Q) (alt ctrl : bool) : MouseEvent :=
  mkMouseEvent x y alt ctrl false false.

(** A full click on a card: [mousedown] on the card, [mouseup] on the
    document, [click] on the card. *)
Definition click (x y : Q) (alt ctrl : bool) (card : ref) (s : State) : State :=
  onCardClick (pointer x y alt ctrl) card
    (documentMouseUp (onCardMouseDown (pointer x y alt ctrl) card s)).

(** The component after [ngAfterViewInit]: card1 at (100, 100) and
    card2 at (400, 200), both 200 x 100; their references are 1 and 2. *)
Definition started : State := ngAfterViewInit initial.

(** Alt-click card1 then card2: one connector from card1 to card2. *)
Definition connected : State :=
  click 500 250 true false 2 (click 200 150 true false 1 started).

(** Click card1, Ctrl-click card2: both selected. *)
Definition bothSelected : State :=
  click 500 250 false true 2 (click 200 150 false false 1 connected).

(** Ctrl+C then Ctrl+V. *)
Definition pasted : State := pasteCards (copyCards bothSelected).

(** The connect-toggle of the pair [{a, b}]: Alt-click [a], Alt-click [b]. *)
Definition connectToggle (a b : ref) (s : State) : State :=
  onCardClick (pointer 0 0 true false) b (onCardClick (pointer 0 0 true false) a s).

(** The first part of a session.  The two initial cards are created and
    joined by Alt-clicks; card1 is pressed and, with no release in
    between, card2 is pressed, so that two drags are registered when the
    pointer moves to (600, 350) and is released; card1 is added to the
    selection with Ctrl; the two cards are copied and pasted, which
    leaves four cards, three connectors and the two copies selected. *)
Definition editing : list Input :=
  [ AddNewCard (Some 100%Q) (Some 100%Q); AddNewCard (Some 400%Q) (Some 200%Q);
    CardMouseDown (pointer 200 150 true false) 1%nat; DocumentMouseUp;
    CardClick (pointer 200 150 true false) 1%nat;
    CardMouseDown (pointer 500 250 true false) 2%nat; DocumentMouseUp;
    CardClick (pointer 500 250 true false) 2%nat;
    CardMouseDown (pointer 200 150 false false) 1%nat;
    CardMouseDown (pointer 500 250 false false) 2%nat;
    DocumentMouseMove (pointer 600 350 false false); DocumentMouseUp;
    CardClick (pointer 600 350 false false) 2%nat;
    CardMouseDown (pointer 600 350 false true) 1%nat; DocumentMouseUp;
    CardClick (pointer 600 350 false true) 1%nat;
    KeyDown true (mkKeyboardEvent true "c"); KeyDown true (mkKeyboardEvent true "v") ].

(** The whole session: then a text is typed into the first copy, the
    view is zoomed by 1.1, a zoom by 4 and a grid spacing of 500 are
    asked for, the two copies are deleted and a card is added. *)
Definition session : list Input :=
  editing ++
  [ EditText 3%nat "copy"; Zoom (11 # 10); Zoom 4; SetGridSpacing 500;
    KeyDown true (mkKeyboardEvent false "Delete"); AddNewCard None None ].

(** What a state shows: per card its id, title and geometry. *)
Definition geometry (s : State) : list (string * string * Q * Q * Q * Q) :=
  map (fun r =>
         let c := store s r in
         (id c, title c, Qred (baseX c), Qred (baseY c),
          Qred (baseWidth c), Qred (baseHeight c)))
      (cards s).
End Scenario.

(** ** What the properties are stated with *)

Section Notions.
Local Open Scope Q_scope.

(** [v] is an exact multiple of [gridSpacing * scale]. *)
Definition onGrid (s : State) (v : Q) : Prop :=
  exists k : Z, v == inject_Z k * (gridSpacing s * scale s).

(** The overlap test of [preventOverlap], between the card [m] placed at
    [(x, y)] and the card [o]. *)
Definition overlapsAt (s : State) (m : Card) (x y : Q) (o : Card) : Prop :=
  x * scale s < (baseX o + baseWidth o) * scale s
  ∧ baseX o * scale s < (x + baseWidth m) * scale s
  ∧ y * scale s < (baseY o + baseHeight o) * scale s
  ∧ baseY o * scale s < (y + baseHeight m) * scale s.


(** [Math.abs(dxLeft)] and [Math.abs(dyTop)] as the source computes them
    for the card [m] proposed at [(x, y)] and the card [o]. *)
Definition absDxLeft (s : State) (m : Card) (x y : Q) (o : Card) : Q :=
  let '(dxLeft, _, _, _) := displacements s m x y o in Qabs dxLeft.

Definition absDyTop (s : State) (m : Card) (x y : Q) (o : Card) : Q :=
  let '(_, _, dyTop, _) := displacements s m x y o in Qabs dyTop.

(** Two cards whose rectangles overlap exactly. *)
Definition sameRectangle (a b : Card) : Prop :=
  baseX a == baseX b ∧ baseY a == baseY b
  ∧ baseWidth a == baseWidth b ∧ baseHeight a == baseHeight b.

(** The directions in which a resize changes the width, and the height. *)
Definition resizesWidth (d : Direction) : bool :=
  match d with
  | Top | Bottom => false
  | _ => true
  end.

Definition resizesHeight (d : Direction) : bool :=
  match d with
  | Left | Right => false
  | _ => true
  end.

(** A connector between two different values of the map [pasteCards]
    builds, that is between two different cards of that paste. *)
Definition fromMap (m : gmap string ref) (c : Connector) : Prop :=
  (exists k, m !! k = Some (from c)) ∧ (exists k, m !! k = Some (to c))
  ∧ from c ≠ to c.
End Notions.

(** ** Invariants of the engine state *)

Section Invariants.
Local Open Scope Q_scope.

(** The references are consistent: [cards] holds allocated card objects,
    each once; every connector joins two different cards of [cards]; the
    selection and [connectingFrom] are cards of [cards]. *)
Definition wellFormed (s : State) : Prop :=
  NoDup (cards s)
  ∧ (forall r, r ∈ cards s -> (r < nextRef s)%nat)
  ∧ (forall c, c ∈ connectors s ->
       from c ∈ cards s ∧ to c ∈ cards s ∧ from c ≠ to c)
  ∧ (forall r, r ∈ selectedCards s -> r ∈ cards s)
  ∧ NoDup (selectedCards s)
  ∧ (forall r, connectingFrom s = Some r -> r ∈ cards s).

(** Every card carries an id [card<k>] issued by the counter, and no two
    cards the same. *)
Definition idsIssued (s : State) : Prop :=
  (forall r, r ∈ cards s ->
     exists k, (1 ≤ k ≤ cardCount s)%nat ∧ id (store s r) = "card" +:+ pretty k)
  ∧ (forall r r', r ∈ cards s -> r' ∈ cards s ->
       id (store s r) = id (store s r') -> r = r').

(** At most one connector joins any two cards. *)
Definition onePerPair (l : list Connector) : Prop :=
  forall a b, (length (filter (joins a b) l) ≤ 1)%nat.

(** The scale and the grid spacing are within their bounds. *)
Definition inBounds (s : State) : Prop :=
  ((1 # 2) <= scale s ∧ scale s <= 2) ∧ (10 <= gridSpacing s ∧ gridSpacing s <= 200).

(** [s'] differs from [s] in the geometry of card objects, the scale,
    the grid spacing and the registered closures at most. *)
Definition geometryOnly (s s' : State) : Prop :=
  cards s' = cards s ∧ connectors s' = connectors s
  ∧ selectedCards s' = selectedCards s ∧ connectingFrom s' = connectingFrom s
  ∧ clipboard s' = clipboard s ∧ cardCount s' = cardCount s
  ∧ nextRef s' = nextRef s
  ∧ (forall r, id (store s' r) = id (store s r)
       ∧ title (store s' r) = title (store s r)
       ∧ inputValue (store s' r) = inputValue (store s r)).

(** [s'] differs from [s] in the selection and in the registered
    closures at most. *)
Definition selectionOnly (s s' : State) : Prop :=
  cards s' = cards s ∧ connectors s' = connectors s
  ∧ connectingFrom s' = connectingFrom s ∧ clipboard s' = clipboard s
  ∧ cardCount s' = cardCount s ∧ nextRef s' = nextRef s ∧ store s' = store s
  ∧ scale s' = scale s ∧ gridSpacing s' = gridSpacing s.
End Invariants.

(** ** Loops over the card objects *)

Section Loops.
Variable F : State -> ref -> Card -> Card.

Implicit Types (l : list ref) (s : State) (r : ref).

Lemma forEachCard_cons r l s :
  forEachCard F (r :: l) s = forEachCard F l (update r (F s r) s).
Proof. reflexivity. Qed.

(** A loop of assignments to card objects writes the store only. *)
Lemma forEachCard_fields l s :
  let s' := forEachCard F l s in
  scale s' = scale s ∧ gridSpacing s' = gridSpacing s ∧ cards s' = cards s
  ∧ selectedCards s' = selectedCards s ∧ connectors s' = connectors s
  ∧ connectingFrom s' = connectingFrom s ∧ clipboard s' = clipboard s
  ∧ cardCount s' = cardCount s ∧ nextRef s' = nextRef s ∧ listeners s' = listeners s.
Proof.
  revert s. induction l as [|r l IH]; intros s; simpl; [tauto|].
  specialize (IH (update r (F s r) s)). simpl in IH. exact IH.
Qed.

Lemma forEachCard_other l s r :
  r ∉ l -> store (forEachCard F l s) r = store s r.
Proof.
  revert s. induction l as [|r' l IH]; intros s Hr; [reflexivity|].
  rewrite forEachCard_cons, IH by set_solver.
  simpl. case_decide; [set_solver | reflexivity].
Qed.

(** What every assignment establishes for its card, and no assignment
    to another card breaks, holds of every card of the list after the
    loop.  [I] is what the loop keeps of the state. *)
Section Post.
Variable I : State -> Prop.
Variable P : State -> ref -> Prop.
Hypothesis I_step : forall s r, I s -> I (update r (F s r) s).
Hypothesis P_here : forall s r, I s -> P (update r (F s r) s) r.
Hypothesis P_other :
  forall s r r', I s -> P s r' -> r' ≠ r -> P (update r (F s r) s) r'.

Lemma forEachCard_inv l s : I s -> I (forEachCard F l s).
Proof. revert s. induction l; intros s Hs; simpl; auto. Qed.

Lemma forEachCard_keep l s r : I s -> P s r -> P (forEachCard F l s) r.
Proof.
  revert s. induction l as [|r' l IH]; intros s Hs Hp; [exact Hp|].
  rewrite forEachCard_cons. apply IH; [auto|].
  destruct (decide (r = r')) as [->|Hne]; auto.
Qed.

Lemma forEachCard_post l s r : I s -> r ∈ l -> P (forEachCard F l s) r.
Proof.
  revert s. induction l as [|r' l IH]; intros s Hs Hr; [set_solver|].
  rewrite forEachCard_cons.
  destruct (decide (r ∈ l)) as [Hin|Hnin].
  - apply IH; auto.
  - apply elem_of_cons in Hr as [->|Hr]; [|done].
    apply forEachCard_keep; auto.
Qed.
End Post.
End Loops.

(** ** Numbers: rounding and comparisons *)

Section NumFacts.
Local Open Scope Q_scope.

Lemma Num_ltb_lt a b : Num.ltb a b = true <-> a < b.
Proof.
unfold Num.ltb. rewrite negb_true_iff, <- not_true_iff_false, Qle_bool_iff.
split; [apply Qnot_le_lt | apply Qlt_not_le].
Qed.

Lemma Num_leb_le a b : Num.leb a b = true <-> a <= b.
Proof. apply Qle_bool_iff. Qed.

Lemma Num_geb_ge a b : Num.geb a b = true <-> b <= a.
Proof. apply Qle_bool_iff. Qed.

Lemma Num_gtb_gt a b : Num.gtb a b = true <-> b < a.
Proof. apply (Num_ltb_lt b a). Qed.

Lemma Num_eqb_eq a b : Num.eqb a b = true <-> a == b.
Proof. apply Qeq_bool_iff. Qed.

Lemma Num_round_bounds v : v - (1 # 2) < Num.round v /\ Num.round v <= v + (1 # 2).
Proof.
unfold Num.round. split.
- pose proof (Qlt_floor (v + (1 # 2))) as H.
  rewrite inject_Z_plus in H. change (inject_Z 1) with 1 in H. lra.
- apply Qfloor_le.
Qed.

Lemma Num_round_mono a b : a <= b -> Num.round a <= Num.round b.
Proof.
intros H. unfold Num.round. rewrite <- Zle_Qle. apply Qfloor_resp_le. lra.
Qed.

Lemma Num_round_inject_Z k : Num.round (inject_Z k) == inject_Z k.
Proof.
unfold Num.round.
assert (Qfloor (inject_Z k + (1 # 2)) = k) as ->; [|reflexivity].
assert (k <= Qfloor (inject_Z k + (1 # 2)))%Z.
{ rewrite <- (Qfloor_Z k) at 1. apply Qfloor_resp_le. lra. }
assert (Qfloor (inject_Z k + (1 # 2)) < k + 1)%Z; [|lia].
rewrite Zlt_Qlt, inject_Z_plus. change (inject_Z 1) with 1.
pose proof (Qfloor_le (inject_Z k + (1 # 2))). lra.
Qed.
End NumFacts.

(** ** Deleting the selection *)

Section Delete.
Implicit Types (s : State) (card : ref) (conn : Connector).

(** C6.  Once the deletion is confirmed: a connector survives exactly
    when neither of its endpoints was selected, so every connector with
    a deleted endpoint is gone; [selectedCards] is empty;
    [connectingFrom] is reset to null when it was one of the deleted
    cards and kept otherwise; a card survives exactly when it was not
    selected, so no card outside the selection is removed; and no card
    object is written. *)
Theorem deleteSelectedCards_cascade s :
  let s' := deleteSelectedCards true s in
  (forall conn, conn ∈ connectors s' <->
     conn ∈ connectors s ∧ (from conn ∉ selectedCards s) ∧ (to conn ∉ selectedCards s))
  ∧ selectedCards s' = []
  ∧ (forall card, connectingFrom s = Some card ->
       connectingFrom s' = if includes (selectedCards s) card then None else Some card)
  ∧ (connectingFrom s = None -> connectingFrom s' = None)
  ∧ (forall card, card ∈ cards s' <-> card ∈ cards s ∧ (card ∉ selectedCards s))
  ∧ store s' = store s.
Proof.
  unfold deleteSelectedCards. case_bool_decide as Hlen.
  - apply length_zero_iff_nil in Hlen. cbv zeta. rewrite Hlen.
    split_and!; try done.
    + intros conn. split; [intros ?|tauto]. split_and!; [done|apply not_elem_of_nil..].
    + intros card. split; [intros ?|tauto]. split; [done|apply not_elem_of_nil].
  - cbv zeta. simpl.
    destruct (connectingFrom s) as [c|] eqn:Hc;
      [destruct (includes (selectedCards s) c) eqn:Hinc|]; simpl;
      (split_and!;
       [ intros conn; rewrite list_elem_of_filter; tauto
       | reflexivity
       | intros card Hcard; simplify_eq; by rewrite ?Hinc
       | done
       | intros card; rewrite list_elem_of_filter; tauto
       | reflexivity ]).
Qed.

(** Declining the confirmation changes nothing. *)
Lemma deleteSelectedCards_declined s : deleteSelectedCards false s = s.
Proof. unfold deleteSelectedCards. by case_bool_decide. Qed.
End Delete.

(** ** Pointer-down and click on a card *)

Section Clicks.
Implicit Types (s : State) (card : ref) (event : MouseEvent).

Lemma includes_true l card : includes l card = true <-> card ∈ l.
Proof. unfold includes. apply bool_decide_eq_true. Qed.

Lemma includes_false l card : includes l card = false <-> card ∉ l.
Proof. unfold includes. apply bool_decide_eq_false. Qed.

Lemma filter_none {A} (P : A -> Prop) `{!forall x, Decision (P x)} (l : list A) :
  (forall x, x ∈ l -> ¬ P x) -> filter P l = [].
Proof.
  induction l as [|x l IH]; intros Hl; [done|].
  rewrite filter_cons_False by (apply Hl; left).
  apply IH. intros y Hy. apply Hl. by right.
Qed.

Lemma selectedCards_selectCard card s :
  selectedCards (selectCard card s) =
    if bool_decide (connectingFrom s ≠ Some card) then
      if includes (selectedCards s) card then selectedCards s
      else selectedCards s ++ [card]
    else selectedCards s.
Proof.
  unfold selectCard. case_bool_decide; [|done].
  by destruct (includes (selectedCards s) card).
Qed.

(** Starting a drag does not touch the selection. *)
Lemma selectedCards_handleDrag_or_not event card s (b : bool) :
  selectedCards (if b then handleDrag event card s else s) = selectedCards s.
Proof. by destruct b. Qed.

(** C10.  An Alt-modified click on a card, that is [onCardMouseDown]
    then [onCardClick] with [altKey] set, writes [connectors] and
    [connectingFrom] only: [selectedCards] is the same list, no card
    object is written (so every card keeps its x, y, width, height, title
    and text), and the card list, scale, grid spacing, counter and
    clipboard are unchanged, and no gesture starts. *)
Theorem altClick_frame s event card :
  altKey event = true ->
  let s' := onCardClick event card (onCardMouseDown event card s) in
  selectedCards s' = selectedCards s
  ∧ store s' = store s
  ∧ cards s' = cards s
  ∧ scale s' = scale s
  ∧ gridSpacing s' = gridSpacing s
  ∧ cardCount s' = cardCount s
  ∧ clipboard s' = clipboard s
  ∧ listeners s' = listeners s.
Proof.
  intros Halt. unfold onCardMouseDown, onCardClick. rewrite Halt. simpl.
  destruct (targetIsInput event); simpl; [done|].
  destruct (connectingFrom s) as [connecting|]; [|done].
  case_bool_decide; [done|].
  by destruct (findIndex connecting card (connectors s)).
Qed.

(** The witness: an Alt-click on card2 while a connection from card1 is
    pending. *)
Lemma altClick_frame_witness :
  let s := Scenario.click 200 150 true false 1 Scenario.started in
  let event := Scenario.pointer 500 250 true false in
  let s' := onCardClick event 2 (onCardMouseDown event 2 s) in
  connectors s' = [mkConnector 1 2]
  ∧ selectedCards s' = selectedCards s ∧ store s' = store s.
Proof.
  cbv zeta. split; [reflexivity|].
  pose proof (altClick_frame (Scenario.click 200 150 true false 1 Scenario.started)
                (Scenario.pointer 500 250 true false) 2 eq_refl) as H.
  cbv zeta in H. destruct H as (H1 & H2 & _). split; [exact H1 | exact H2].
Defined.

(** C8, as the code has it.  A pointer-down without Alt, Ctrl or Shift,
    away from the resize border and not on the text input, on a card
    that is not selected: [selectedCards] becomes what [clearSelection]
    keeps of the selection (the card [connectingFrom], if it was
    selected) followed by the card itself, unless the card is
    [connectingFrom].  When [connectingFrom] is null, or is another card
    that was not selected, [selectedCards] is exactly that one card. *)
Theorem onCardMouseDown_unselected s event card :
  targetIsInput event = false ->
  altKey event = false -> ctrlKey event = false -> shiftKey event = false ->
  isResizingEdge s card event = false ->
  card ∉ selectedCards s ->
  let s' := onCardMouseDown event card s in
  selectedCards s' =
    filter (fun c => connectingFrom s = Some c) (selectedCards s)
    ++ (if bool_decide (connectingFrom s = Some card) then [] else [card])
  ∧ ((forall c, connectingFrom s = Some c -> c ≠ card ∧ c ∉ selectedCards s) ->
     selectedCards s' = [card]).
Proof.
  intros Hinput Halt Hctrl Hshift Hedge Hsel.
  assert (selectedCards (onCardMouseDown event card s) =
    filter (fun c => connectingFrom s = Some c) (selectedCards s)
    ++ (if bool_decide (connectingFrom s = Some card) then [] else [card])) as Heq.
  { unfold onCardMouseDown. rewrite Hinput, Halt, Hctrl, Hshift, Hedge. simpl.
    apply includes_false in Hsel as Hinc. rewrite Hinc. simpl.
    set (kept := filter (fun c => connectingFrom s = Some c) (selectedCards s)).
    assert (includes kept card = false) as Hinc'.
    { apply includes_false. unfold kept. rewrite list_elem_of_filter. tauto. }
    rewrite selectedCards_handleDrag_or_not, selectedCards_selectCard.
    simpl. fold kept. rewrite Hinc'.
    destruct (decide (connectingFrom s = Some card)) as [Hc|Hc].
    - rewrite (bool_decide_eq_false_2 (connectingFrom s ≠ Some card)) by tauto.
      rewrite (bool_decide_eq_true_2 _ Hc). by rewrite app_nil_r.
    - rewrite (bool_decide_eq_true_2 (connectingFrom s ≠ Some card)) by done.
      by rewrite (bool_decide_eq_false_2 _ Hc). }
  cbv zeta. split; [exact Heq|].
  intros Hfree. rewrite Heq.
  rewrite filter_none.
  - rewrite bool_decide_eq_false_2; [done|].
    intros Hc. by destruct (Hfree _ Hc).
  - intros c Hc Hcf. by destruct (Hfree _ Hcf).
Qed.

(** The witness: card1 of the freshly started component, clicked in its
    middle with nothing selected and no connection pending. *)
Lemma onCardMouseDown_unselected_witness :
  selectedCards
    (onCardMouseDown (Scenario.pointer 200 150 false false) 1 Scenario.started) = [1].
Proof.
  refine (proj2 (onCardMouseDown_unselected Scenario.started
                   (Scenario.pointer 200 150 false false) 1 _ _ _ _ _ _) _).
  - reflexivity.
  - reflexivity.
  - reflexivity.
  - reflexivity.
  - vm_compute. reflexivity.
  - vm_compute. apply not_elem_of_nil.
  - intros c Hc. vm_compute in Hc. discriminate.
Defined.

(** C8 fails while a connection is pending from the card: after an
    Alt-click on card1 ([connectingFrom] is card1, nothing is selected), a
    plain pointer-down in the middle of card1 leaves the selection empty. *)
Lemma onCardMouseDown_pending_counterexample :
  let s := Scenario.click 200 150 true false 1 Scenario.started in
  let event := Scenario.pointer 200 150 false false in
  targetIsInput event = false ∧ altKey event = false ∧ ctrlKey event = false
  ∧ shiftKey event = false ∧ isResizingEdge s 1 event = false
  ∧ (1 ∉ selectedCards s)
  ∧ selectedCards (onCardMouseDown event 1 s) ≠ [1].
Proof.
  cbv zeta. split_and!; try reflexivity.
  - vm_compute. apply not_elem_of_nil.
  - vm_compute. discriminate.
Qed.
End Clicks.

(** ** Snapping to the grid *)

Section Grid.
Local Open Scope Q_scope.
Implicit Types (s : State) (v : Q).

Lemma snapToGrid_onGrid s v : onGrid s (snapToGrid s v).
Proof. eexists. unfold snapToGrid, Num.round. reflexivity. Qed.

Lemma Num_round_proper v v' : v == v' -> Num.round v == Num.round v'.
Proof. intros H. unfold Num.round. by rewrite H. Qed.

Lemma snapToGrid_proper s v v' : v == v' -> snapToGrid s v == snapToGrid s v'.
Proof.
  intros H. unfold snapToGrid.
  rewrite (Num_round_proper (v / _) (v' / (gridSpacing s * scale s))); [reflexivity|].
  by rewrite H.
Qed.

(** A snapped value is within half a grid step of the value. *)
Lemma snapToGrid_bounds s v :
  0 < gridSpacing s * scale s ->
  v - (1 # 2) * (gridSpacing s * scale s) < snapToGrid s v
  ∧ snapToGrid s v <= v + (1 # 2) * (gridSpacing s * scale s).
Proof.
  intros Hu. unfold snapToGrid. set (u := gridSpacing s * scale s) in *.
  destruct (Num_round_bounds (v / u)) as [Hlo Hhi].
  assert (v / u * u == v) as Hq by (field; lra).
  set (q := v / u) in *. set (R := Num.round q) in *.
  apply (Qmult_lt_compat_r _ _ u) in Hlo; [|exact Hu].
  apply (Qmult_le_compat_r _ _ u) in Hhi; [|lra].
  clearbody R. clearbody q. clearbody u. split; lra.
Qed.

(** A value on the grid is its own snap. *)
Lemma snapToGrid_fixed s v :
  0 < gridSpacing s * scale s -> onGrid s v -> snapToGrid s v == v.
Proof.
  intros Hu [k Hk]. unfold snapToGrid. set (u := gridSpacing s * scale s) in *.
  assert (v / u == inject_Z k) as Hq by (rewrite Hk; field; lra).
  rewrite (Num_round_proper _ _ Hq), Num_round_inject_Z. by rewrite Hk.
Qed.

Lemma snapToGrid_mono s a b :
  0 < gridSpacing s * scale s -> a <= b -> snapToGrid s a <= snapToGrid s b.
Proof.
  intros Hu Hab. unfold snapToGrid. set (u := gridSpacing s * scale s) in *.
  apply Qmult_le_compat_r; [|lra].
  apply Num_round_mono. apply Qmult_le_compat_r; [exact Hab|].
  apply Qlt_le_weak, Qinv_lt_0_compat, Hu.
Qed.

Lemma onGrid_proper s v v' : v == v' -> onGrid s v -> onGrid s v'.
Proof. intros H [k Hk]. exists k. by rewrite <- H. Qed.

Lemma onGrid_plus s a b : onGrid s a -> onGrid s b -> onGrid s (a + b).
Proof.
  intros [k Hk] [j Hj]. exists (k + j)%Z. rewrite inject_Z_plus, Hk, Hj. ring.
Qed.

Lemma onGrid_step s : onGrid s (gridSpacing s * scale s).
Proof. exists 1%Z. ring. Qed.

(** The grid of a state depends on its grid spacing and scale only. *)
Lemma onGrid_same s s' v :
  gridSpacing s' = gridSpacing s -> scale s' = scale s -> onGrid s v -> onGrid s' v.
Proof. intros Hg Hs [k Hk]. exists k. by rewrite Hg, Hs. Qed.

(** [preventOverlap] returns a position on the grid, whatever the loop did. *)
Lemma preventOverlap_onGrid s movingCard x y :
  onGrid s (fst (preventOverlap s movingCard x y))
  ∧ onGrid s (snd (preventOverlap s movingCard x y)).
Proof. split; apply snapToGrid_onGrid. Qed.
End Grid.

(** ** Zoom, drag commit and resize *)

Section Geometry.
Local Open Scope Q_scope.
Implicit Types (s : State) (r card : ref) (l : list ref).

Lemma store_update r f s r' :
  store (update r f s) r' = if decide (r' = r) then f (store s r') else store s r'.
Proof. reflexivity. Qed.

(** A loop whose assignments do not depend on the state, over distinct
    cards, assigns once to each. *)
Lemma forEachCard_const f l s r :
  NoDup l -> r ∈ l -> store (forEachCard (fun _ _ => f) l s) r = f (store s r).
Proof.
  revert s. induction l as [|r' l IH]; intros s Hnd Hr; [by apply elem_of_nil in Hr|].
  apply NoDup_cons in Hnd as [Hr' Hnd]. rewrite forEachCard_cons.
  apply elem_of_cons in Hr as [->|Hr].
  - rewrite forEachCard_other by done. rewrite store_update. by case_decide.
  - rewrite IH by done. rewrite store_update. case_decide; [by subst|done].
Qed.

(** A loop that assigns positions only keeps every other field of every card. *)
Lemma forEachCard_with_pos (G : State -> ref -> Card -> Q * Q) l s r :
  let s' := forEachCard (fun s r c => with_pos c (fst (G s r c)) (snd (G s r c))) l s in
  baseWidth (store s' r) = baseWidth (store s r)
  ∧ baseHeight (store s' r) = baseHeight (store s r)
  ∧ id (store s' r) = id (store s r)
  ∧ title (store s' r) = title (store s r)
  ∧ inputValue (store s' r) = inputValue (store s r).
Proof.
  revert s. induction l as [|r' l IH]; intros s; [done|].
  cbv zeta. rewrite forEachCard_cons.
  destruct (IH (update r' (fun c => with_pos c (fst (G s r' c)) (snd (G s r' c))) s))
    as (-> & -> & -> & -> & ->).
  rewrite store_update. by case_decide.
Qed.

(** A loop that snaps the position it assigns leaves every card of the
    list on the grid. *)
Lemma forEachCard_snapped (G : State -> ref -> Card -> Q * Q) l s r :
  (forall s r c, onGrid s (fst (G s r c)) ∧ onGrid s (snd (G s r c))) ->
  r ∈ l ->
  let s' := forEachCard (fun s r c => with_pos c (fst (G s r c)) (snd (G s r c))) l s in
  onGrid s' (baseX (store s' r)) ∧ onGrid s' (baseY (store s' r)).
Proof.
  intros HG Hr. cbv zeta.
  set (F := fun s r c => with_pos c (fst (G s r c)) (snd (G s r c))).
  pose (I := fun s' => gridSpacing s' = gridSpacing s ∧ scale s' = scale s).
  pose (P := fun s' r => onGrid s (baseX (store s' r)) ∧ onGrid s (baseY (store s' r))).
  assert (I (forEachCard F l s) ∧ P (forEachCard F l s) r) as [[Hg Hs] [Hx Hy]].
  { split.
    - apply (forEachCard_inv F I); [|done]. by intros s1 r1 [? ?].
    - apply (forEachCard_post F I P); [by intros s1 r1 [? ?]| | |done|done].
      + intros s1 r1 [Hg Hs]. unfold P. rewrite store_update.
        case_decide; [|done]. simpl.
        destruct (HG s1 r1 (store s1 r1)) as [Hx Hy].
        split; apply (onGrid_same s1 s); done.
      + intros s1 r1 r2 _ Hp Hne. unfold P in *. rewrite store_update. by case_decide. }
  split; apply (onGrid_same s); done.
Qed.

Lemma zoom_accepted delta s :
  (1 # 2) <= scale s * delta -> scale s * delta <= 2 ->
  zoom delta s =
    preventOverlapsAfterZoom
      (forEachCard (fun _ _ c =>
         with_geometry c (baseX c * delta) (baseY c * delta)
           (baseWidth c * delta) (baseHeight c * delta))
         (cards (set_scale (scale s * delta) s)) (set_scale (scale s * delta) s)).
Proof.
  intros Hlo Hhi. unfold zoom.
  apply Num_geb_ge in Hlo. apply Num_leb_le in Hhi. by rewrite Hlo, Hhi.
Qed.

Lemma zoom_rejected delta s :
  ¬ ((1 # 2) <= scale s * delta ∧ scale s * delta <= 2) -> zoom delta s = s.
Proof.
  intros Hout. unfold zoom.
  destruct (Num.geb (scale s * delta) (1 # 2)) eqn:Hlo; [|done].
  destruct (Num.leb (scale s * delta) 2) eqn:Hhi; [|done].
  apply Num_geb_ge in Hlo. apply Num_leb_le in Hhi. tauto.
Qed.

(** What an accepted zoom does to the state and to each card. *)
Lemma zoom_cards delta s :
  (1 # 2) <= scale s * delta -> scale s * delta <= 2 ->
  let s' := zoom delta s in
  scale s' = scale s * delta ∧ gridSpacing s' = gridSpacing s
  ∧ cards s' = cards s ∧ selectedCards s' = selectedCards s
  ∧ connectors s' = connectors s ∧ connectingFrom s' = connectingFrom s
  ∧ (forall r, r ∈ cards s ->
       onGrid s' (baseX (store s' r)) ∧ onGrid s' (baseY (store s' r)))
  ∧ (NoDup (cards s) -> forall r, r ∈ cards s ->
       baseWidth (store s' r) = baseWidth (store s r) * delta
       ∧ baseHeight (store s' r) = baseHeight (store s r) * delta
       ∧ id (store s' r) = id (store s r)
       ∧ title (store s' r) = title (store s r)
       ∧ inputValue (store s' r) = inputValue (store s r))
  ∧ (forall r, r ∉ cards s -> store s' r = store s r).
Proof.
  intros Hlo Hhi. cbv zeta. rewrite zoom_accepted by done.
  set (s1 := set_scale (scale s * delta) s).
  set (scaled := fun c => with_geometry c (baseX c * delta) (baseY c * delta)
                    (baseWidth c * delta) (baseHeight c * delta)).
  set (s2 := forEachCard (fun _ _ => scaled) (cards s1) s1).
  pose proof (forEachCard_fields (fun _ _ => scaled) (cards s1) s1) as H2.
  cbv zeta in H2. fold s2 in H2.
  destruct H2 as (Hs2 & Hg2 & Hc2 & Hsel2 & Hcon2 & Hcf2 & _).
  unfold preventOverlapsAfterZoom.
  set (G := fun s r c => preventOverlap s r (baseX c) (baseY c)).
  change (forEachCard _ (cards s2) s2) with
    (forEachCard (fun s r c => with_pos c (fst (G s r c)) (snd (G s r c))) (cards s2) s2).
  set (s3 := forEachCard _ (cards s2) s2).
  pose proof (forEachCard_fields
    (fun s r c => with_pos c (fst (G s r c)) (snd (G s r c))) (cards s2) s2) as H3.
  cbv zeta in H3. fold s3 in H3.
  destruct H3 as (Hs3 & Hg3 & Hc3 & Hsel3 & Hcon3 & Hcf3 & _).
  split_and!.
  - by rewrite Hs3, Hs2.
  - by rewrite Hg3, Hg2.
  - by rewrite Hc3, Hc2.
  - by rewrite Hsel3, Hsel2.
  - by rewrite Hcon3, Hcon2.
  - by rewrite Hcf3, Hcf2.
  - intros r Hr. apply (forEachCard_snapped G); [|by rewrite Hc2].
    intros s0 r0 c0. apply preventOverlap_onGrid.
  - intros Hnd r Hr. unfold s3.
    destruct (forEachCard_with_pos G (cards s2) s2 r) as (-> & -> & -> & -> & ->).
    unfold s2. rewrite forEachCard_const by done. done.
  - intros r Hr. unfold s3. rewrite forEachCard_other by (by rewrite Hc2).
    unfold s2. by rewrite forEachCard_other.
Qed.

(** What a drag commit does: the selected cards are snapped. *)
Lemma drag_onMouseUp_cards s :
  let s' := drag_onMouseUp s in
  scale s' = scale s ∧ gridSpacing s' = gridSpacing s
  ∧ (forall r, r ∈ selectedCards s ->
       onGrid s' (baseX (store s' r)) ∧ onGrid s' (baseY (store s' r)))
  ∧ (forall r, baseWidth (store s' r) = baseWidth (store s r)
       ∧ baseHeight (store s' r) = baseHeight (store s r))
  ∧ (forall r, r ∉ selectedCards s -> store s' r = store s r).
Proof.
  cbv zeta. unfold drag_onMouseUp.
  set (G := fun (s : State) (r : ref) c => (snapToGrid s (baseX c), snapToGrid s (baseY c))).
  change (forEachCard _ (selectedCards s) s) with
    (forEachCard (fun s r c => with_pos c (fst (G s r c)) (snd (G s r c)))
       (selectedCards s) s).
  pose proof (forEachCard_fields
    (fun s r c => with_pos c (fst (G s r c)) (snd (G s r c))) (selectedCards s) s) as H.
  cbv zeta in H. destruct H as (Hs & Hg & _).
  split_and!.
  - exact Hs.
  - exact Hg.
  - intros r Hr.
    destruct (forEachCard_snapped G (selectedCards s) s r) as [Hx Hy]; [|done|].
    { intros s0 r0 c0. split; apply snapToGrid_onGrid. }
    set (s1 := forEachCard _ (selectedCards s) s) in *.
    split; apply (onGrid_same s1); done.
  - intros r. unfold set_listeners. cbn [store].
    by destruct (forEachCard_with_pos G (selectedCards s) s r) as (-> & -> & _).
  - intros r Hr. unfold set_listeners. cbn [store]. by rewrite forEachCard_other.
Qed.
End Geometry.

Section Resize.
Local Open Scope Q_scope.
Implicit Types (s : State) (st : ResizeStart) (e : MouseEvent).

(** The clamp of a resize is at least the minimum in screen pixels. *)
Lemma clamp_scaled (m sc w : Q) : 0 < sc -> m <= Qmax (m / sc) w * sc.
Proof.
  intros Hsc. assert (m / sc * sc == m) as Hm by (field; lra).
  rewrite <- Hm at 1. apply Qmult_le_compat_r; [apply Q.le_max_l | lra].
Qed.

(** The snap of a value that is at least [m]. *)
Lemma snapToGrid_at_least s (m v : Q) :
  0 < gridSpacing s * scale s -> m <= v ->
  m - (1 # 2) * (gridSpacing s * scale s) < snapToGrid s v
  ∧ (onGrid s m -> m <= snapToGrid s v).
Proof.
  intros Hu Hv. split.
  - destruct (snapToGrid_bounds s v Hu) as [Hlo _]. lra.
  - intros Hm. rewrite <- (snapToGrid_fixed s m Hu Hm). by apply snapToGrid_mono.
Qed.

Lemma resizedWidth_scaled s w :
  0 < scale s ->
  resizedWidth s w * scale s == snapToGrid s (Qmax (100 / scale s) w * scale s).
Proof. intros Hs. unfold resizedWidth. field. lra. Qed.

Lemma resizedHeight_scaled s h :
  0 < scale s ->
  resizedHeight s h * scale s == snapToGrid s (Qmax (50 / scale s) h * scale s).
Proof. intros Hs. unfold resizedHeight. field. lra. Qed.

Lemma resizedWidth_spec s w :
  0 < scale s -> 0 < gridSpacing s ->
  onGrid s (resizedWidth s w * scale s)
  ∧ 100 - (1 # 2) * (gridSpacing s * scale s) < resizedWidth s w * scale s
  ∧ (onGrid s 100 -> 100 <= resizedWidth s w * scale s).
Proof.
  intros Hs Hg. assert (0 < gridSpacing s * scale s) as Hu by nra.
  pose proof (resizedWidth_scaled s w Hs) as Hw.
  destruct (snapToGrid_at_least s 100 _ Hu (clamp_scaled 100 (scale s) w Hs)) as [Hlo Hmin].
  split_and!.
  - apply (onGrid_proper s _ _ (Qeq_sym _ _ Hw)), snapToGrid_onGrid.
  - by rewrite Hw.
  - intros H100. rewrite Hw. by apply Hmin.
Qed.

Lemma resizedHeight_spec s h :
  0 < scale s -> 0 < gridSpacing s ->
  onGrid s (resizedHeight s h * scale s)
  ∧ 50 - (1 # 2) * (gridSpacing s * scale s) < resizedHeight s h * scale s
  ∧ (onGrid s 50 -> 50 <= resizedHeight s h * scale s).
Proof.
  intros Hs Hg. assert (0 < gridSpacing s * scale s) as Hu by nra.
  pose proof (resizedHeight_scaled s h Hs) as Hh.
  destruct (snapToGrid_at_least s 50 _ Hu (clamp_scaled 50 (scale s) h Hs)) as [Hlo Hmin].
  split_and!.
  - apply (onGrid_proper s _ _ (Qeq_sym _ _ Hh)), snapToGrid_onGrid.
  - by rewrite Hh.
  - intros H50. rewrite Hh. by apply Hmin.
Qed.

(** The card a resize move-sample writes, and the state around it. *)
Lemma resize_onMouseMove_card st e s :
  let s' := resize_onMouseMove st e s in
  let deltaX := (clientX e - rs_startX st) / scale s in
  let deltaY := (clientY e - rs_startY st) / scale s in
  let g := resizeGeometry s st deltaX deltaY in
  baseWidth (store s' (rs_card st)) = fst (fst (fst g))
  ∧ baseHeight (store s' (rs_card st)) = snd (fst (fst g))
  ∧ scale s' = scale s ∧ gridSpacing s' = gridSpacing s
  ∧ (forall r, r ≠ rs_card st -> store s' r = store s r).
Proof.
  cbv zeta. unfold resize_onMouseMove.
  destruct (resizeGeometry s st _ _) as [[[w h] x] y].
  split_and!; try reflexivity.
  - rewrite store_update. by case_decide.
  - rewrite store_update. by case_decide.
  - intros r Hr. rewrite store_update. by case_decide.
Qed.

(** The width and height a resize move-sample leaves on the card. *)
Lemma resize_onMouseMove_size st e s :
  0 < scale s -> 0 < gridSpacing s ->
  let s' := resize_onMouseMove st e s in
  let c' := store s' (rs_card st) in
  (if resizesWidth (rs_direction st) then
     onGrid s (baseWidth c' * scale s)
     ∧ 100 - (1 # 2) * (gridSpacing s * scale s) < baseWidth c' * scale s
     ∧ (onGrid s 100 -> 100 <= baseWidth c' * scale s)
   else baseWidth c' = initialWidth st)
  ∧ (if resizesHeight (rs_direction st) then
       onGrid s (baseHeight c' * scale s)
       ∧ 50 - (1 # 2) * (gridSpacing s * scale s) < baseHeight c' * scale s
       ∧ (onGrid s 50 -> 50 <= baseHeight c' * scale s)
     else baseHeight c' = initialHeight st).
Proof.
  intros Hs Hg. cbv zeta.
  destruct (resize_onMouseMove_card st e s) as (Hw & Hh & _).
  rewrite Hw, Hh. unfold resizeGeometry.
  destruct (rs_direction st); cbn [resizesWidth resizesHeight fst snd];
    (split;
     lazymatch goal with
     | |- _ = _ => exact eq_refl
     | |- onGrid _ (resizedWidth _ _ * _) ∧ _ => by apply resizedWidth_spec
     | |- onGrid _ (resizedHeight _ _ * _) ∧ _ => by apply resizedHeight_spec
     end).
Qed.
End Resize.

(** ** Minimum size, grid alignment and zoom *)

Section Claims.
Local Open Scope Q_scope.
Implicit Types (s : State) (r : ref) (st : ResizeStart) (e : MouseEvent).

Lemma addNewCard_card ox oy s :
  let s' := addNewCard ox oy s in
  cards s' = cards s ++ [nextRef s]
  ∧ baseWidth (store s' (nextRef s)) = 200
  ∧ baseHeight (store s' (nextRef s)) = 100
  ∧ (forall r, r ≠ nextRef s -> store s' r = store s r).
Proof.
  cbv zeta. unfold addNewCard, alloc. cbn -[snapToGrid pretty].
  split_and!; try done.
  - by case_decide.
  - by case_decide.
  - intros r Hr. by case_decide.
Qed.

(** The clamp of a resize does not survive the snap that follows it:
    once the grid step gridSpacing x scale is more than twice the
    minimum, a dimension clamped to the minimum is snapped to zero. *)
Lemma resized_to_zero s (v : Q) :
  0 < scale s ->
  (200 < gridSpacing s * scale s -> v <= 100 / scale s -> resizedWidth s v == 0)
  ∧ (100 < gridSpacing s * scale s -> v <= 50 / scale s -> resizedHeight s v == 0).
Proof.
  intros Hs.
  assert (forall m : Q, 0 < m -> 2 * m < gridSpacing s * scale s -> v <= m / scale s ->
            snapToGrid s (Qmax (m / scale s) v * scale s) / scale s == 0) as Hzero.
  { intros m Hm Hstep Hv.
    assert (Qmax (m / scale s) v * scale s == m) as Hclamp.
    { rewrite (Q.max_l _ _ Hv). field. lra. }
    rewrite (snapToGrid_proper s _ _ Hclamp).
    assert (0 < gridSpacing s * scale s) as Hu by lra.
    assert (snapToGrid s m == 0) as ->; [|field; lra].
    unfold snapToGrid. set (u := gridSpacing s * scale s) in *.
    assert (Num.round (m / u) == 0) as ->; [|ring].
    unfold Num.round.
    assert (0 <= m / u) as H0 by (apply Qle_shift_div_l; lra).
    assert (m / u < 1 # 2) as H1 by (apply Qlt_shift_div_r; lra).
    set (q := m / u) in *. clearbody q.
    assert (Qfloor (q + (1 # 2)) = 0%Z) as ->; [|reflexivity].
    pose proof (Qfloor_le (q + (1 # 2))) as Hle.
    pose proof (Qlt_floor (q + (1 # 2))) as Hlt.
    rewrite inject_Z_plus in Hlt. change (inject_Z 1) with 1 in Hlt.
    set (z := Qfloor (q + (1 # 2))) in *. clearbody z.
    assert (inject_Z z < 1) as Hup by lra.
    assert (-1 < inject_Z z) as Hdown by lra.
    unfold Qlt in Hup, Hdown. simpl in Hup, Hdown. lia. }
  split; intros Hstep Hv; [apply (Hzero 100) | apply (Hzero 50)]; lra.
Qed.

(** C3 fails in the code.  [handleResize] clamps a dimension to its
    minimum and then snaps it, and the snap undoes the clamp.  From the
    started component, [setGridSpacing(110)] leaves card1 at (110, 110),
    220 x 110; pressing on its bottom edge at (220, 220) and moving the
    pointer up to (220, 120) clamps the new height to 50 and snaps it to
    [Math.round(50 / 110) * 110 = 0]: card1 is left with height 0, below
    the minimum of 50 the clamp is there for. *)
Theorem resize_snap_defeats_minimum :
  let s0 := setGridSpacing 110 Scenario.started in
  let down := Scenario.pointer 220 220 false false in
  let move := Scenario.pointer 220 120 false false in
  let s := documentMouseMove move (onCardMouseDown down 1%nat s0) in
  baseHeight (store s0 1%nat) == 110
  ∧ getResizeDirection s0 1%nat down = Some Bottom
  ∧ Qmax (50 / scale s0) (baseHeight (store s0 1%nat) + (120 - 220) / scale s0) == 50
  ∧ 1%nat ∈ cards s
  ∧ baseHeight (store s 1%nat) == 0
  ∧ ¬ (50 <= baseHeight (store s 1%nat)).
Proof.
  cbv zeta. split_and!.
  - vm_compute. reflexivity.
  - vm_compute. reflexivity.
  - vm_compute. reflexivity.
  - vm_compute. apply list_elem_of_here.
  - vm_compute. reflexivity.
  - intros H. vm_compute in H. by apply H.
Qed.

(** The other operations have no clamp at all: from the started
    component, [setGridSpacing(140)] then [setGridSpacing(95)] leaves
    card1 95 wide. *)
Lemma minimum_size_counterexample :
  let s := setGridSpacing 95 (setGridSpacing 140 Scenario.started) in
  1%nat ∈ cards s
  ∧ baseWidth (store s 1%nat) == 95
  ∧ ¬ (100 <= baseWidth (store s 1%nat)).
Proof.
  cbv zeta. split_and!.
  - vm_compute. apply list_elem_of_here.
  - vm_compute. reflexivity.
  - intros H. vm_compute in H. by apply H.
Qed.

(** C4, as the code has it.  A drag commit leaves the x and y of every
    selected card, and an accepted zoom the x and y of every card, exact
    multiples of gridSpacing x scale; a zoom keeps a width or height
    that was such a multiple one; a resize move-sample leaves a
    dimension it changes, times scale, such a multiple. *)
Theorem grid_alignment_of_positions s :
  0 < scale s -> 0 < gridSpacing s ->
  (forall r, r ∈ selectedCards s ->
     let s' := drag_onMouseUp s in
     onGrid s' (baseX (store s' r)) ∧ onGrid s' (baseY (store s' r)))
  ∧ (forall delta r,
       (1 # 2) <= scale s * delta -> scale s * delta <= 2 -> r ∈ cards s ->
       let s' := zoom delta s in
       onGrid s' (baseX (store s' r)) ∧ onGrid s' (baseY (store s' r))
       ∧ (NoDup (cards s) ->
          (onGrid s (baseWidth (store s r)) -> onGrid s' (baseWidth (store s' r)))
          ∧ (onGrid s (baseHeight (store s r)) -> onGrid s' (baseHeight (store s' r)))))
  ∧ (forall st e,
       let s' := resize_onMouseMove st e s in
       let c' := store s' (rs_card st) in
       (resizesWidth (rs_direction st) = true -> onGrid s' (baseWidth c' * scale s'))
       ∧ (resizesHeight (rs_direction st) = true -> onGrid s' (baseHeight c' * scale s'))).
Proof.
  intros Hs Hg. split_and!.
  - intros r Hr. cbv zeta.
    destruct (drag_onMouseUp_cards s) as (_ & _ & H & _). by apply H.
  - intros delta r Hlo Hhi Hr. cbv zeta.
    destruct (zoom_cards delta s Hlo Hhi) as (Hsc & Hgs & _ & _ & _ & _ & Hpos & Hdim & _).
    destruct (Hpos r Hr) as [Hx Hy]. split_and!; [done..|].
    intros Hnd. destruct (Hdim Hnd r Hr) as (Hw & Hh & _).
    rewrite Hw, Hh. unfold onGrid. rewrite Hsc, Hgs.
    split; intros [k Hk]; exists k; rewrite Hk; ring.
  - intros st e. cbv zeta.
    destruct (resize_onMouseMove_size st e s Hs Hg) as [Hw Hh].
    destruct (resize_onMouseMove_card st e s) as (_ & _ & Hsc & Hgs & _).
    split; intros Hd; rewrite Hd in *.
    + rewrite Hsc. apply (onGrid_same s); [done..|]. by destruct Hw.
    + rewrite Hsc. apply (onGrid_same s); [done..|]. by destruct Hh.
Qed.

(** The witness: card1 of the started component, selected by a
    pointer-down in its middle, is on the grid after the pointer-up. *)
Lemma grid_alignment_of_positions_witness :
  let s := onCardMouseDown (Scenario.pointer 200 150 false false) 1%nat Scenario.started in
  onGrid (drag_onMouseUp s) (baseX (store (drag_onMouseUp s) 1%nat)).
Proof.
  cbv zeta.
  set (s := onCardMouseDown (Scenario.pointer 200 150 false false) 1%nat Scenario.started).
  assert (0 < scale s) as Hs by reflexivity.
  assert (0 < gridSpacing s) as Hg by reflexivity.
  destruct (grid_alignment_of_positions s Hs Hg) as [H _].
  assert (1%nat ∈ selectedCards s) as Hsel by (vm_compute; apply list_elem_of_here).
  exact (proj1 (H 1%nat Hsel)).
Defined.

(** C4 fails for the width after a drag commit: with grid spacing 30, a
    new card is 200 wide; pressing and releasing the pointer in its
    middle snaps its position and leaves the width, which is no multiple
    of 30. *)
Lemma grid_alignment_counterexample :
  let s0 := addNewCard (Some 100) (Some 100) (setGridSpacing 30 initial) in
  let s := documentMouseUp (onCardMouseDown (Scenario.pointer 150 150 false false) 1%nat s0) in
  listeners (onCardMouseDown (Scenario.pointer 150 150 false false) 1%nat s0) ≠ []
  ∧ 1%nat ∈ cards s
  ∧ gridSpacing s * scale s == 30
  ∧ baseWidth (store s 1%nat) == 200
  ∧ ¬ onGrid s (baseWidth (store s 1%nat)).
Proof.
  cbv zeta. split_and!.
  - vm_compute. discriminate.
  - vm_compute. apply list_elem_of_here.
  - vm_compute. reflexivity.
  - vm_compute. reflexivity.
  - intros [k Hk]. revert Hk.
    match goal with |- ?a == _ * ?u -> _ =>
      assert (a == 200) as -> by (vm_compute; reflexivity);
      assert (u == 30) as -> by (vm_compute; reflexivity)
    end.
    unfold Qeq. simpl. lia.
Qed.
End Claims.

Section Zoom.
Local Open Scope Q_scope.
Implicit Types (s : State) (r : ref).





End Zoom.

(** ** Resolving an exact overlap *)

Section Overlap.
Local Open Scope Q_scope.
Implicit Types (s : State) (moving other : ref).

Lemma resolveStep_skip s moving x y adjusted other :
  other = moving ∨ other ∈ selectedCards s ->
  resolveStep s moving x y adjusted other = adjusted.
Proof.
  intros H. unfold resolveStep.
  destruct H as [->|H].
  - by rewrite bool_decide_eq_true_2.
  - apply includes_true in H. rewrite H. by rewrite orb_true_r.
Qed.

Lemma Num_eqb_neq a b : Num.eqb a b = false <-> ¬ a == b.
Proof. rewrite <- not_true_iff_false. by rewrite Num_eqb_eq. Qed.

Lemma Qmin_cases (a b : Q) : (a <= b ∧ Qmin a b == a) ∨ (b <= a ∧ Qmin a b == b).
Proof.
  destruct (Q.min_spec a b) as [[H1 H2]|[H1 H2]]; [left|right]; split; auto.
  by apply Qlt_le_weak.
Qed.

(** Rounding depends on the value of a number only. *)
Lemma double_proper v v' : v == v' -> Num.double v = Num.double v'.
Proof. intros H. unfold Num.double. by rewrite (Qred_complete _ _ H). Qed.

Lemma fadd_proper a a' b b' : a == a' -> b == b' -> Num.fadd a b = Num.fadd a' b'.
Proof.
  intros Ha Hb. unfold Num.fadd. by rewrite (double_proper a a' Ha), (double_proper b b' Hb).
Qed.

Lemma fmul_proper a a' b b' : a == a' -> b == b' -> Num.fmul a b = Num.fmul a' b'.
Proof.
  intros Ha Hb. unfold Num.fmul. by rewrite (double_proper a a' Ha), (double_proper b b' Hb).
Qed.

(** When the two rectangles coincide, the source computes [dxRight] by
    the same operations on the same numbers as [dxLeft], and [dyBottom]
    as [dyTop]: they are equal whatever the rounding. *)
Lemma displacements_same s m o :
  sameRectangle m o ->
  displacements s m (baseX m) (baseY m) o
  = (Num.fsub (Num.fmul (Num.fadd (baseX m) (baseWidth m)) (scale s))
       (Num.fmul (baseX m) (scale s)),
     Num.fsub (Num.fmul (Num.fadd (baseX m) (baseWidth m)) (scale s))
       (Num.fmul (baseX m) (scale s)),
     Num.fsub (Num.fmul (Num.fadd (baseY m) (baseHeight m)) (scale s))
       (Num.fmul (baseY m) (scale s)),
     Num.fsub (Num.fmul (Num.fadd (baseY m) (baseHeight m)) (scale s))
       (Num.fmul (baseY m) (scale s))).
Proof.
  intros (Hx & Hy & Hw & Hh). unfold displacements. cbv zeta.
  rewrite <- (fadd_proper _ _ _ _ Hx Hw), <- (fadd_proper _ _ _ _ Hy Hh).
  rewrite <- (fmul_proper (baseX m) (baseX o) (scale s) (scale s) Hx (Qeq_refl _)).
  rewrite <- (fmul_proper (baseY m) (baseY o) (scale s) (scale s) Hy (Qeq_refl _)).
  reflexivity.
Qed.

(** The equality chain on two pairs of equal displacements [a, a, c, c]:
    the first test succeeds when [a <= c], the third one otherwise. *)
Lemma min4_pairs (a c : Q) :
  (a <= c -> Num.eqb (Num.min4 a a c c) a = true)
  ∧ (c < a -> Num.eqb (Num.min4 a a c c) a = false
              ∧ Num.eqb (Num.min4 a a c c) c = true).
Proof.
  assert (Num.min4 a a c c == Qmin a c) as Hmin.
  { unfold Num.min4.
    destruct (Qmin_cases a a) as [[? E1]|[? E1]];
    destruct (Qmin_cases (Qmin a a) c) as [[? E2]|[? E2]];
    destruct (Qmin_cases (Qmin (Qmin a a) c) c) as [[? E3]|[? E3]];
    destruct (Qmin_cases a c) as [[? E4]|[? E4]]; lra. }
  split.
  - intros Hle. apply Num_eqb_eq. rewrite Hmin.
    destruct (Qmin_cases a c) as [[? E]|[? E]]; lra.
  - intros Hlt. rewrite Num_eqb_neq, Num_eqb_eq, Hmin.
    destruct (Qmin_cases a c) as [[? E]|[? E]]; split; lra.
Qed.

(** The loop body on the card that coincides with the moving one: it is
    pushed to the right of the other card when the horizontal
    displacement the source computes is at most the vertical one, and
    below it otherwise. *)
Lemma resolveStep_exact s moving other adjusted :
  0 < scale s ->
  moving ≠ other -> other ∉ selectedCards s ->
  sameRectangle (store s moving) (store s other) ->
  0 < baseWidth (store s moving) -> 0 < baseHeight (store s moving) ->
  let m := store s moving in
  let o := store s other in
  let next := resolveStep s moving (baseX m) (baseY m) adjusted other in
  (absDxLeft s m (baseX m) (baseY m) o <= absDyTop s m (baseX m) (baseY m) o ->
     next = ((baseX o + baseWidth o) * scale s / scale s + gridSpacing s * scale s,
             snd adjusted))
  ∧ (absDyTop s m (baseX m) (baseY m) o < absDxLeft s m (baseX m) (baseY m) o ->
     next = (fst adjusted,
             (baseY o + baseHeight o) * scale s / scale s + gridSpacing s * scale s)).
Proof.
  intros Hs Hne Hsel Hsame HW HH. cbv zeta.
  unfold resolveStep, absDxLeft, absDyTop.
  rewrite (bool_decide_eq_false_2 (other = moving)) by congruence.
  apply includes_false in Hsel. rewrite Hsel. cbn [orb].
  rewrite (displacements_same s _ _ Hsame).
  destruct Hsame as (Hx & Hy & Hw & Hh).
  set (m := store s moving) in *. set (o := store s other) in *.
  assert (Num.ltb (baseX m * scale s) ((baseX o + baseWidth o) * scale s)
          && Num.gtb ((baseX m + baseWidth m) * scale s) (baseX o * scale s)
          && Num.ltb (baseY m * scale s) ((baseY o + baseHeight o) * scale s)
          && Num.gtb ((baseY m + baseHeight m) * scale s) (baseY o * scale s) = true)
    as ->.
  { rewrite !andb_true_iff, !Num_ltb_lt, !Num_gtb_gt.
    rewrite <- Hx, <- Hy, <- Hw, <- Hh. split_and!; nra. }
  set (a := Qabs (Num.fsub _ (Num.fmul (baseX m) (scale s)))).
  set (c := Qabs (Num.fsub _ (Num.fmul (baseY m) (scale s)))).
  destruct (min4_pairs a c) as [Hright Hdown]. split.
  - intros Hle. by rewrite (Hright Hle).
  - intros Hlt. destruct (Hdown Hlt) as [-> ->]. reflexivity.
Qed.

(** The clearance the snap leaves beyond an edge at [edge], after one
    grid step was added. *)
Lemma snapped_clearance s (edge v : Q) :
  0 < gridSpacing s * scale s ->
  v == edge + gridSpacing s * scale s ->
  let clearance := snapToGrid s v - edge in
  (1 # 2) * (gridSpacing s * scale s) < clearance
  ∧ clearance <= (3 # 2) * (gridSpacing s * scale s)
  ∧ (onGrid s edge -> clearance == gridSpacing s * scale s).
Proof.
  intros Hu Hv. cbv zeta.
  destruct (snapToGrid_bounds s v Hu) as [Hlo Hhi].
  split_and!; [lra | lra |].
  intros Hedge.
  rewrite (snapToGrid_fixed s v Hu).
  - lra.
  - apply (onGrid_proper s (edge + gridSpacing s * scale s)); [by rewrite Hv|].
    apply onGrid_plus; [exact Hedge | apply onGrid_step].
Qed.
(** The loop body changes nothing for a card the moving one does not
    overlap. *)
Lemma resolveStep_free s moving x y adjusted other :
  ¬ overlapsAt s (store s moving) x y (store s other) ->
  resolveStep s moving x y adjusted other = adjusted.
Proof.
  intros Hfree. unfold resolveStep.
  destruct (bool_decide (other = moving) || includes (selectedCards s) other); [done|].
  match goal with |- (if ?b then _ else _) = _ => destruct b eqn:Hov end; [|done].
  exfalso. apply Hfree. unfold overlapsAt.
  rewrite !andb_true_iff, !Num_ltb_lt, !Num_gtb_gt in Hov. tauto.
Qed.

(** X10.  Where no unselected card overlaps the proposed rectangle,
    [preventOverlap] only snaps the proposed position. *)
Lemma preventOverlap_free s moving x y :
  (forall other, other ∈ cards s -> other ≠ moving -> other ∉ selectedCards s ->
     ¬ overlapsAt s (store s moving) x y (store s other)) ->
  preventOverlap s moving x y = (snapToGrid s x, snapToGrid s y).
Proof.
  intros Hfree. unfold preventOverlap.
  assert (forall l adjusted, (forall other, other ∈ l -> other ∈ cards s) ->
            fold_left (resolveStep s moving x y) l adjusted = adjusted) as Hfold.
  { induction l as [|other l IH]; intros adjusted Hl; [done|].
    cbn [fold_left].
    assert (resolveStep s moving x y adjusted other = adjusted) as ->.
    { destruct (decide (other = moving)) as [->|Hne];
        [apply resolveStep_skip; by left|].
      destruct (decide (other ∈ selectedCards s)) as [Hsel|Hsel];
        [apply resolveStep_skip; by right|].
      apply resolveStep_free, Hfree; [apply Hl; by left | done..]. }
    apply IH. intros o Ho. apply Hl. by right. }
  by rewrite Hfold.
Qed.

(** C2, as the code has it.  Two cards in the store with the same
    rectangle, the other one not selected: [preventOverlap] for one of
    them at its current position returns a position on the grid at which
    it does not overlap the other.  The card is moved on one axis only:
    to the right of the other card when [Math.abs(dxLeft)] as the source
    computes it is at most [Math.abs(dyTop)], and below it otherwise
    (the two are width x scale and height x scale up to rounding, so for
    a square card the rounding decides).  On that axis it goes to the
    snap of the other card's far edge plus gridSpacing x scale: the
    clearance beyond that edge is more than half and at most one and a
    half grid steps, and exactly one grid step when the edge is on the
    grid; on the other axis it goes to the snap of where it was. *)
Theorem preventOverlap_exact_overlap s moving other :
  0 < scale s -> 0 < gridSpacing s ->
  cards s = [moving; other] ∨ cards s = [other; moving] ->
  moving ≠ other -> other ∉ selectedCards s ->
  sameRectangle (store s moving) (store s other) ->
  0 < baseWidth (store s moving) -> 0 < baseHeight (store s moving) ->
  let m := store s moving in
  let o := store s other in
  let p := preventOverlap s moving (baseX m) (baseY m) in
  onGrid s (fst p) ∧ onGrid s (snd p)
  ∧ ¬ overlapsAt s m (fst p) (snd p) o
  ∧ (absDxLeft s m (baseX m) (baseY m) o <= absDyTop s m (baseX m) (baseY m) o ->
     let clearance := fst p - (baseX o + baseWidth o) in
     snd p = snapToGrid s (baseY m)
     ∧ (1 # 2) * (gridSpacing s * scale s) < clearance
     ∧ clearance <= (3 # 2) * (gridSpacing s * scale s)
     ∧ (onGrid s (baseX o + baseWidth o) -> clearance == gridSpacing s * scale s))
  ∧ (absDyTop s m (baseX m) (baseY m) o < absDxLeft s m (baseX m) (baseY m) o ->
     let clearance := snd p - (baseY o + baseHeight o) in
     fst p = snapToGrid s (baseX m)
     ∧ (1 # 2) * (gridSpacing s * scale s) < clearance
     ∧ clearance <= (3 # 2) * (gridSpacing s * scale s)
     ∧ (onGrid s (baseY o + baseHeight o) -> clearance == gridSpacing s * scale s)).
Proof.
  intros Hs Hg Hcards Hne Hsel Hsame HW HH. cbv zeta.
  assert (0 < gridSpacing s * scale s) as Hu by nra.
  set (m := store s moving). set (o := store s other).
  destruct (resolveStep_exact s moving other (baseX m, baseY m) Hs Hne Hsel Hsame HW HH)
    as [Hright Hdown].
  fold m o in Hright, Hdown. cbn [fst snd] in Hright, Hdown.
  assert (fold_left (resolveStep s moving (baseX m) (baseY m)) (cards s) (baseX m, baseY m)
          = resolveStep s moving (baseX m) (baseY m) (baseX m, baseY m) other) as Hfold.
  { destruct Hcards as [-> | ->]; cbn [fold_left].
    - by rewrite (resolveStep_skip s moving _ _ _ moving) by (by left).
    - by rewrite (resolveStep_skip s moving _ _ _ moving) by (by left). }
  assert ((baseX o + baseWidth o) * scale s / scale s + gridSpacing s * scale s
          == baseX o + baseWidth o + gridSpacing s * scale s) as Ex by (field; lra).
  assert ((baseY o + baseHeight o) * scale s / scale s + gridSpacing s * scale s
          == baseY o + baseHeight o + gridSpacing s * scale s) as Ey by (field; lra).
  split_and!.
  - apply preventOverlap_onGrid.
  - apply preventOverlap_onGrid.
  - unfold preventOverlap, overlapsAt. rewrite Hfold. fold m o.
    destruct (Qlt_le_dec (absDyTop s m (baseX m) (baseY m) o)
                (absDxLeft s m (baseX m) (baseY m) o)) as [Hlt|Hle].
    + rewrite (Hdown Hlt). cbn [fst snd].
      destruct (snapped_clearance s (baseY o + baseHeight o) _ Hu Ey) as (Hc & _).
      cbv zeta in Hc. intros (_ & _ & Hy & _). nra.
    + rewrite (Hright Hle). cbn [fst snd].
      destruct (snapped_clearance s (baseX o + baseWidth o) _ Hu Ex) as (Hc & _).
      cbv zeta in Hc. intros (Hx & _). nra.
  - intros Hle. unfold preventOverlap. rewrite Hfold. fold m o.
    rewrite (Hright Hle). cbn [fst snd]. split; [reflexivity|].
    apply (snapped_clearance s (baseX o + baseWidth o) _ Hu Ex).
  - intros Hlt. unfold preventOverlap. rewrite Hfold. fold m o.
    rewrite (Hdown Hlt). cbn [fst snd]. split; [reflexivity|].
    apply (snapped_clearance s (baseY o + baseHeight o) _ Hu Ey).
Qed.

(** The witness: two cards added at (100, 100) on the default grid of
    50; card1 is moved down by its height and one grid step. *)
Lemma preventOverlap_exact_overlap_witness :
  let s := addNewCard (Some 100) (Some 100) (addNewCard (Some 100) (Some 100) initial) in
  snd (preventOverlap s 1%nat (baseX (store s 1%nat)) (baseY (store s 1%nat)))
  - (baseY (store s 2%nat) + baseHeight (store s 2%nat))
  == gridSpacing s * scale s.
Proof.
  cbv zeta.
  set (s := addNewCard (Some 100) (Some 100) (addNewCard (Some 100) (Some 100) initial)).
  assert (0 < scale s) as Hs by reflexivity.
  assert (0 < gridSpacing s) as Hg by reflexivity.
  assert (cards s = [1%nat; 2%nat] ∨ cards s = [2%nat; 1%nat]) as Hcards
    by (left; reflexivity).
  assert (1%nat ≠ 2%nat) as Hne by discriminate.
  assert (2%nat ∉ selectedCards s) as Hsel by apply not_elem_of_nil.
  assert (sameRectangle (store s 1%nat) (store s 2%nat)) as Hsame
    by (vm_compute; repeat split).
  assert (0 < baseWidth (store s 1%nat)) as HW by reflexivity.
  assert (0 < baseHeight (store s 1%nat)) as HH by reflexivity.
  destruct (preventOverlap_exact_overlap s 1%nat 2%nat Hs Hg Hcards Hne Hsel Hsame HW HH)
    as (_ & _ & _ & _ & Hdown).
  assert (absDyTop s (store s 1%nat) (baseX (store s 1%nat)) (baseY (store s 1%nat))
            (store s 2%nat)
          < absDxLeft s (store s 1%nat) (baseX (store s 1%nat)) (baseY (store s 1%nat))
              (store s 2%nat)) as Hlt by (vm_compute; reflexivity).
  destruct (Hdown Hlt) as (_ & _ & _ & Hexact).
  apply Hexact. exists 4%Z. vm_compute. reflexivity.
Defined.

(** C2 fails for the clearance when the touching edge is off the grid:
    with grid spacing 30, two new cards at (100, 100) are stored at
    (90, 90), 200 x 100; [preventOverlap] for card1 returns (90, 210), 20
    below the bottom edge of card2 at 190, and on neither axis one full
    grid step of 30 beyond the far edge. *)
Lemma preventOverlap_clearance_counterexample :
  let s := addNewCard (Some 100) (Some 100)
             (addNewCard (Some 100) (Some 100) (setGridSpacing 30 initial)) in
  let m := store s 1%nat in
  let o := store s 2%nat in
  let p := preventOverlap s 1%nat (baseX m) (baseY m) in
  cards s = [1%nat; 2%nat] ∧ selectedCards s = []
  ∧ sameRectangle m o
  ∧ gridSpacing s * scale s == 30
  ∧ fst p == 90 ∧ snd p == 210
  ∧ baseX o + baseWidth o == 290 ∧ baseY o + baseHeight o == 190
  ∧ ¬ (fst p - (baseX o + baseWidth o) == gridSpacing s * scale s)
  ∧ ¬ (snd p - (baseY o + baseHeight o) == gridSpacing s * scale s).
Proof.
  cbv zeta. split_and!; try (vm_compute; reflexivity).
  - vm_compute. repeat split.
  - intros H. vm_compute in H. discriminate.
  - intros H. vm_compute in H. discriminate.
Qed.
(** For a square card the direction is decided by rounding.  At scale
    1.1 two coinciding cards of side 220 at (440, 220) give
    [dxLeft = 242.00000000000006] and [dyTop = 242.00000000000003]: the
    card is moved down; at (220, 440) the two numbers are exchanged and
    it is moved right. *)
Lemma preventOverlap_square_rounding :
  let square x y := mkCard "" "" "" x y 220 220 in
  let s x y :=
    mkState (11 # 10) 2 [1%nat; 2%nat] [] None [] [] 200 (fun _ => square x y) 3%nat
      [] in
  absDyTop (s 440 220) (square 440 220) 440 220 (square 440 220)
  < absDxLeft (s 440 220) (square 440 220) 440 220 (square 440 220)
  ∧ fst (preventOverlap (s 440 220) 1%nat 440 220) == 440
  ∧ snd (preventOverlap (s 440 220) 1%nat 440 220) == 660
  ∧ absDxLeft (s 220 440) (square 220 440) 220 440 (square 220 440)
    < absDyTop (s 220 440) (square 220 440) 220 440 (square 220 440)
  ∧ fst (preventOverlap (s 220 440) 1%nat 220 440) == 660
  ∧ snd (preventOverlap (s 220 440) 1%nat 220 440) == 440.
Proof. cbv zeta. split_and!; vm_compute; reflexivity. Qed.
End Overlap.

(** ** Copy and paste *)

Section CopyPaste.
Implicit Types (s : State) (r : ref).

(** C1 at the example of the specification.  Card1 and card2 are joined
    by one connector and both selected.  Copy then paste adds two cards,
    card3 and card4, and two connectors from card3 to card4 where the
    specification has one: the connector is recorded in the clipboard entry of
    each of its endpoints and rebuilt once per entry.  Copying and
    pasting the two pasted cards, which are selected and joined, adds
    two more cards and no connector: the endpoint ids card3 and card4
    are looked up as the titles Card 3 and Card 4, and the pasted cards
    carry the titles Card 1 and Card 2. *)
Theorem copy_paste_example :
  let s := Scenario.bothSelected in
  let s' := pasteCards (copyCards s) in
  let s'' := pasteCards (copyCards s') in
  selectedCards s = [1; 2]
  ∧ connectors s = [mkConnector 1 2]
  ∧ cards s' = [1; 2; 3; 4]
  ∧ connectors s' = [mkConnector 1 2; mkConnector 3 4; mkConnector 3 4]
  ∧ selectedCards s' = [3; 4]
  ∧ cards s'' = [1; 2; 3; 4; 5; 6]
  ∧ connectors s'' = connectors s'.
Proof. cbv zeta. split_and!; vm_compute; reflexivity. Qed.

(** A paste under zoom: at scale 1.1 card1 is selected, copied and
    pasted.  [preventOverlapsAfterPaste] divides every position by the
    scale before [preventOverlap] and multiplies the snapped result by
    it, so the two older cards move, off the grid of 55. *)
Lemma paste_under_zoom_moves_cards :
  let s := Scenario.click 220 165 false false 1 (zoom (11 # 10) Scenario.started) in
  let s' := pasteCards (copyCards s) in
  selectedCards s = [1]
  ∧ Scenario.geometry s
    = [("card1", "Card 1", 110, 110, 220, 110); ("card2", "Card 2", 440, 220, 220, 110)]%Q
  ∧ Scenario.geometry s'
    = [("card1", "Card 1", 121, 121, 220, 110);
       ("card2", "Card 2", 847 # 2, 242, 220, 110);
       ("card3", "Card 1", 121, -121 # 2, 220, 110)]%Q.
Proof. cbv zeta. split_and!; vm_compute; reflexivity. Qed.

(** C7 after that paste.  The pair card3, card4 is joined by two
    connectors; the first connect-toggle removes one of them, the second
    removes the other, so two toggles in succession leave the pair
    disconnected where it was connected. *)
Theorem connectToggle_twice_after_paste :
  let s := Scenario.pasted in
  let s' := Scenario.connectToggle 3 4 (Scenario.connectToggle 3 4 s) in
  connectingFrom s = None
  ∧ connectors s = [mkConnector 1 2; mkConnector 3 4; mkConnector 3 4]
  ∧ connectors (Scenario.connectToggle 3 4 s) = [mkConnector 1 2; mkConnector 3 4]
  ∧ connectors s' = [mkConnector 1 2]
  ∧ findIndex 3 4 (connectors s) = Some 1
  ∧ findIndex 3 4 (connectors s') = None.
Proof. cbv zeta. split_and!; vm_compute; reflexivity. Qed.

(** C9 after that paste.  Card1 and card4 are selected; card4 is the
    pasted copy of card2 and carries its title.  Card1 is joined to
    card2, which is not copied, and to no selected card.  Copy then
    paste creates card5 and card6 and a connector between them: the
    recorded endpoint id card2 resolves, as the title Card 2, to the
    copy of card4. *)
Theorem paste_rewires_uncopied_endpoint :
  let s :=
    Scenario.click 500 400 false true 4 (Scenario.click 200 150 false false 1 Scenario.pasted) in
  let s' := pasteCards (copyCards s) in
  selectedCards s = [1; 4]
  ∧ connectors s = [mkConnector 1 2; mkConnector 3 4; mkConnector 3 4]
  ∧ id (store s 2) = "card2" ∧ title (store s 4) = "Card 2"
  ∧ map connections (clipboard (copyCards s))
    = [[mkConnection "card1" "card2"];
       [mkConnection "card3" "card4"; mkConnection "card3" "card4"]]
  ∧ cards s' = [1; 2; 3; 4; 5; 6]
  ∧ connectors s' = connectors s ++ [mkConnector 5 6].
Proof. cbv zeta. split_and!; vm_compute; reflexivity. Qed.
End CopyPaste.

(** ** The connect-toggle on a list with one connector per pair *)

Section Toggle.
Implicit Types (s : State) (a b : ref) (l : list Connector) (c : Connector).

Lemma connectToggle_connectors a b s :
  a ≠ b -> connectingFrom s = None ->
  connectors (Scenario.connectToggle a b s) =
    match findIndex a b (connectors s) with
    | Some i => delete i (connectors s)
    | None => connectors s ++ [mkConnector a b]
    end
  ∧ connectingFrom (Scenario.connectToggle a b s) = None.
Proof.
  intros Hne Hcf. unfold Scenario.connectToggle, onCardClick. cbn [altKey targetIsInput
    Scenario.pointer andb negb]. rewrite Hcf. cbn [connectingFrom set_connectingFrom].
  rewrite bool_decide_eq_false_2 by done. cbn [connectors set_connectingFrom].
  by destruct (findIndex a b (connectors s)).
Qed.

Lemma joins_sym a b c : joins a b c <-> joins b a c.
Proof. unfold joins. tauto. Qed.

(** Two connectors that join the same pair join the same pairs. *)
Lemma joins_same a b c c' x y : joins a b c -> joins a b c' -> joins x y c -> joins x y c'.
Proof.
  unfold joins. destruct c as [f t], c' as [f' t']. simpl.
  intros [[-> ->]|[-> ->]] [[-> ->]|[-> ->]] [[-> ->]|[-> ->]]; auto.
Qed.

Lemma delete_last l c : delete (length l) (l ++ [c]) = l.
Proof. induction l as [|c' l IH]; [done|]. simpl. by rewrite IH. Qed.

(** With at most one connector between [a] and [b], removing the one
    [findIndex] found leaves none. *)
Lemma delete_found_none a b l i c :
  length (filter (joins a b) l) ≤ 1 ->
  list_find (joins a b) l = Some (i, c) ->
  list_find (joins a b) (delete i l) = None.
Proof.
  revert i. induction l as [|c' l IH]; intros i Hone Hfind; [done|].
  apply list_find_Some in Hfind as (Hi & Hc & Hleast).
  destruct i as [|i].
  - simpl in Hi. injection Hi as ->. change (delete 0 (c :: l)) with l.
    rewrite filter_cons_True in Hone by done. simpl in Hone.
    apply list_find_None, Forall_forall. intros c' Hin Hj.
    assert (c' ∈ filter (joins a b) l) as Hf by (by apply list_elem_of_filter).
    destruct (filter (joins a b) l); [by apply elem_of_nil in Hf | simpl in Hone; lia].
  - simpl in Hi.
    assert (¬ joins a b c') as Hc' by (apply (Hleast 0 c'); [done | lia]).
    rewrite filter_cons_False in Hone by done.
    change (delete (S i) (c' :: l)) with (c' :: delete i l).
    apply list_find_None, Forall_cons. split; [done|].
    apply (list_find_None (joins a b)), (IH i Hone).
    apply list_find_Some. split_and!; [done..|].
    intros j y Hj Hlt. apply (Hleast (S j) y); [done | lia].
Qed.

(** X9.  Two connect-toggles of the same pair in succession, on a list with
    at most one connector between the two cards: an unconnected pair
    gets the very list back; a connected pair gets its connector back at
    the end of the list, from the first card clicked to the second.  In
    both cases exactly the pairs that were joined are joined. *)
Lemma toggle_twice_joined a b s :
  a ≠ b -> connectingFrom s = None ->
  length (filter (joins a b) (connectors s)) ≤ 1 ->
  let s' := Scenario.connectToggle a b (Scenario.connectToggle a b s) in
  connectingFrom s' = None
  ∧ (findIndex a b (connectors s) = None -> connectors s' = connectors s)
  ∧ (forall i, findIndex a b (connectors s) = Some i ->
       connectors s' = delete i (connectors s) ++ [mkConnector a b])
  ∧ (forall x y, (exists c, c ∈ connectors s' ∧ joins x y c)
                 <-> (exists c, c ∈ connectors s ∧ joins x y c)).
Proof.
  intros Hne Hcf Hone. cbv zeta.
  destruct (connectToggle_connectors a b s Hne Hcf) as [H1 Hcf1].
  destruct (connectToggle_connectors a b _ Hne Hcf1) as [H2 Hcf2].
  assert (joins a b (mkConnector a b)) as Hab by (left; done).
  assert (findIndex a b (connectors s) = None -> 
          connectors (Scenario.connectToggle a b (Scenario.connectToggle a b s))
          = connectors s) as Hnone.
  { intros Hfind. rewrite H2, H1, Hfind. unfold findIndex in *.
    apply fmap_None in Hfind.
    rewrite (list_find_app_r _ _ _ Hfind). simpl.
    rewrite decide_True by done. simpl. apply delete_last. }
  assert (forall i, findIndex a b (connectors s) = Some i ->
          connectors (Scenario.connectToggle a b (Scenario.connectToggle a b s))
          = delete i (connectors s) ++ [mkConnector a b]) as Hsome.
  { intros i Hfind. rewrite H2, H1, Hfind. unfold findIndex in *.
    apply fmap_Some in Hfind as ([i' c] & Hfind & ->). simpl.
    by rewrite (delete_found_none a b _ _ _ Hone Hfind). }
  split_and!; [done..|].
  intros x y. destruct (findIndex a b (connectors s)) as [i|] eqn:Hfind.
  - rewrite (Hsome i eq_refl). unfold findIndex in Hfind.
    apply fmap_Some in Hfind as ([i' c] & Hfind & Hi). simpl in Hi. subst i'.
    apply list_find_Some in Hfind as (Hi & Hc & _).
    pose proof (delete_Permutation _ _ _ Hi) as Hperm.
    split.
    + intros (c' & Hin & Hj). apply elem_of_app in Hin as [Hin|Hin].
      * exists c'. split; [|done]. by apply list_elem_of_delete_inv in Hin.
      * apply list_elem_of_singleton in Hin as ->. exists c. split.
        { by apply list_elem_of_lookup_2 in Hi. }
        by apply (joins_same a b (mkConnector a b)).
    + intros (c' & Hin & Hj). rewrite Hperm in Hin.
      apply elem_of_cons in Hin as [->|Hin].
      * exists (mkConnector a b). split; [apply elem_of_app; right; by left|].
        by apply (joins_same a b c).
      * exists c'. split; [|done]. apply elem_of_app. by left.
  - by rewrite (Hnone eq_refl).
Qed.
End Toggle.

(** ** What a paste creates, for every state *)

Section Paste.
Implicit Types (s : State) (r : ref) (m : gmap string ref) (item : ClipboardItem).

Lemma selectCard_fields r s :
  let s' := selectCard r s in
  cards s' = cards s ∧ connectors s' = connectors s ∧ store s' = store s
  ∧ nextRef s' = nextRef s ∧ cardCount s' = cardCount s
  ∧ clipboard s' = clipboard s ∧ scale s' = scale s.
Proof.
  cbv zeta. unfold selectCard. case_bool_decide; [|done].
  by destruct (negb (includes (selectedCards s) r)).
Qed.

(** One turn of the first loop of [pasteCards]. *)
Lemma pasteItem_spec offX offY m s item :
  let acc := pasteItem offX offY (m, s) item in
  acc.1 = <[clip_title item := nextRef s]> m
  ∧ cards acc.2 = cards s ++ [nextRef s]
  ∧ nextRef acc.2 = S (nextRef s)
  ∧ cardCount acc.2 = S (cardCount s)
  ∧ connectors acc.2 = connectors s
  ∧ clipboard acc.2 = clipboard s
  ∧ scale acc.2 = scale s
  ∧ id (store acc.2 (nextRef s)) = "card" +:+ pretty (S (cardCount s))
  ∧ (forall r, r ≠ nextRef s -> store acc.2 r = store s r).
Proof.
  cbv zeta. unfold pasteItem, alloc. cbn [fst snd].
  match goal with |- context [selectCard ?r ?s0] =>
    destruct (selectCard_fields r s0) as (-> & -> & -> & -> & -> & -> & ->)
  end.
  cbn -[pretty String.append]. split_and!; try done.
  - by case_decide.
  - intros r Hr. by case_decide.
Qed.

(** The first loop of [pasteCards]: one new card object per clipboard
    item, appended in order and numbered from the counter, and a map
    whose new values are those cards. *)
Lemma pasteItems_spec offX offY (items : list ClipboardItem) m s :
  let acc := fold_left (pasteItem offX offY) items (m, s) in
  cards acc.2 = cards s ++ seq (nextRef s) (length items)
  ∧ nextRef acc.2 = nextRef s + length items
  ∧ cardCount acc.2 = cardCount s + length items
  ∧ connectors acc.2 = connectors s
  ∧ clipboard acc.2 = clipboard s
  ∧ scale acc.2 = scale s
  ∧ (forall k v, acc.1 !! k = Some v ->
       m !! k = Some v ∨ (nextRef s ≤ v ∧ v < nextRef s + length items))
  ∧ (forall i, i < length items ->
       id (store acc.2 (nextRef s + i)) = "card" +:+ pretty (cardCount s + 1 + i))
  ∧ (forall r, r < nextRef s -> store acc.2 r = store s r).
Proof.
  revert m s. induction items as [|item items IH]; intros m s; cbv zeta.
  - simpl. rewrite app_nil_r, !Nat.add_0_r. split_and!; try done.
    + auto.
    + intros i Hi. lia.
  - cbn [fold_left length].
    destruct (pasteItem_spec offX offY m s item)
      as (Hm & Hc & Hn & Hcc & Hcon & Hclip & Hsc & Hid & Hst).
    destruct (pasteItem offX offY (m, s) item) as [m1 s1]. cbn [fst snd] in *.
    destruct (IH m1 s1) as (Hc' & Hn' & Hcc' & Hcon' & Hclip' & Hsc' & Hm' & Hid' & Hst').
    split_and!.
    + rewrite Hc', Hc, Hn, <- app_assoc. done.
    + rewrite Hn', Hn. lia.
    + rewrite Hcc', Hcc. lia.
    + by rewrite Hcon', Hcon.
    + by rewrite Hclip', Hclip.
    + by rewrite Hsc', Hsc.
    + intros k v Hk. destruct (Hm' k v Hk) as [Hk1|Hk1].
      * rewrite Hm in Hk1. destruct (decide (clip_title item = k)) as [Heq|Hne].
        { subst k. rewrite lookup_insert_eq in Hk1. injection Hk1 as <-. right. lia. }
        { rewrite lookup_insert_ne in Hk1 by done. by left. }
      * right. rewrite Hn in Hk1. lia.
    + intros [|i] Hi.
      * rewrite Nat.add_0_r, Hst' by (rewrite Hn; lia).
        rewrite Hid. by rewrite Nat.add_0_r, Nat.add_1_r.
      * replace (nextRef s + S i) with (nextRef s1 + i) by (rewrite Hn; lia).
        rewrite Hid' by lia. rewrite Hcc. f_equal. f_equal. lia.
    + intros r Hr. rewrite Hst' by (rewrite Hn; lia). apply Hst. lia.
Qed.

Lemma pasteConnections_spec m (conns : list Connection) s :
  let s' := fold_left (pasteConnection m) conns s in
  (exists new, connectors s' = connectors s ++ new ∧ Forall (fromMap m) new)
  ∧ cards s' = cards s ∧ store s' = store s ∧ nextRef s' = nextRef s
  ∧ cardCount s' = cardCount s ∧ scale s' = scale s.
Proof.
  revert s. induction conns as [|conn conns IH]; intros s; cbv zeta.
  - simpl. split_and!; try done. exists []. by rewrite app_nil_r.
  - cbn [fold_left].
    destruct (IH (pasteConnection m s conn)) as ((new & Hnew & Hall) & -> & -> & -> & -> & ->).
    rewrite Hnew. unfold pasteConnection.
    destruct (m !! replace "card" "Card " (fromId conn)) as [fromCard|] eqn:Hf;
      [destruct (m !! replace "card" "Card " (toId conn)) as [toCard|] eqn:Ht|];
      [case_bool_decide| |]; cbn [connectors cards store nextRef cardCount scale set_connectors];
      (split_and!; try done).
    + exists (mkConnector fromCard toCard :: new). rewrite <- app_assoc. split; [done|].
      apply Forall_cons. split; [|done]. unfold fromMap. cbn [from to]. eauto.
    + by exists new.
    + by exists new.
    + by exists new.
Qed.

Lemma pasteAllConnections_spec m (items : list ClipboardItem) s :
  let s' :=
    fold_left (fun s item => fold_left (pasteConnection m) (connections item) s) items s in
  (exists new, connectors s' = connectors s ++ new ∧ Forall (fromMap m) new)
  ∧ cards s' = cards s ∧ store s' = store s ∧ nextRef s' = nextRef s
  ∧ cardCount s' = cardCount s ∧ scale s' = scale s.
Proof.
  revert s. induction items as [|item items IH]; intros s; cbv zeta.
  - simpl. split_and!; try done. exists []. by rewrite app_nil_r.
  - cbn [fold_left].
    destruct (pasteConnections_spec m (connections item) s)
      as ((new1 & Hnew1 & Hall1) & Hc1 & Hst1 & Hn1 & Hcc1 & Hsc1).
    destruct (IH (fold_left (pasteConnection m) (connections item) s))
      as ((new & Hnew & Hall) & -> & -> & -> & -> & ->).
    split_and!; try done.
    exists (new1 ++ new). rewrite Hnew, Hnew1, <- app_assoc. split; [done|].
    by apply Forall_app.
Qed.
(** [pasteCards] up to the overlap resolution, which moves cards only. *)
Lemma pasteCards_unfold s :
  clipboard s ≠ [] ->
  exists m s1 s2,
    fold_left (pasteItem (20 / scale s)%Q (20 / scale s)%Q) (clipboard s)
      (∅, clearSelection s) = (m, s1)
    ∧ s2 = fold_left (fun s item => fold_left (pasteConnection m) (connections item) s)
             (clipboard s1) s1
    ∧ pasteCards s = preventOverlapsAfterPaste s2.
Proof.
  intros Hclip. unfold pasteCards.
  rewrite bool_decide_eq_false_2 by (by destruct (clipboard s)).
  change (clipboard (clearSelection s)) with (clipboard s).
  destruct (fold_left _ (clipboard s) (∅, clearSelection s)) as [m s1].
  by exists m, s1, (fold_left (fun s item =>
    fold_left (pasteConnection m) (connections item) s) (clipboard s1) s1).
Qed.

(** A paste creates one card per clipboard item: the new card objects
    are appended to [cards] in order, take the next ids of the counter,
    and every older card object keeps its id, title, text, width and
    height (its position goes through the overlap resolution). *)
Lemma paste_adds_cards s :
  clipboard s ≠ [] ->
  let s' := pasteCards s in
  let n := length (clipboard s) in
  cards s' = cards s ++ seq (nextRef s) n
  ∧ cardCount s' = cardCount s + n
  ∧ (forall i, i < n ->
       id (store s' (nextRef s + i)) = "card" +:+ pretty (cardCount s + 1 + i))
  ∧ (forall r, r < nextRef s ->
       id (store s' r) = id (store s r) ∧ title (store s' r) = title (store s r)
       ∧ inputValue (store s' r) = inputValue (store s r)
       ∧ baseWidth (store s' r) = baseWidth (store s r)
       ∧ baseHeight (store s' r) = baseHeight (store s r)).
Proof.
  intros Hclip. cbv zeta.
  destruct (pasteCards_unfold s Hclip) as (m & s1 & s2 & Hfold & -> & ->).
  pose proof (pasteItems_spec (20 / scale s)%Q (20 / scale s)%Q (clipboard s) ∅
                (clearSelection s)) as H1.
  cbv zeta in H1. rewrite Hfold in H1. cbn [fst snd] in H1.
  destruct H1 as (Hc & Hn & Hcc & Hcon & Hcl & Hsc & Hm & Hid & Hst).
  destruct (pasteAllConnections_spec m (clipboard s1) s1)
    as (_ & Hc2 & Hst2 & Hn2 & Hcc2 & _).
  set (s2 := fold_left _ (clipboard s1) s1) in *.
  unfold preventOverlapsAfterPaste.
  set (G := fun (s : State) (r : ref) (c : Card) =>
              let p := preventOverlap s r (baseX c / scale s)%Q (baseY c / scale s)%Q in
              ((p.1 * scale s)%Q, (p.2 * scale s)%Q)).
  change (forEachCard _ (cards s2) s2) with
    (forEachCard (fun s r c => with_pos c (fst (G s r c)) (snd (G s r c))) (cards s2) s2).
  pose proof (forEachCard_fields
                (fun s r c => with_pos c (fst (G s r c)) (snd (G s r c))) (cards s2) s2)
    as H3.
  pose proof (forEachCard_with_pos G (cards s2) s2) as H4.
  cbv zeta in H3, H4.
  set (s3 := forEachCard _ (cards s2) s2) in *.
  destruct H3 as (_ & _ & Hc3 & _ & _ & _ & _ & Hcc3 & _).
  rewrite Hc3, Hcc3, Hc2, Hcc2, Hc, Hcc. split_and!; try done.
  - intros i Hi. destruct (H4 (nextRef s + i)) as (_ & _ & -> & _).
    rewrite Hst2. by apply Hid.
  - intros r Hr. destruct (H4 r) as (-> & -> & -> & -> & ->).
    rewrite Hst2, Hst by done. done.
Qed.

(** The connectors after a paste are the old ones, in place, followed
    by connectors that join two different cards created by that paste. *)
Lemma paste_connectors s :
  let s' := pasteCards s in
  let n := length (clipboard s) in
  exists new,
    connectors s' = connectors s ++ new
    ∧ Forall (fun c => (nextRef s ≤ from c ∧ from c < nextRef s + n)
                       ∧ (nextRef s ≤ to c ∧ to c < nextRef s + n)
                       ∧ from c ≠ to c) new.
Proof.
  cbv zeta. destruct (decide (clipboard s = [])) as [Hnil|Hclip].
  - exists []. unfold pasteCards. rewrite Hnil. simpl. by rewrite app_nil_r.
  - destruct (pasteCards_unfold s Hclip) as (m & s1 & s2 & Hfold & -> & ->).
    pose proof (pasteItems_spec (20 / scale s)%Q (20 / scale s)%Q (clipboard s) ∅
                  (clearSelection s)) as H1.
    cbv zeta in H1. rewrite Hfold in H1. cbn [fst snd] in H1.
    destruct H1 as (_ & _ & _ & Hcon & _ & _ & Hm & _).
    destruct (pasteAllConnections_spec m (clipboard s1) s1) as ((new & Hnew & Hall) & _).
    set (s2 := fold_left _ (clipboard s1) s1) in *.
    unfold preventOverlapsAfterPaste.
    match goal with |- context [forEachCard ?F (cards s2) s2] =>
      destruct (forEachCard_fields F (cards s2) s2) as (_ & _ & _ & _ & -> & _)
    end.
    exists new. rewrite Hnew, Hcon. split; [done|].
    eapply Forall_impl; [exact Hall|].
    intros c ((k1 & Hk1) & (k2 & Hk2) & Hne).
    destruct (Hm _ _ Hk1) as [Hk|Hk]; [by rewrite lookup_empty in Hk|].
    destruct (Hm _ _ Hk2) as [Hk'|Hk']; [by rewrite lookup_empty in Hk'|].
    change (nextRef (clearSelection s)) with (nextRef s) in *. done.
Qed.

(** X14.  A paste keeps the connectors there were and appends its own;
    when the references in [cards] are allocated ones, every connector
    it creates joins two of the new cards, and none ends at a card that
    was there before. *)
Lemma paste_joins_new_cards_only s :
  (forall r, r ∈ cards s -> r < nextRef s) ->
  exists new,
    connectors (pasteCards s) = connectors s ++ new
    ∧ Forall (fun c => (from c ∉ cards s) ∧ (to c ∉ cards s)
                       ∧ from c ∈ cards (pasteCards s) ∧ to c ∈ cards (pasteCards s)) new.
Proof.
  intros Hwf. destruct (paste_connectors s) as (new & Hnew & Hall).
  exists new. split; [done|].
  destruct new as [|c0 new0]; [done|].
  assert (clipboard s ≠ []) as Hclip.
  { intros Hnil. unfold pasteCards in Hnew. rewrite Hnil in Hnew. simpl in Hnew.
    rewrite <- (app_nil_r (connectors s)) in Hnew at 1.
    by apply app_inv_head in Hnew. }
  destruct (paste_adds_cards s Hclip) as (Hc & _).
  eapply Forall_impl; [exact Hall|].
  intros c ((Hf1 & Hf2) & (Ht1 & Ht2) & _). rewrite Hc. split_and!.
  - intros Hin. apply Hwf in Hin. lia.
  - intros Hin. apply Hwf in Hin. lia.
  - apply elem_of_app. right. apply elem_of_seq. lia.
  - apply elem_of_app. right. apply elem_of_seq. lia.
Qed.

(** [copyCards] puts one item per selected card on the clipboard. *)
Lemma copyCards_length s :
  selectedCards s ≠ [] -> length (clipboard (copyCards s)) = length (selectedCards s).
Proof.
  intros Hsel. unfold copyCards.
  rewrite bool_decide_eq_false_2 by (by destruct (selectedCards s)).
  cbn [clipboard set_clipboard]. apply length_map.
Qed.
End Paste.

(** ** Further properties of the grid, the zoom and the card store *)

Section GridMore.
Local Open Scope Q_scope.
Implicit Types (s : State) (r : ref) (v : Q).

(** X1.  [snapToGrid] returns the multiple of gridSpacing x scale nearest to
    its argument: a multiple, at most half a step away, the upper one
    when the argument is half-way. *)
Theorem snapToGrid_nearest_multiple s v :
  0 < gridSpacing s * scale s ->
  onGrid s (snapToGrid s v)
  ∧ v - (1 # 2) * (gridSpacing s * scale s) < snapToGrid s v
  ∧ snapToGrid s v <= v + (1 # 2) * (gridSpacing s * scale s).
Proof.
  intros Hu. split; [apply snapToGrid_onGrid | by apply snapToGrid_bounds].
Qed.

Lemma snapToGrid_nearest_multiple_witness :
  onGrid Scenario.started (snapToGrid Scenario.started 103)
  ∧ snapToGrid Scenario.started 103 == 100.
Proof.
  assert (0 < gridSpacing Scenario.started * scale Scenario.started) as Hu by reflexivity.
  split; [exact (proj1 (snapToGrid_nearest_multiple Scenario.started 103 Hu))|].
  vm_compute. reflexivity.
Defined.

(** X2.  Snapping is idempotent and monotone. *)
Theorem snapToGrid_idempotent_monotone s :
  0 < gridSpacing s * scale s ->
  (forall v, snapToGrid s (snapToGrid s v) == snapToGrid s v)
  ∧ (forall a b, a <= b -> snapToGrid s a <= snapToGrid s b).
Proof.
  intros Hu. split.
  - intros v. apply snapToGrid_fixed; [exact Hu | apply snapToGrid_onGrid].
  - intros a b. by apply snapToGrid_mono.
Qed.

Lemma snapToGrid_idempotent_monotone_witness :
  snapToGrid Scenario.started (snapToGrid Scenario.started 97)
  == snapToGrid Scenario.started 97.
Proof.
  assert (0 < gridSpacing Scenario.started * scale Scenario.started) as Hu by reflexivity.
  exact (proj1 (snapToGrid_idempotent_monotone Scenario.started Hu) 97).
Defined.

(** X3.  [setGridSpacing] clamps the spacing to [10, 200], keeps a spacing
    that is within, and leaves the x, y, width and height of every card
    of the list on the new grid; nothing but the geometry of the cards
    and the spacing changes. *)
Theorem setGridSpacing_clamps_and_aligns size s :
  let s' := setGridSpacing size s in
  (10 <= gridSpacing s' ∧ gridSpacing s' <= 200)
  ∧ (10 <= size -> size <= 200 -> gridSpacing s' == size)
  ∧ scale s' = scale s
  ∧ geometryOnly s s'
  ∧ (forall r, r ∈ cards s ->
       onGrid s' (baseX (store s' r)) ∧ onGrid s' (baseY (store s' r))
       ∧ onGrid s' (baseWidth (store s' r)) ∧ onGrid s' (baseHeight (store s' r))).
Proof.
  cbv zeta. unfold setGridSpacing, adjustCardsAfterGridChange.
  set (s1 := set_gridSpacing (Qmax 10 (Qmin 200 size)) s).
  set (F := fun (s : State) (card : ref) c =>
              with_geometry c (snapToGrid s (baseX c)) (snapToGrid s (baseY c))
                (snapToGrid s (baseWidth c)) (snapToGrid s (baseHeight c))).
  change (cards s1) with (cards s).
  pose proof (forEachCard_fields F (cards s) s1) as Hf. cbv zeta in Hf.
  destruct Hf as (Hsc & Hgs & Hc & Hsel & Hcon & Hcf & Hclip & Hcc & Hn & _).
  assert (gridSpacing (forEachCard F (cards s) s1) = Qmax 10 (Qmin 200 size)) as Hg
    by (by rewrite Hgs).
  split_and!.
  - rewrite Hg. apply Q.le_max_l.
  - rewrite Hg. apply Q.max_lub; [discriminate | apply Q.le_min_l].
  - intros Hlo Hhi. rewrite Hg.
    rewrite (Q.min_r 200 size Hhi). by apply Q.max_r.
  - by rewrite Hsc.
  - unfold geometryOnly. split_and!; try done.
    intros r.
    apply (forEachCard_inv F
             (fun s' => id (store s' r) = id (store s r)
                        ∧ title (store s' r) = title (store s r)
                        ∧ inputValue (store s' r) = inputValue (store s r)));
      [|done].
    intros s0 r0 H0. rewrite store_update. by case_decide.
  - intros r Hr.
    pose (I := fun s' => gridSpacing s' = gridSpacing s1 ∧ scale s' = scale s1).
    pose (P := fun s' r =>
      onGrid s1 (baseX (store s' r)) ∧ onGrid s1 (baseY (store s' r))
      ∧ onGrid s1 (baseWidth (store s' r)) ∧ onGrid s1 (baseHeight (store s' r))).
    assert (P (forEachCard F (cards s) s1) r) as (Hx & Hy & Hw & Hh).
    { apply (forEachCard_post F I P); [by intros s0 r0 [? ?]| | |done|done].
      - intros s0 r0 [Hg0 Hs0]. unfold P. rewrite store_update.
        case_decide; [|done]. unfold F. cbn [baseX baseY baseWidth baseHeight with_geometry].
        split_and!; apply (onGrid_same s0 s1); try done; apply snapToGrid_onGrid.
      - intros s0 r0 r1 _ Hp Hne. unfold P in *. rewrite store_update. by case_decide. }
    split_and!; apply (onGrid_same s1); done.
Qed.

(** X4.  [zoom] and the wheel keep the scale within [0.5, 2]. *)
Theorem zoom_keeps_scale_in_bounds s :
  (1 # 2) <= scale s -> scale s <= 2 ->
  (forall delta, (1 # 2) <= scale (zoom delta s) ∧ scale (zoom delta s) <= 2)
  ∧ (forall event, (1 # 2) <= scale (onWheel event s) ∧ scale (onWheel event s) <= 2).
Proof.
  intros Hlo Hhi.
  assert (forall delta, (1 # 2) <= scale (zoom delta s) ∧ scale (zoom delta s) <= 2) as Hz.
  { intros delta.
    destruct (Qlt_le_dec (scale s * delta) (1 # 2)) as [H1|H1].
    { rewrite zoom_rejected; [done|]. intros [? ?]. lra. }
    destruct (Qlt_le_dec 2 (scale s * delta)) as [H2|H2].
    { rewrite zoom_rejected; [done|]. intros [? ?]. lra. }
    destruct (zoom_cards delta s H1 H2) as (-> & _). done. }
  split; [exact Hz|].
  intros event. unfold onWheel. destruct (wheel_ctrlKey event); [apply Hz | done].
Qed.

Lemma zoom_keeps_scale_in_bounds_witness :
  scale (zoom 4 Scenario.started) <= 2.
Proof.
  assert ((1 # 2) <= scale Scenario.started) as Hlo by discriminate.
  assert (scale Scenario.started <= 2) as Hhi by discriminate.
  exact (proj2 (proj1 (zoom_keeps_scale_in_bounds Scenario.started Hlo Hhi) 4)).
Defined.

(** [addNewCard] appends one new card object, 200 x 100, at the snapped
    position, with the id and the title of the incremented counter and
    an empty text; an omitted coordinate is 100 / scale plus 50 / scale
    per card already counted.  Nothing else changes. *)
Lemma addNewCard_appends x y s :
  let s' := addNewCard x y s in
  let c := store s' (nextRef s) in
  cards s' = cards s ++ [nextRef s]
  ∧ cardCount s' = S (cardCount s) ∧ nextRef s' = S (nextRef s)
  ∧ id c = "card" +:+ pretty (S (cardCount s))
  ∧ title c = "Card " +:+ pretty (S (cardCount s))
  ∧ inputValue c = ""
  ∧ baseX c = snapToGrid s (default (defaultPosition s) x)
  ∧ baseY c = snapToGrid s (default (defaultPosition s) y)
  ∧ onGrid s' (baseX c) ∧ onGrid s' (baseY c)
  ∧ baseWidth c = 200 ∧ baseHeight c = 100
  ∧ (forall r, r ≠ nextRef s -> store s' r = store s r)
  ∧ connectors s' = connectors s ∧ selectedCards s' = selectedCards s
  ∧ connectingFrom s' = connectingFrom s
  ∧ scale s' = scale s ∧ gridSpacing s' = gridSpacing s.
Proof.
  cbv zeta. unfold addNewCard, alloc. cbn -[snapToGrid pretty String.append defaultPosition].
  rewrite decide_True by done.
  cbn -[snapToGrid pretty String.append defaultPosition].
  split_and!; try reflexivity.
  - exact (snapToGrid_onGrid s _).
  - exact (snapToGrid_onGrid s _).
  - intros r Hr. by case_decide.
Qed.
End GridMore.

(** ** Further properties of the pointer handlers *)

Section PointerMore.
Local Open Scope Q_scope.
Implicit Types (s : State) (r card : ref) (e event : MouseEvent) (st : ResizeStart).

(** X5.  A resize move-sample keeps the edge opposite to the dragged one
    where the gesture found it: the right edge when the left one is
    dragged, the bottom edge when the top one is; the origin when the
    right or the bottom edge is dragged.  It writes no other card and
    neither id, title nor text. *)
Theorem resize_keeps_opposite_edge st e s :
  let s' := resize_onMouseMove st e s in
  let c' := store s' (rs_card st) in
  match rs_direction st with
  | Left | TopLeft | BottomLeft =>
      baseX c' + baseWidth c' == initialX st + initialWidth st
  | _ => baseX c' = initialX st
  end
  ∧ match rs_direction st with
    | Top | TopLeft | TopRight =>
        baseY c' + baseHeight c' == initialY st + initialHeight st
    | _ => baseY c' = initialY st
    end
  ∧ (forall r, r ≠ rs_card st -> store s' r = store s r)
  ∧ geometryOnly s s'.
Proof.
  cbv zeta. unfold resize_onMouseMove.
  destruct (resizeGeometry s st _ _) as [[[w h] x] y] eqn:Hgeo.
  unfold resizeGeometry in Hgeo.
  split_and!.
  - rewrite store_update, decide_True by done. cbn [baseX baseWidth with_geometry].
    destruct (rs_direction st); injection Hgeo as <- <- <- <-; first [reflexivity | ring].
  - rewrite store_update, decide_True by done. cbn [baseY baseHeight with_geometry].
    destruct (rs_direction st); injection Hgeo as <- <- <- <-; first [reflexivity | ring].
  - intros r Hr. rewrite store_update. by case_decide.
  - unfold geometryOnly. split_and!; try reflexivity.
    intros r. rewrite store_update. by case_decide.
Qed.

(** X6.  [isResizingEdge] holds exactly where [getResizeDirection] finds a
    direction, so a pointer-down on the border always starts a resize:
    it registers one more pair of closures, which captured the geometry
    of the card, and the selection is not touched. *)
Theorem isResizingEdge_iff_direction s card event :
  (isResizingEdge s card event = true <-> is_Some (getResizeDirection s card event))
  ∧ (targetIsInput event = false -> altKey event = false ->
     isResizingEdge s card event = true ->
     exists direction,
       getResizeDirection s card event = Some direction
       ∧ listeners (onCardMouseDown event card s)
         = listeners s ++
           [Resizing (mkResizeStart card direction (clientX event) (clientY event)
                        (baseWidth (store s card)) (baseHeight (store s card))
                        (baseX (store s card)) (baseY (store s card)))]
       ∧ selectedCards (onCardMouseDown event card s) = selectedCards s).
Proof.
  assert (isResizingEdge s card event = true <-> is_Some (getResizeDirection s card event))
    as Hiff.
  { unfold isResizingEdge, getResizeDirection. cbv zeta.
    repeat match goal with
    | |- context [Num.geb ?a ?b && Num.leb ?c ?d] =>
        generalize (Num.geb a b && Num.leb c d); intros ?
    | |- context [Num.gtb ?a ?b && Num.ltb ?c ?d] =>
        generalize (Num.gtb a b && Num.ltb c d); intros ?
    end.
    repeat match goal with b : bool |- _ => destruct b end; cbn;
      split; first [done | intros [? ?]; discriminate | eauto]. }
  split; [exact Hiff|].
  intros Hinput Halt Hedge. apply Hiff in Hedge as Hdir. destruct Hdir as [direction Hdir].
  exists direction. split; [exact Hdir|].
  unfold onCardMouseDown, handleResize. rewrite Hinput, Halt, Hedge, Hdir. done.
Qed.

Lemma isResizingEdge_iff_direction_witness :
  exists direction,
    getResizeDirection Scenario.started 1%nat (Scenario.pointer 100 150 false false)
    = Some direction.
Proof.
  destruct (proj2 (isResizingEdge_iff_direction Scenario.started 1%nat
                     (Scenario.pointer 100 150 false false)) eq_refl eq_refl)
    as (direction & Hd & _).
  - vm_compute. reflexivity.
  - by exists direction.
Defined.

Lemma filter_all {A} (P : A -> Prop) `{!forall x, Decision (P x)} (l : list A) :
  (forall x, x ∈ l -> P x) -> filter P l = l.
Proof.
  induction l as [|x l IH]; intros Hl; [done|].
  rewrite filter_cons_True by (apply Hl; left). f_equal.
  apply IH. intros y Hy. apply Hl. by right.
Qed.

(** No [mouseup] closure writes the selection. *)
Lemma documentMouseUp_selectedCards s :
  selectedCards (documentMouseUp s) = selectedCards s.
Proof.
  unfold documentMouseUp. generalize (listeners s) at 1. intros l. revert s.
  induction l as [|listener l IH]; intros s; [reflexivity|].
  cbn [fold_left]. rewrite IH. destruct listener as [offsets|st].
  - unfold drag_onMouseUp. cbv zeta. cbn [selectedCards set_listeners].
    match goal with |- context [forEachCard ?F ?l ?s0] =>
      destruct (forEachCard_fields F l s0) as (_ & _ & _ & -> & _)
    end. reflexivity.
  - reflexivity.
Qed.

(** After a [mouseup] no pair of closures is registered. *)
Lemma documentMouseUp_listeners s : listeners (documentMouseUp s) = [].
Proof.
  unfold documentMouseUp.
  assert (forall l rest s, listeners s = l ++ rest ->
            listeners (fold_left (fun s listener =>
              match listener with
              | Dragging _ => drag_onMouseUp s
              | Resizing _ => resize_onMouseUp s
              end) l s) = rest) as Hfold.
  { induction l as [|listener l IH]; intros rest s0 H0; [exact H0|].
    cbn [fold_left]. apply IH. destruct listener as [offsets|st].
    - unfold drag_onMouseUp. cbv zeta. cbn [listeners set_listeners].
      match goal with |- context [forEachCard ?F ?l0 ?s1] =>
        destruct (forEachCard_fields F l0 s1) as (_ & _ & _ & _ & _ & _ & _ & _ & _ & ->)
      end. by rewrite H0.
    - unfold resize_onMouseUp. cbn [listeners set_listeners]. by rewrite H0. }
  apply (Hfold (listeners s) [] s). by rewrite app_nil_r.
Qed.

(** Two drags registered at once.  Card1 is pressed at (200, 150) and,
    with no release in between, card2 at (500, 250): the second press
    selects card2 alone and registers a second pair of closures.  When
    the pointer moves to (600, 350) both [onMouseMove] closures run:
    the first one moves card1, though it is no longer selected, to
    (500, 300), and the second one moves card2 to where card1 now is,
    from where [preventOverlap] pushes it down to (500, 450). *)
Lemma two_drags_registered :
  let pressed :=
    onCardMouseDown (Scenario.pointer 500 250 false false) 2%nat
      (onCardMouseDown (Scenario.pointer 200 150 false false) 1%nat Scenario.started) in
  let moved := documentMouseMove (Scenario.pointer 600 350 false false) pressed in
  length (listeners pressed) = 2%nat
  ∧ selectedCards pressed = [2%nat]
  ∧ Scenario.geometry moved
    = [("card1", "Card 1", 500, 300, 200, 100); ("card2", "Card 2", 500, 450, 200, 100)]
  ∧ listeners (documentMouseUp moved) = [].
Proof. cbv zeta. split_and!; vm_compute; reflexivity. Qed.

(** X7.  Ctrl- or Shift-click toggles membership: on a card that is not
    selected (and is not [connectingFrom]) the first pointer-down appends
    it to the selection, and after the pointer-up a second one removes
    it again, leaving the selection as it was. *)
Theorem modifier_click_toggles s card e e' :
  targetIsInput e = false -> altKey e = false -> ctrlKey e || shiftKey e = true ->
  targetIsInput e' = false -> altKey e' = false -> ctrlKey e' || shiftKey e' = true ->
  card ∉ selectedCards s -> connectingFrom s ≠ Some card ->
  isResizingEdge s card e = false ->
  let s1 := documentMouseUp (onCardMouseDown e card s) in
  isResizingEdge s1 card e' = false ->
  selectedCards (onCardMouseDown e card s) = selectedCards s ++ [card]
  ∧ selectedCards (onCardMouseDown e' card s1) = selectedCards s.
Proof.
  intros Hi Ha Hm Hi' Ha' Hm' Hsel Hcf Hedge. cbv zeta. intros Hedge'.
  assert (selectedCards (onCardMouseDown e card s) = selectedCards s ++ [card]) as H1.
  { unfold onCardMouseDown. rewrite Hi, Ha, Hm, Hedge. cbn [negb].
    rewrite (proj2 (includes_false _ _) Hsel).
    rewrite selectedCards_handleDrag_or_not, selectedCards_selectCard.
    rewrite bool_decide_eq_true_2 by done.
    by rewrite (proj2 (includes_false _ _) Hsel). }
  split; [exact H1|].
  assert (selectedCards (documentMouseUp (onCardMouseDown e card s))
          = selectedCards s ++ [card]) as H2.
  { rewrite <- H1. apply documentMouseUp_selectedCards. }
  unfold onCardMouseDown at 1. rewrite Hi', Ha', Hm', Hedge'. cbn [negb].
  rewrite H2.
  assert (includes (selectedCards s ++ [card]) card = true) as ->.
  { apply includes_true, elem_of_app. right. by left. }
  rewrite selectedCards_handleDrag_or_not. cbn [selectedCards set_selectedCards].
  rewrite filter_app, filter_all.
  - rewrite filter_cons_False by (intros H; by apply H). by rewrite app_nil_r.
  - intros x Hx ->. done.
Qed.

Lemma modifier_click_toggles_witness :
  let e := Scenario.pointer 200 150 false true in
  selectedCards
    (onCardMouseDown e 1%nat (documentMouseUp (onCardMouseDown e 1%nat Scenario.started)))
  = selectedCards Scenario.started.
Proof.
  cbv zeta.
  refine (proj2 (modifier_click_toggles Scenario.started 1%nat
                   (Scenario.pointer 200 150 false true)
                   (Scenario.pointer 200 150 false true)
                   eq_refl eq_refl eq_refl eq_refl eq_refl eq_refl _ _ _ _)).
  - apply not_elem_of_nil.
  - discriminate.
  - vm_compute. reflexivity.
  - vm_compute. reflexivity.
Defined.
End PointerMore.

(** ** Further properties of the connectors *)

Section ConnectorsMore.
Implicit Types (s : State) (a b card : ref) (l : list Connector) (c : Connector).

Lemma filter_sublist_mono {A} (P : A -> Prop) `{!forall x, Decision (P x)}
    (l1 l2 : list A) :
  l1 `sublist_of` l2 -> filter P l1 `sublist_of` filter P l2.
Proof.
  induction 1 as [|x l1 l2 _ IH|x l1 l2 _ IH]; [done| |].
  - rewrite !filter_cons. destruct (decide (P x)); [by apply sublist_skip | done].
  - rewrite filter_cons. destruct (decide (P x)); [by apply sublist_cons | done].
Qed.

Lemma onePerPair_sublist l l' : l' `sublist_of` l -> onePerPair l -> onePerPair l'.
Proof.
  intros Hsub Hone a b. specialize (Hone a b).
  pose proof (sublist_length _ _ (filter_sublist_mono (joins a b) _ _ Hsub)). lia.
Qed.

(** Two pairs joined by one connector are the same pair. *)
Lemma joins_transfer a b a' b' c c' :
  joins a b c -> joins a' b' c -> joins a b c' -> joins a' b' c'.
Proof.
  unfold joins. destruct c as [f t], c' as [f' t']. simpl.
  intros [[-> ->]|[-> ->]] [[-> ->]|[-> ->]] [[-> ->]|[-> ->]]; auto.
Qed.

(** The fields after a confirmed deletion of a non-empty selection. *)
Lemma deleteSelectedCards_confirmed s :
  selectedCards s ≠ [] ->
  let s' := deleteSelectedCards true s in
  cards s' = filter (fun card => card ∉ selectedCards s) (cards s)
  ∧ connectors s'
    = filter (fun conn => (from conn ∉ selectedCards s) ∧ (to conn ∉ selectedCards s))
        (connectors s)
  ∧ selectedCards s' = []
  ∧ connectingFrom s'
    = match connectingFrom s with
      | Some c => if includes (selectedCards s) c then None else Some c
      | None => None
      end
  ∧ store s' = store s ∧ nextRef s' = nextRef s ∧ cardCount s' = cardCount s
  ∧ scale s' = scale s ∧ gridSpacing s' = gridSpacing s ∧ clipboard s' = clipboard s.
Proof.
  intros Hsel. cbv zeta. unfold deleteSelectedCards.
  rewrite bool_decide_eq_false_2 by (by destruct (selectedCards s)).
  cbv zeta. cbn [connectingFrom selectedCards set_connectors set_cards].
  destruct (connectingFrom s) as [c|] eqn:Hc;
    [destruct (includes (selectedCards s) c) eqn:Hinc|]; cbn; rewrite ?Hc; done.
Qed.

(** X8.  The connect-toggle and the deletion keep at most one connector per
    pair of cards: a click adds a connector only between two cards that
    no connector joins, in either direction. *)
Theorem onePerPair_kept s :
  onePerPair (connectors s) ->
  (forall event card, onePerPair (connectors (onCardClick event card s)))
  ∧ (forall confirmed, onePerPair (connectors (deleteSelectedCards confirmed s))).
Proof.
  intros Hone. split.
  - intros event card. unfold onCardClick.
    destruct (altKey event && negb (targetIsInput event)); [|done].
    destruct (connectingFrom s) as [connecting|]; [|done].
    case_bool_decide; [done|].
    destruct (findIndex connecting card (connectors s)) as [i|] eqn:Hfind;
      cbn [connectors set_connectors set_connectingFrom].
    + apply (onePerPair_sublist (connectors s)); [apply sublist_delete | done].
    + intros a b. rewrite filter_app, length_app.
      unfold findIndex in Hfind. apply fmap_None in Hfind.
      apply list_find_None in Hfind.
      destruct (decide (joins a b (mkConnector connecting card))) as [Hj|Hj].
      * rewrite (filter_none (joins a b) (connectors s)).
        { rewrite filter_cons_True by done. simpl. lia. }
        intros c Hc Hjc.
        apply (proj1 (Forall_forall _ _) Hfind c Hc).
        apply (joins_transfer a b connecting card (mkConnector connecting card) c);
          [done| by left | done].
      * rewrite filter_cons_False by done. simpl. specialize (Hone a b). lia.
  - intros confirmed. unfold deleteSelectedCards.
    case_bool_decide; [done|]. destruct confirmed; [|done].
    apply (onePerPair_sublist (connectors s)); [|done].
    destruct (deleteSelectedCards_confirmed s) as (_ & Hcon & _);
      [by destruct (selectedCards s)|].
    unfold deleteSelectedCards in Hcon.
    rewrite bool_decide_eq_false_2 in Hcon by done.
    rewrite Hcon. apply sublist_filter.
Qed.

Lemma onePerPair_kept_witness :
  onePerPair (connectors (Scenario.connectToggle 1 2 Scenario.started)).
Proof.
  assert (onePerPair (connectors (onCardClick (Scenario.pointer 0 0 true false) 1
                                    Scenario.started))) as Hone.
  { intros a b. simpl. lia. }
  exact (proj1 (onePerPair_kept _ Hone) (Scenario.pointer 0 0 true false) 2).
Defined.

(** The witness of [toggle_twice_joined]: card1 and card2 of the started
    component, joined by the one connector, toggled twice. *)
Lemma toggle_twice_joined_witness :
  connectors (Scenario.connectToggle 1 2 (Scenario.connectToggle 1 2 Scenario.connected))
  = delete 0 (connectors Scenario.connected) ++ [mkConnector 1 2].
Proof.
  assert (1 ≠ 2) as Hne by discriminate.
  assert (connectingFrom Scenario.connected = None) as Hcf by reflexivity.
  assert (length (filter (joins 1 2) (connectors Scenario.connected)) ≤ 1) as Hone
    by (vm_compute; lia).
  destruct (toggle_twice_joined 1 2 Scenario.connected Hne Hcf Hone) as (_ & _ & H & _).
  apply H. reflexivity.
Defined.
End ConnectorsMore.

(** ** Further properties of the overlap resolution and the drag *)

Section DragMore.
Local Open Scope Q_scope.
Implicit Types (s : State) (r : ref).

(** The witness of [preventOverlap_free]: card1 of the started component
    does not overlap card2. *)
Lemma preventOverlap_free_witness :
  preventOverlap Scenario.started 1%nat 103 97
  = (snapToGrid Scenario.started 103, snapToGrid Scenario.started 97).
Proof.
  apply preventOverlap_free.
  intros other Hother Hne Hsel.
  change (cards Scenario.started) with [1%nat; 2%nat] in Hother.
  apply elem_of_cons in Hother as [->|Hother]; [done|].
  apply list_elem_of_singleton in Hother as ->.
  intros (_ & H & _). vm_compute in H. discriminate.
Defined.

Lemma drag_onMouseMove_cons o offsets e s :
  drag_onMouseMove (o :: offsets) e s =
    drag_onMouseMove offsets e
      (update (off_card o)
         (fun c =>
            with_pos c
              (fst (preventOverlap s (off_card o) ((clientX e - offsetX o) / scale s)
                      ((clientY e - offsetY o) / scale s)))
              (snd (preventOverlap s (off_card o) ((clientX e - offsetX o) / scale s)
                      ((clientY e - offsetY o) / scale s)))) s).
Proof. reflexivity. Qed.

Lemma drag_onMouseMove_fields offsets e s :
  let s' := drag_onMouseMove offsets e s in
  scale s' = scale s ∧ gridSpacing s' = gridSpacing s ∧ listeners s' = listeners s
  ∧ geometryOnly s s'
  ∧ (forall r, baseWidth (store s' r) = baseWidth (store s r)
       ∧ baseHeight (store s' r) = baseHeight (store s r))
  ∧ (forall r, r ∉ map off_card offsets -> store s' r = store s r).
Proof.
  revert s. induction offsets as [|o offsets IH]; intros s; cbv zeta.
  - unfold geometryOnly. done.
  - rewrite drag_onMouseMove_cons.
    match goal with |- context [drag_onMouseMove offsets e ?s0] => set (s1 := s0) end.
    destruct (IH s1) as (Hsc & Hgs & Hge & Hgeo & Hdim & Hst).
    destruct Hgeo as (Hc & Hcon & Hsel & Hcf & Hclip & Hcc & Hn & Hid).
    split_and!.
    + by rewrite Hsc.
    + by rewrite Hgs.
    + by rewrite Hge.
    + unfold geometryOnly. rewrite Hc, Hcon, Hsel, Hcf, Hclip, Hcc, Hn.
      split_and!; try reflexivity.
      intros r. destruct (Hid r) as (-> & -> & ->).
      unfold s1. rewrite store_update. by case_decide.
    + intros r. destruct (Hdim r) as (-> & ->).
      unfold s1. rewrite store_update. by case_decide.
    + intros r Hr. rewrite map_cons, not_elem_of_cons in Hr. destruct Hr as [Hne Hr].
      rewrite (Hst r Hr). unfold s1. rewrite store_update. by case_decide.
Qed.

(** X11.  A drag move-sample leaves every card of the gesture on the grid,
    with its size, id, title and text, and writes no other card; the
    card list, the connectors and the selection are untouched. *)
Theorem drag_onMouseMove_snaps offsets e s :
  let s' := drag_onMouseMove offsets e s in
  (forall r, r ∈ map off_card offsets ->
     onGrid s' (baseX (store s' r)) ∧ onGrid s' (baseY (store s' r)))
  ∧ (forall r, baseWidth (store s' r) = baseWidth (store s r)
       ∧ baseHeight (store s' r) = baseHeight (store s r))
  ∧ (forall r, r ∉ map off_card offsets -> store s' r = store s r)
  ∧ geometryOnly s s'.
Proof.
  cbv zeta. destruct (drag_onMouseMove_fields offsets e s) as (Hsc & Hgs & _ & Hgeo & Hdim & Hst).
  split_and!; try done.
  intros r Hr.
  cut (onGrid s (baseX (store (drag_onMouseMove offsets e s) r))
       ∧ onGrid s (baseY (store (drag_onMouseMove offsets e s) r))).
  { intros [Hx Hy]. split; apply (onGrid_same s); done. }
  clear Hsc Hgs Hgeo Hdim Hst.
  assert (forall s0, scale s0 = scale s -> gridSpacing s0 = gridSpacing s ->
            forall offsets,
              (r ∈ map off_card offsets ∨
               (onGrid s (baseX (store s0 r)) ∧ onGrid s (baseY (store s0 r)))) ->
              onGrid s (baseX (store (drag_onMouseMove offsets e s0) r))
              ∧ onGrid s (baseY (store (drag_onMouseMove offsets e s0) r))) as Hgen.
  { intros s0 Hs0 Hg0 offs. revert s0 Hs0 Hg0.
    induction offs as [|o offs IH]; intros s0 Hs0 Hg0 Hor.
    - destruct Hor as [Hin|Hok]; [by apply elem_of_nil in Hin | exact Hok].
    - rewrite drag_onMouseMove_cons. apply IH; [done..|].
      destruct (decide (r = off_card o)) as [->|Hne].
      + right. rewrite store_update, decide_True by done.
        cbn [baseX baseY with_pos].
        split; apply (onGrid_same s0 s); try done; apply snapToGrid_onGrid.
      + destruct Hor as [Hin|Hok].
        * left. rewrite map_cons in Hin. apply elem_of_cons in Hin as [?|?]; done.
        * right. rewrite store_update. by case_decide. }
  apply (Hgen s eq_refl eq_refl offsets). by left.
Qed.
End DragMore.

(** ** The rectangle selection *)

Section RectangleSelection.
Local Open Scope Q_scope.
Implicit Types (s : State) (r card : ref) (rect : Rect) (c : Component).

Lemma selectionStep_fields rect additive s card :
  let s' := selectionStep rect additive s card in
  cards s' = cards s ∧ connectors s' = connectors s ∧ store s' = store s
  ∧ connectingFrom s' = connectingFrom s ∧ scale s' = scale s
  ∧ gridSpacing s' = gridSpacing s ∧ nextRef s' = nextRef s
  ∧ cardCount s' = cardCount s ∧ clipboard s' = clipboard s ∧ listeners s' = listeners s.
Proof.
  cbv zeta. unfold selectionStep, selectCard.
  repeat match goal with |- context [if ?b then _ else _] => destruct b end; done.
Qed.

Lemma isInside_same rect s s' r :
  store s' = store s -> scale s' = scale s -> isInside s' rect r = isInside s rect r.
Proof. intros Hst Hsc. unfold isInside, getCardRect. by rewrite Hst, Hsc. Qed.

(** What one turn of the loop does to the membership of a card. *)
Lemma selectionStep_member rect additive s card r :
  r ∈ selectedCards (selectionStep rect additive s card) <->
    if decide (r = card) then
      (isInside s rect r = true ∧ (r ∈ selectedCards s ∨ connectingFrom s ≠ Some r))
      ∨ (isInside s rect r = false ∧ r ∈ selectedCards s
         ∧ (connectingFrom s = Some r ∨ additive = true))
    else r ∈ selectedCards s.
Proof.
  unfold selectionStep.
  destruct (isInside s rect card) eqn:Hin;
    destruct (includes (selectedCards s) card) eqn:Hsel; cbn [andb negb];
    [apply includes_true in Hsel | apply includes_false in Hsel
    |apply includes_true in Hsel | apply includes_false in Hsel].
  - case_decide; [subst r; rewrite Hin|]; intuition discriminate.
  - rewrite selectedCards_selectCard.
    rewrite (proj2 (includes_false _ _) Hsel).
    case_bool_decide as Hcf.
    + rewrite elem_of_app, list_elem_of_singleton.
      case_decide; [subst r; rewrite Hin|]; intuition discriminate.
    + case_decide; [subst r; rewrite Hin|]; intuition discriminate.
  - case_bool_decide as Hcf; destruct additive;
      cbn [andb negb selectedCards set_selectedCards];
      rewrite ?list_elem_of_filter;
      (case_decide; [subst r; rewrite Hin|]); intuition (discriminate || congruence).
  - case_decide; [subst r; rewrite Hin|]; intuition discriminate.
Qed.

Lemma selectByRectangle_fold rect additive (l : list ref) s0 r :
  r ∈ selectedCards (fold_left (selectionStep rect additive) l s0) <->
    if decide (r ∈ l) then
      (isInside s0 rect r = true ∧ (r ∈ selectedCards s0 ∨ connectingFrom s0 ≠ Some r))
      ∨ (isInside s0 rect r = false ∧ r ∈ selectedCards s0
         ∧ (connectingFrom s0 = Some r ∨ additive = true))
    else r ∈ selectedCards s0.
Proof.
  revert s0. induction l as [|card l IH]; intros s0.
  - cbn [fold_left]. destruct (decide (r ∈ [])) as [H|_]; [by apply elem_of_nil in H|done].
  - cbn [fold_left]. rewrite IH.
    destruct (selectionStep_fields rect additive s0 card)
      as (_ & _ & Hst & Hcf & Hsc & _).
    rewrite (isInside_same rect s0 _ r Hst Hsc), Hcf.
    pose proof (selectionStep_member rect additive s0 card r) as Hm.
    destruct (decide (r ∈ card :: l)) as [Hcl|Hcl];
      destruct (decide (r ∈ l)) as [Hl|Hl];
      destruct (decide (r = card)) as [Heq|Hne];
      try (exfalso; apply Hcl; by right);
      try (exfalso; apply Hcl; subst r; by left);
      try (apply elem_of_cons in Hcl as [?|?]; done);
      destruct (isInside s0 rect r); intuition (discriminate || congruence).
Qed.

Lemma selectionFold_fields rect additive (l : list ref) s :
  let s' := fold_left (selectionStep rect additive) l s in
  cards s' = cards s ∧ connectors s' = connectors s ∧ store s' = store s
  ∧ connectingFrom s' = connectingFrom s ∧ scale s' = scale s
  ∧ gridSpacing s' = gridSpacing s ∧ nextRef s' = nextRef s
  ∧ cardCount s' = cardCount s ∧ clipboard s' = clipboard s ∧ listeners s' = listeners s.
Proof.
  revert s. induction l as [|card l IH]; intros s; [done|].
  cbn [fold_left].
  destruct (IH (selectionStep rect additive s card))
    as (-> & -> & -> & -> & -> & -> & -> & -> & -> & ->).
  apply selectionStep_fields.
Qed.

Lemma selectByRectangle_fields rect additive s :
  let s' := selectByRectangle rect additive s in
  cards s' = cards s ∧ connectors s' = connectors s ∧ store s' = store s
  ∧ connectingFrom s' = connectingFrom s ∧ scale s' = scale s
  ∧ gridSpacing s' = gridSpacing s ∧ nextRef s' = nextRef s
  ∧ cardCount s' = cardCount s ∧ clipboard s' = clipboard s ∧ listeners s' = listeners s.
Proof. apply selectionFold_fields. Qed.

(** X12.  One move-sample of a rectangle selection.  A card of the list is
    selected afterwards exactly when its rectangle intersects the
    selection rectangle and it was selected or is not [connectingFrom],
    or it does not intersect, was selected, and is [connectingFrom] or
    the modifier is held.  Without a pending connection and without the
    modifier the selection is exactly the cards that intersect.  The
    loop writes [selectedCards] only. *)
Theorem selectByRectangle_membership rect additive s :
  let s' := selectByRectangle rect additive s in
  (forall r, r ∈ cards s ->
     (r ∈ selectedCards s' <->
        (isInside s rect r = true ∧ (r ∈ selectedCards s ∨ connectingFrom s ≠ Some r))
        ∨ (isInside s rect r = false ∧ r ∈ selectedCards s
           ∧ (connectingFrom s = Some r ∨ additive = true))))
  ∧ (forall r, r ∉ cards s -> (r ∈ selectedCards s' <-> r ∈ selectedCards s))
  ∧ (connectingFrom s = None -> additive = false ->
     forall r, r ∈ cards s -> (r ∈ selectedCards s' <-> isInside s rect r = true))
  ∧ cards s' = cards s ∧ connectors s' = connectors s ∧ store s' = store s
  ∧ connectingFrom s' = connectingFrom s.
Proof.
  cbv zeta.
  destruct (selectByRectangle_fields rect additive s) as (Hc & Hcon & Hst & Hcf & _).
  split_and!; try done.
  - intros r Hr. unfold selectByRectangle.
    rewrite selectByRectangle_fold. by rewrite decide_True.
  - intros r Hr. unfold selectByRectangle.
    rewrite selectByRectangle_fold. by rewrite decide_False.
  - intros Hnone -> r Hr. unfold selectByRectangle.
    rewrite selectByRectangle_fold, decide_True by done. rewrite Hnone.
    destruct (isInside s rect r); split.
    + done.
    + intros _. left. split; [done|]. right. discriminate.
    + intros [[? _]|(_ & _ & [?|?])]; discriminate.
    + discriminate.
Qed.

(** X13.  The selection rectangle of a move-sample is normalised: its width
    and height are not negative and it spans from the point where the
    gesture started to the current pointer, whichever way the pointer
    went.  Outside a selection gesture [onMouseMove] does nothing, and
    [onMouseUp] only ends the gesture. *)
Theorem onMouseMove_normalises containerRect event c :
  let c' := onMouseMove containerRect event c in
  let currentX := clientX event - rect_left containerRect in
  let currentY := clientY event - rect_top containerRect in
  (isSelecting c = false -> c' = c)
  ∧ (isSelecting c = true ->
     0 <= rect_width (selectionRect c') ∧ 0 <= rect_height (selectionRect c')
     ∧ rect_left (selectionRect c') == Qmin (startX c) currentX
     ∧ rect_left (selectionRect c') + rect_width (selectionRect c')
       == Qmax (startX c) currentX
     ∧ rect_top (selectionRect c') == Qmin (startY c) currentY
     ∧ rect_top (selectionRect c') + rect_height (selectionRect c')
       == Qmax (startY c) currentY
     ∧ isSelecting c' = true)
  ∧ engine (onMouseUp c) = engine c ∧ isSelecting (onMouseUp c) = false.
Proof.
  cbv zeta. unfold onMouseMove, onMouseUp.
  assert (forall a b, Qmin a b + Qabs (b - a) == Qmax a b) as Hspan.
  { intros a b. destruct (Qlt_le_dec b a) as [H|H].
    - rewrite (Q.min_r a b) by lra. rewrite (Q.max_l a b) by lra.
      rewrite Qabs_neg by lra. ring.
    - rewrite (Q.min_l a b H), (Q.max_r a b H). rewrite Qabs_pos by lra. ring. }
  destruct (isSelecting c) eqn:Hsel.
  - split_and!; try done. intros _. cbn [selectionRect rect_left rect_top rect_width
      rect_height isSelecting].
    split_and!; first [reflexivity | apply Qabs_nonneg | apply Hspan].
  - split_and!; done.
Qed.

Lemma onMouseMove_normalises_witness :
  let c := startSelection true (mkDOMRect 0 0 800 600)
             (Scenario.pointer 300 300 false false)
             (mkComponent Scenario.started false false (mkDOMRect 0 0 0 0) 0 0) in
  rect_left (selectionRect (onMouseMove (mkDOMRect 0 0 800 600)
                              (Scenario.pointer 100 200 false false) c))
  == Qmin (startX c) (100 - 0).
Proof.
  cbv zeta.
  set (c := startSelection true (mkDOMRect 0 0 800 600)
              (Scenario.pointer 300 300 false false)
              (mkComponent Scenario.started false false (mkDOMRect 0 0 0 0) 0 0)).
  destruct (onMouseMove_normalises (mkDOMRect 0 0 800 600)
              (Scenario.pointer 100 200 false false) c) as (_ & H & _).
  destruct (H eq_refl) as (_ & _ & Hl & _). exact Hl.
Defined.
Lemma selectByRectangle_membership_witness :
  1%nat ∈ selectedCards (selectByRectangle (mkRect 0 0 150 150) false Scenario.started).
Proof.
  assert (connectingFrom Scenario.started = None) as Hcf by (vm_compute; reflexivity).
  assert (cards Scenario.started = [1; 2]%nat) as Hc by (vm_compute; reflexivity).
  assert (1%nat ∈ cards Scenario.started) as Hin by (rewrite Hc; by left).
  assert (isInside Scenario.started (mkRect 0 0 150 150) 1%nat = true) as Hinside
    by (vm_compute; reflexivity).
  destruct (selectByRectangle_membership (mkRect 0 0 150 150) false Scenario.started)
    as (_ & _ & H & _).
  exact (proj2 (H Hcf eq_refl 1%nat Hin) Hinside).
Defined.
End RectangleSelection.

(** ** Copy, paste and the keyboard *)

Section ClipboardMore.
Local Open Scope Q_scope.
Implicit Types (s : State) (r : ref) (m : gmap string ref) (item : ClipboardItem).

Lemma selectCard_selectionOnly r s : selectionOnly s (selectCard r s).
Proof.
  unfold selectionOnly, selectCard. case_bool_decide; [|done].
  by destruct (negb (includes (selectedCards s) r)).
Qed.

(** The card one turn of the first loop of [pasteCards] creates, and
    what it does to the selection. *)
Lemma pasteItem_content offX offY m s item :
  let acc := pasteItem offX offY (m, s) item in
  let c := store acc.2 (nextRef s) in
  title c = clip_title item ∧ inputValue c = clip_inputValue item
  ∧ baseWidth c = clip_baseWidth item * scale s
  ∧ baseHeight c = clip_baseHeight item * scale s
  ∧ connectingFrom acc.2 = connectingFrom s
  ∧ selectedCards acc.2
    = if bool_decide (connectingFrom s ≠ Some (nextRef s)) then
        if includes (selectedCards s) (nextRef s) then selectedCards s
        else selectedCards s ++ [nextRef s]
      else selectedCards s.
Proof.
  cbv zeta. unfold pasteItem, alloc. cbn [fst snd].
  match goal with |- context [selectCard ?r ?s0] =>
    destruct (selectCard_selectionOnly r s0) as (_ & _ & -> & _ & _ & _ & -> & _);
    rewrite (selectedCards_selectCard r s0)
  end.
  cbn -[pretty String.append]. rewrite decide_True by done. done.
Qed.

Lemma pasteItems_content offX offY (items : list ClipboardItem) m s :
  (forall r, r ∈ selectedCards s -> (r < nextRef s)%nat) ->
  (forall r, connectingFrom s = Some r -> (r < nextRef s)%nat) ->
  let acc := fold_left (pasteItem offX offY) items (m, s) in
  (forall i item, items !! i = Some item ->
     let c := store acc.2 (nextRef s + i)%nat in
     title c = clip_title item ∧ inputValue c = clip_inputValue item
     ∧ baseWidth c = clip_baseWidth item * scale s
     ∧ baseHeight c = clip_baseHeight item * scale s)
  ∧ connectingFrom acc.2 = connectingFrom s
  ∧ selectedCards acc.2 = selectedCards s ++ seq (nextRef s) (length items).
Proof.
  revert m s. induction items as [|item items IH]; intros m s Hsel Hcf; cbv zeta.
  - simpl. rewrite app_nil_r. split_and!; done.
  - cbn [fold_left length].
    destruct (pasteItem_spec offX offY m s item)
      as (_ & _ & Hn & _ & _ & _ & Hsc & _ & Hst).
    destruct (pasteItem_content offX offY m s item) as (Ht & Hv & Hw & Hh & Hcf1 & Hsel1).
    cbv zeta in Ht, Hv, Hw, Hh.
    rewrite bool_decide_eq_true_2 in Hsel1
      by (intros Heq; apply Hcf in Heq; lia).
    rewrite (proj2 (includes_false _ _)) in Hsel1
      by (intros Hin; apply Hsel in Hin; lia).
    destruct (pasteItem offX offY (m, s) item) as [m1 s1]. cbn [fst snd] in *.
    destruct (IH m1 s1) as (Hitems & Hcf' & Hsel').
    { intros r Hr. rewrite Hsel1 in Hr. rewrite Hn.
      apply elem_of_app in Hr as [Hr|Hr]; [apply Hsel in Hr; lia|].
      apply list_elem_of_singleton in Hr. lia. }
    { intros r Hr. rewrite Hcf1 in Hr. apply Hcf in Hr. rewrite Hn. lia. }
    destruct (pasteItems_spec offX offY items m1 s1) as (_ & _ & _ & _ & _ & _ & _ & _ & Hst').
    split_and!.
    + intros [|i] item' Hi; cbv zeta.
      * simpl in Hi. injection Hi as <-. rewrite Nat.add_0_r.
        rewrite Hst' by (rewrite Hn; lia). done.
      * simpl in Hi.
        replace (nextRef s + S i)%nat with (nextRef s1 + i)%nat by (rewrite Hn; lia).
        destruct (Hitems i item' Hi) as (? & ? & ? & ?). rewrite <- Hsc. done.
    + by rewrite Hcf', Hcf1.
    + rewrite Hsel', Hsel1, Hn, <- app_assoc. done.
Qed.

Lemma pasteItems_gridSpacing offX offY (items : list ClipboardItem) m s :
  gridSpacing (fold_left (pasteItem offX offY) items (m, s)).2 = gridSpacing s.
Proof.
  revert m s. induction items as [|item items IH]; intros m s; [done|].
  cbn [fold_left].
  destruct (pasteItem offX offY (m, s) item) as [m1 s1] eqn:Hstep.
  rewrite IH. unfold pasteItem, alloc in Hstep. injection Hstep as _ <-.
  match goal with |- context [selectCard ?r ?s0] =>
    destruct (selectCard_selectionOnly r s0) as (_ & _ & _ & _ & _ & _ & _ & _ & ->)
  end. reflexivity.
Qed.

(** A paste re-creates the clipboard: the i-th new card has the title,
    the text and, times the scale, the width and height of the i-th
    item; the new cards become the selection, after what
    [clearSelection] keeps of the old one. *)
Lemma pasteCards_content s :
  clipboard s ≠ [] ->
  (forall r, r ∈ selectedCards s -> (r < nextRef s)%nat) ->
  (forall r, connectingFrom s = Some r -> (r < nextRef s)%nat) ->
  let s' := pasteCards s in
  (forall i item, clipboard s !! i = Some item ->
     let c := store s' (nextRef s + i)%nat in
     title c = clip_title item ∧ inputValue c = clip_inputValue item
     ∧ baseWidth c = clip_baseWidth item * scale s
     ∧ baseHeight c = clip_baseHeight item * scale s)
  ∧ selectedCards s'
    = filter (fun c => connectingFrom s = Some c) (selectedCards s)
      ++ seq (nextRef s) (length (clipboard s))
  ∧ connectingFrom s' = connectingFrom s ∧ nextRef s' = (nextRef s + length (clipboard s))%nat
  ∧ scale s' = scale s ∧ gridSpacing s' = gridSpacing s ∧ clipboard s' = clipboard s.
Proof.
  intros Hclip Hsel Hcf. cbv zeta.
  destruct (pasteCards_unfold s Hclip) as (m & s1 & s2 & Hfold & -> & ->).
  pose proof (pasteItems_content (20 / scale s) (20 / scale s) (clipboard s) ∅
                (clearSelection s)) as H1.
  pose proof (pasteItems_spec (20 / scale s) (20 / scale s) (clipboard s) ∅
                (clearSelection s)) as H0.
  cbv zeta in H0, H1. rewrite Hfold in H0, H1. cbn [fst snd] in H0, H1.
  destruct H0 as (_ & Hn & _ & _ & Hcl & Hsc & _).
  destruct H1 as (Hitems & Hcf1 & Hsel1).
  { intros r Hr. apply list_elem_of_filter in Hr as [_ Hr]. by apply Hsel. }
  { exact Hcf. }
  change (nextRef (clearSelection s)) with (nextRef s) in *.
  change (scale (clearSelection s)) with (scale s) in *.
  change (connectingFrom (clearSelection s)) with (connectingFrom s) in *.
  change (clipboard (clearSelection s)) with (clipboard s) in *.
  change (selectedCards (clearSelection s))
    with (filter (fun c => connectingFrom s = Some c) (selectedCards s)) in *.
  assert (forall conns s0,
            selectedCards (fold_left (pasteConnection m) conns s0) = selectedCards s0
            ∧ connectingFrom (fold_left (pasteConnection m) conns s0) = connectingFrom s0
            ∧ gridSpacing (fold_left (pasteConnection m) conns s0) = gridSpacing s0
            ∧ clipboard (fold_left (pasteConnection m) conns s0) = clipboard s0) as Hconn.
  { induction conns as [|conn conns IH]; intros s0; [done|]. cbn [fold_left].
    destruct (IH (pasteConnection m s0 conn)) as (-> & -> & -> & ->).
    unfold pasteConnection.
    repeat match goal with |- context [match ?o with _ => _ end] => destruct o end; done. }
  assert (forall (items : list ClipboardItem) s0,
            let s3 := fold_left (fun s item =>
                        fold_left (pasteConnection m) (connections item) s) items s0 in
            selectedCards s3 = selectedCards s0 ∧ connectingFrom s3 = connectingFrom s0
            ∧ gridSpacing s3 = gridSpacing s0 ∧ clipboard s3 = clipboard s0) as Hall.
  { induction items as [|item items IH]; intros s0; [done|]. cbv zeta. cbn [fold_left].
    destruct (IH (fold_left (pasteConnection m) (connections item) s0))
      as (-> & -> & -> & ->).
    apply Hconn. }
  destruct (Hall (clipboard s1) s1) as (Hsel2 & Hcf2 & Hgs2 & Hcl2).
  destruct (pasteAllConnections_spec m (clipboard s1) s1)
    as (_ & _ & Hst2 & Hn2 & _ & Hsc2).
  set (s2 := fold_left _ (clipboard s1) s1) in *.
  unfold preventOverlapsAfterPaste.
  set (G := fun (s : State) (r : ref) (c : Card) =>
              let p := preventOverlap s r (baseX c / scale s) (baseY c / scale s) in
              ((p.1 * scale s), (p.2 * scale s))).
  change (forEachCard _ (cards s2) s2) with
    (forEachCard (fun s r c => with_pos c (fst (G s r c)) (snd (G s r c))) (cards s2) s2).
  pose proof (forEachCard_fields
                (fun s r c => with_pos c (fst (G s r c)) (snd (G s r c))) (cards s2) s2)
    as H3.
  pose proof (forEachCard_with_pos G (cards s2) s2) as H4.
  cbv zeta in H3, H4.
  set (s3 := forEachCard _ (cards s2) s2) in *.
  destruct H3 as (Hsc3 & Hgs3 & _ & Hsel3 & _ & Hcf3 & Hcl3 & _ & Hn3 & _).
  split_and!.
  - intros i item Hi. cbv zeta.
    destruct (H4 (nextRef s + i)%nat) as (-> & -> & _ & -> & ->).
    rewrite Hst2. by apply Hitems.
  - by rewrite Hsel3, Hsel2, Hsel1.
  - by rewrite Hcf3, Hcf2, Hcf1.
  - by rewrite Hn3, Hn2, Hn.
  - by rewrite Hsc3, Hsc2, Hsc.
  - rewrite Hgs3, Hgs2.
    pose proof (pasteItems_gridSpacing (20 / scale s) (20 / scale s) (clipboard s) ∅
                  (clearSelection s)) as Hg.
    rewrite Hfold in Hg. exact Hg.
  - by rewrite Hcl3, Hcl2, Hcl.
Qed.

Lemma copyCards_fields s :
  let s' := copyCards s in
  scale s' = scale s ∧ gridSpacing s' = gridSpacing s ∧ cards s' = cards s
  ∧ selectedCards s' = selectedCards s ∧ connectors s' = connectors s
  ∧ connectingFrom s' = connectingFrom s ∧ cardCount s' = cardCount s
  ∧ nextRef s' = nextRef s ∧ store s' = store s ∧ listeners s' = listeners s.
Proof. cbv zeta. unfold copyCards. by case_bool_decide. Qed.

(** X15.  After a paste the selection is the new cards, in the order of the
    clipboard, after the one card [clearSelection] keeps: a selected
    card that is [connectingFrom].  With no connection pending the
    selection is exactly the new cards.  The clipboard is kept, so the
    next paste creates as many cards again. *)
Theorem paste_selects_new_cards s :
  clipboard s ≠ [] ->
  (forall r, r ∈ selectedCards s -> (r < nextRef s)%nat) ->
  (forall r, connectingFrom s = Some r -> (r < nextRef s)%nat) ->
  let s' := pasteCards s in
  let new := seq (nextRef s) (length (clipboard s)) in
  selectedCards s'
  = filter (fun c => connectingFrom s = Some c) (selectedCards s) ++ new
  ∧ (connectingFrom s = None -> selectedCards s' = new)
  ∧ connectingFrom s' = connectingFrom s
  ∧ clipboard s' = clipboard s
  ∧ length (cards (pasteCards s')) = (length (cards s) + 2 * length (clipboard s))%nat.
Proof.
  intros Hclip Hsel Hcf. cbv zeta.
  destruct (pasteCards_content s Hclip Hsel Hcf) as (_ & Hs & Hc & _ & _ & _ & Hcl).
  split_and!; try done.
  - intros Hnone. rewrite Hs, Hnone. by rewrite (filter_none _ (selectedCards s)).
  - destruct (paste_adds_cards (pasteCards s)) as (-> & _); [by rewrite Hcl|].
    destruct (paste_adds_cards s Hclip) as (-> & _).
    rewrite Hcl, !length_app, !length_seq. lia.
Qed.

Lemma paste_selects_new_cards_witness :
  selectedCards Scenario.pasted
  = seq (nextRef (copyCards Scenario.bothSelected))
      (length (clipboard (copyCards Scenario.bothSelected))).
Proof.
  assert (clipboard (copyCards Scenario.bothSelected) ≠ []) as Hclip
    by (vm_compute; discriminate).
  assert (selectedCards (copyCards Scenario.bothSelected) = [1; 2]%nat) as Esel
    by (vm_compute; reflexivity).
  assert (nextRef (copyCards Scenario.bothSelected) = 3%nat) as En
    by (vm_compute; reflexivity).
  assert (connectingFrom (copyCards Scenario.bothSelected) = None) as Ecf
    by (vm_compute; reflexivity).
  assert (forall r, r ∈ selectedCards (copyCards Scenario.bothSelected) ->
                    (r < nextRef (copyCards Scenario.bothSelected))%nat) as Hsel.
  { intros r Hr. rewrite Esel in Hr. rewrite En.
    apply elem_of_cons in Hr as [->|Hr]; [lia|].
    apply list_elem_of_singleton in Hr as ->. lia. }
  assert (forall r, connectingFrom (copyCards Scenario.bothSelected) = Some r ->
                    (r < nextRef (copyCards Scenario.bothSelected))%nat) as Hcf
    by (intros r Hr; rewrite Ecf in Hr; discriminate Hr).
  destruct (paste_selects_new_cards _ Hclip Hsel Hcf) as (_ & H & _).
  exact (H Ecf).
Defined.

(** X16.  Copy, then paste, of a non-empty selection: the i-th new card takes
    the next id of the counter and has the title and the text of the
    i-th selected card and, the scale not being zero, its width and
    height. *)
Theorem copy_paste_round_trip s :
  selectedCards s ≠ [] ->
  ¬ scale s == 0 ->
  (forall r, r ∈ selectedCards s -> (r < nextRef s)%nat) ->
  (forall r, connectingFrom s = Some r -> (r < nextRef s)%nat) ->
  let s' := pasteCards (copyCards s) in
  cards s' = cards s ++ seq (nextRef s) (length (selectedCards s))
  ∧ forall i r, selectedCards s !! i = Some r ->
      let c := store s r in
      let c' := store s' (nextRef s + i)%nat in
      id c' = "card" +:+ pretty (cardCount s + 1 + i)%nat
      ∧ title c' = title c ∧ inputValue c' = inputValue c
      ∧ baseWidth c' == baseWidth c ∧ baseHeight c' == baseHeight c.
Proof.
  intros Hne Hsc Hsel Hcf. cbv zeta.
  destruct (copyCards_fields s) as (Hsc1 & _ & Hc1 & Hsel1 & _ & Hcf1 & Hcc1 & Hn1 & Hst1 & _).
  pose proof (copyCards_length s Hne) as Hlen.
  assert (clipboard (copyCards s) ≠ []) as Hclip.
  { intros Hnil. rewrite Hnil in Hlen. by destruct (selectedCards s). }
  destruct (paste_adds_cards (copyCards s) Hclip) as (Hc & _ & Hid & _).
  destruct (pasteCards_content (copyCards s) Hclip) as (Hitems & _).
  { rewrite Hsel1, Hn1. exact Hsel. }
  { rewrite Hcf1, Hn1. exact Hcf. }
  rewrite Hlen, Hc1, Hn1 in Hc. split; [exact Hc|].
  intros i r Hi. cbv zeta.
  assert (clipboard (copyCards s) !! i
          = Some (mkClipboardItem (baseX (store s r) / scale s) (baseY (store s r) / scale s)
                    (baseWidth (store s r) / scale s) (baseHeight (store s r) / scale s)
                    (title (store s r)) (inputValue (store s r))
                    (map (fun c => mkConnection (id (store s (from c))) (id (store s (to c))))
                       (filter (fun c => from c = r ∨ to c = r) (connectors s))))) as Hitem.
  { unfold copyCards. rewrite bool_decide_eq_false_2 by (by destruct (selectedCards s)).
    cbn [clipboard set_clipboard]. rewrite list_lookup_fmap, Hi. reflexivity. }
  destruct (Hitems i _ Hitem) as (Ht & Hv & Hw & Hh).
  cbn [clip_title clip_inputValue clip_baseWidth clip_baseHeight] in Ht, Hv, Hw, Hh.
  rewrite Hn1 in Ht, Hv, Hw, Hh. rewrite Hsc1 in Hw, Hh.
  split_and!.
  - rewrite <- Hn1, <- Hcc1. apply Hid. rewrite Hlen.
    apply lookup_lt_Some in Hi. exact Hi.
  - exact Ht.
  - exact Hv.
  - rewrite Hw. field. exact Hsc.
  - rewrite Hh. field. exact Hsc.
Qed.

Lemma copy_paste_round_trip_witness :
  title (store Scenario.pasted (nextRef Scenario.bothSelected + 1)%nat)
  = title (store Scenario.bothSelected 2%nat)
  ∧ baseWidth (store Scenario.pasted (nextRef Scenario.bothSelected + 1)%nat)
    == baseWidth (store Scenario.bothSelected 2%nat).
Proof.
  assert (selectedCards Scenario.bothSelected = [1; 2]%nat) as Esel
    by (vm_compute; reflexivity).
  assert (nextRef Scenario.bothSelected = 3%nat) as En by (vm_compute; reflexivity).
  assert (connectingFrom Scenario.bothSelected = None) as Ecf
    by (vm_compute; reflexivity).
  assert (selectedCards Scenario.bothSelected ≠ []) as Hne
    by (rewrite Esel; discriminate).
  assert (¬ scale Scenario.bothSelected == 0) as Hsc by (vm_compute; discriminate).
  assert (forall r, r ∈ selectedCards Scenario.bothSelected ->
                    (r < nextRef Scenario.bothSelected)%nat) as Hsel.
  { intros r Hr. rewrite Esel in Hr. rewrite En.
    apply elem_of_cons in Hr as [->|Hr]; [lia|].
    apply list_elem_of_singleton in Hr as ->. lia. }
  assert (forall r, connectingFrom Scenario.bothSelected = Some r ->
                    (r < nextRef Scenario.bothSelected)%nat) as Hcf
    by (intros r Hr; rewrite Ecf in Hr; discriminate Hr).
  assert (selectedCards Scenario.bothSelected !! 1%nat = Some 2%nat) as Hi
    by (rewrite Esel; reflexivity).
  destruct (copy_paste_round_trip _ Hne Hsc Hsel Hcf) as (_ & H).
  destruct (H 1%nat 2%nat Hi) as (_ & Ht & _ & Hw & _).
  split; [exact Ht | exact Hw].
Defined.

Lemma substring_all (x : string) : String.substring 0 (String.length x) x = x.
Proof. induction x as [|a x IH]; [done|]. simpl. by rewrite IH. Qed.

(** X18.  The key the second loop of [pasteCards] looks a connection's
    endpoint up with, [id.replace('card', 'Card ')], is the title
    [addNewCard] gave the card with that id: the lookup finds a copied
    card as long as its title is the one it was created with. *)
Theorem replace_id_is_default_title x y s :
  let c := store (addNewCard x y s) (nextRef s) in
  replace "card" "Card " (id c) = title c
  ∧ forall n : nat, replace "card" "Card " ("card" +:+ pretty n) = "Card " +:+ pretty n.
Proof.
  assert (forall z : string, replace "card" "Card " ("card" +:+ z) = "Card " +:+ z) as Hrep.
  { intros z. unfold String.app. cbn [String.append]. cbn -[String.append].
    assert (String.prefix "" z = true) as -> by (by destruct z).
    rewrite Nat.sub_0_r, substring_all. reflexivity. }
  cbv zeta. split; [|intros n; apply Hrep].
  unfold addNewCard, alloc. cbn -[replace pretty String.append].
  rewrite decide_True by done. cbn [id title]. apply Hrep.
Qed.

(** X19.  The edge cases of the clipboard operations.  Copying with nothing
    selected keeps the clipboard, so that a paste afterwards still
    pastes the cards copied before; pasting from an empty clipboard,
    deleting with nothing selected, and declining the confirmation
    change nothing. *)
Theorem clipboard_edge_cases s :
  (selectedCards s = [] ->
     copyCards s = s ∧ pasteCards (copyCards s) = pasteCards s
     ∧ forall confirmed, deleteSelectedCards confirmed s = s)
  ∧ (clipboard s = [] -> pasteCards s = s)
  ∧ deleteSelectedCards false s = s.
Proof.
  split_and!.
  - intros Hsel. unfold copyCards, deleteSelectedCards. rewrite Hsel. done.
  - intros Hclip. unfold pasteCards. by rewrite Hclip.
  - unfold deleteSelectedCards. by case_bool_decide.
Qed.

Lemma clipboard_edge_cases_witness :
  copyCards Scenario.started = Scenario.started
  ∧ pasteCards Scenario.started = Scenario.started.
Proof.
  assert (selectedCards Scenario.started = []) as Esel by (vm_compute; reflexivity).
  assert (clipboard Scenario.started = []) as Eclip by (vm_compute; reflexivity).
  destruct (clipboard_edge_cases Scenario.started) as (H1 & H2 & _).
  destruct (H1 Esel) as (Hcopy & _).
  exact (conj Hcopy (H2 Eclip)).
Defined.

(** X20.  [onKeyDown]: the Cyrillic letter on the key of C or V does what the
    Latin one does, neither does anything without Ctrl, Delete does not
    need Ctrl, and any other key changes nothing. *)
Theorem onKeyDown_dispatch confirmed s :
  onKeyDown confirmed (mkKeyboardEvent true "c") s = copyCards s
  ∧ onKeyDown confirmed (mkKeyboardEvent true "с") s = copyCards s
  ∧ onKeyDown confirmed (mkKeyboardEvent true "v") s = pasteCards s
  ∧ onKeyDown confirmed (mkKeyboardEvent true "м") s = pasteCards s
  ∧ (forall ctrl, onKeyDown confirmed (mkKeyboardEvent ctrl "Delete") s
                  = deleteSelectedCards confirmed s)
  ∧ (forall k, k ≠ "Delete" -> onKeyDown confirmed (mkKeyboardEvent false k) s = s)
  ∧ (forall ctrl k, k ∉ ["c"; "с"; "v"; "м"; "Delete"] ->
       onKeyDown confirmed (mkKeyboardEvent ctrl k) s = s).
Proof.
  split_and!; try reflexivity.
  - intros ctrl. by destruct ctrl.
  - intros k Hk. unfold onKeyDown. cbn [key_ctrlKey key andb].
    by rewrite bool_decide_eq_false_2.
  - intros ctrl k Hk. unfold onKeyDown. cbn [key_ctrlKey key].
    rewrite !bool_decide_eq_false_2; [by destruct ctrl|..];
      intros ->; apply Hk; set_solver.
Qed.
(** X17.  [copyCards] records a connector with every selected card it
    touches: a connector between two selected cards is on the clipboard
    twice, once in the item of each end, under the ids of its two ends;
    a connector with one selected end is recorded once, with the id of
    the card that was not copied. *)
Theorem copy_records_connector_per_end s c i r :
  c ∈ connectors s ->
  selectedCards s !! i = Some r ->
  from c = r ∨ to c = r ->
  exists item,
    clipboard (copyCards s) !! i = Some item
    ∧ clip_title item = title (store s r)
    ∧ mkConnection (id (store s (from c))) (id (store s (to c))) ∈ connections item.
Proof.
  intros Hc Hi Hend.
  assert (selectedCards s ≠ []) as Hne by (intros Hnil; by rewrite Hnil in Hi).
  unfold copyCards. rewrite bool_decide_eq_false_2 by (by destruct (selectedCards s)).
  cbn [clipboard set_clipboard]. rewrite list_lookup_fmap, Hi. cbn [fmap option_fmap option_map].
  eexists. split; [reflexivity|]. cbn [clip_title connections]. split; [reflexivity|].
  apply (list_elem_of_fmap_2
           (fun c => mkConnection (id (store s (from c))) (id (store s (to c))))).
  apply list_elem_of_filter. done.
Qed.

Lemma copy_records_connector_per_end_witness :
  exists item,
    clipboard (copyCards Scenario.bothSelected) !! 1%nat = Some item
    ∧ clip_title item = title (store Scenario.bothSelected 2%nat)
    ∧ mkConnection (id (store Scenario.bothSelected 1%nat))
        (id (store Scenario.bothSelected 2%nat)) ∈ connections item.
Proof.
  assert (connectors Scenario.bothSelected = [mkConnector 1%nat 2%nat]) as Hcon
    by (vm_compute; reflexivity).
  assert (selectedCards Scenario.bothSelected = [1; 2]%nat) as Hsel
    by (vm_compute; reflexivity).
  apply (copy_records_connector_per_end Scenario.bothSelected (mkConnector 1%nat 2%nat)
           1%nat 2%nat).
  - rewrite Hcon. by left.
  - rewrite Hsel. reflexivity.
  - right. reflexivity.
Defined.

Lemma onKeyDown_dispatch_witness :
  onKeyDown true (mkKeyboardEvent false "c") Scenario.started = Scenario.started.
Proof.
  assert ("c" ≠ "Delete") as Hk by discriminate.
  destruct (onKeyDown_dispatch true Scenario.started) as (_ & _ & _ & _ & _ & H & _).
  exact (H "c" Hk).
Defined.

(** The witness of [paste_joins_new_cards_only]: the paste of the two
    connected cards of the example. *)
Lemma paste_joins_new_cards_only_witness :
  exists new,
    connectors Scenario.pasted = connectors (copyCards Scenario.bothSelected) ++ new
    ∧ Forall (fun c => (from c ∉ cards (copyCards Scenario.bothSelected))
                       ∧ (to c ∉ cards (copyCards Scenario.bothSelected))
                       ∧ from c ∈ cards Scenario.pasted ∧ to c ∈ cards Scenario.pasted) new.
Proof.
  assert (cards (copyCards Scenario.bothSelected) = [1; 2]%nat) as Hc
    by (vm_compute; reflexivity).
  assert (nextRef (copyCards Scenario.bothSelected) = 3%nat) as Hn
    by (vm_compute; reflexivity).
  apply (paste_joins_new_cards_only (copyCards Scenario.bothSelected)).
  intros r Hr. rewrite Hc in Hr. rewrite Hn.
  apply elem_of_cons in Hr as [->|Hr]; [lia|].
  apply list_elem_of_singleton in Hr as ->. lia.
Defined.
End ClipboardMore.

(** ** What holds of every state the component reaches *)

Section ReachableStates.
Local Open Scope Q_scope.
Implicit Types (s : State) (r card : ref) (i : Input).

Lemma geometryOnly_trans s1 s2 s3 :
  geometryOnly s1 s2 -> geometryOnly s2 s3 -> geometryOnly s1 s3.
Proof.
  unfold geometryOnly.
  intros (E1 & E2 & E3 & E4 & E5 & E6 & E7 & H1) (F1 & F2 & F3 & F4 & F5 & F6 & F7 & H2).
  split_and!; try congruence.
  intros r. destruct (H1 r) as (? & ? & ?), (H2 r) as (? & ? & ?).
  split_and!; congruence.
Qed.

Lemma update_geometryOnly r (f : Card -> Card) s :
  (forall c, id (f c) = id c ∧ title (f c) = title c ∧ inputValue (f c) = inputValue c) ->
  geometryOnly s (update r f s).
Proof.
  intros Hf. unfold geometryOnly. split_and!; try reflexivity.
  intros r'. rewrite store_update. case_decide; [apply Hf | done].
Qed.

Lemma forEachCard_geometryOnly (F : State -> ref -> Card -> Card) (l : list ref) s :
  (forall s r c, id (F s r c) = id c ∧ title (F s r c) = title c
                 ∧ inputValue (F s r c) = inputValue c) ->
  geometryOnly s (forEachCard F l s).
Proof.
  intros HF. revert s. induction l as [|r l IH]; intros s.
  - unfold geometryOnly. done.
  - rewrite forEachCard_cons. eapply geometryOnly_trans; [|apply IH].
    apply update_geometryOnly. intros c. apply HF.
Qed.

Lemma zoom_geometryOnly delta s : geometryOnly s (zoom delta s).
Proof.
  unfold zoom. cbv zeta.
  destruct (Num.geb (scale s * delta) (1 # 2) && Num.leb (scale s * delta) 2).
  - unfold preventOverlapsAfterZoom.
    eapply geometryOnly_trans; [|apply forEachCard_geometryOnly; done].
    eapply geometryOnly_trans; [|apply forEachCard_geometryOnly; done].
    unfold geometryOnly. done.
  - unfold geometryOnly. done.
Qed.

Lemma setGridSpacing_geometryOnly size s : geometryOnly s (setGridSpacing size s).
Proof.
  unfold setGridSpacing, adjustCardsAfterGridChange.
  eapply geometryOnly_trans; [|apply forEachCard_geometryOnly; done].
  unfold geometryOnly. done.
Qed.

Lemma documentMouseMove_geometryOnly e s :
  let s' := documentMouseMove e s in
  geometryOnly s s' ∧ scale s' = scale s ∧ gridSpacing s' = gridSpacing s.
Proof.
  cbv zeta. unfold documentMouseMove. generalize (listeners s) at 1 2 3. intros l.
  revert s. induction l as [|listener l IH]; intros s.
  - unfold geometryOnly. done.
  - cbn [fold_left].
    set (s1 := match listener with
               | Dragging offsets => drag_onMouseMove offsets e s
               | Resizing st => resize_onMouseMove st e s
               end).
    assert (geometryOnly s s1 ∧ scale s1 = scale s ∧ gridSpacing s1 = gridSpacing s)
      as (Hg & Hsc & Hgs).
    { unfold s1. destruct listener as [offsets|st].
      - destruct (drag_onMouseMove_fields offsets e s) as (? & ? & _ & ? & _). done.
      - unfold resize_onMouseMove.
        destruct (resizeGeometry _ _ _ _) as [[[w h] x] y].
        split; [|done]. by apply update_geometryOnly. }
    destruct (IH s1) as (Hg' & Hsc' & Hgs'). split_and!.
    + by eapply geometryOnly_trans.
    + by rewrite Hsc'.
    + by rewrite Hgs'.
Qed.

Lemma documentMouseUp_geometryOnly s :
  let s' := documentMouseUp s in
  geometryOnly s s' ∧ scale s' = scale s ∧ gridSpacing s' = gridSpacing s.
Proof.
  cbv zeta. unfold documentMouseUp. generalize (listeners s) at 1 2 3. intros l.
  revert s. induction l as [|listener l IH]; intros s.
  - unfold geometryOnly. done.
  - cbn [fold_left].
    set (s1 := match listener with
               | Dragging _ => drag_onMouseUp s
               | Resizing _ => resize_onMouseUp s
               end).
    assert (geometryOnly s s1 ∧ scale s1 = scale s ∧ gridSpacing s1 = gridSpacing s)
      as (Hg & Hsc & Hgs).
    { unfold s1. destruct listener as [offsets|st].
      - unfold drag_onMouseUp. cbv zeta.
        match goal with |- context [forEachCard ?F ?l ?s0] =>
          pose proof (forEachCard_geometryOnly F l s0) as Hg;
          destruct (forEachCard_fields F l s0) as (Hsc & Hgs & _);
          set (s2 := forEachCard F l s0) in *
        end.
        split_and!; [|exact Hsc|exact Hgs].
        eapply geometryOnly_trans; [apply Hg; done|]. unfold geometryOnly. done.
      - unfold resize_onMouseUp, geometryOnly. done. }
    destruct (IH s1) as (Hg' & Hsc' & Hgs'). split_and!.
    + by eapply geometryOnly_trans.
    + by rewrite Hsc'.
    + by rewrite Hgs'.
Qed.

Lemma wellFormed_same s s' :
  cards s' = cards s -> connectors s' = connectors s ->
  selectedCards s' = selectedCards s -> connectingFrom s' = connectingFrom s ->
  nextRef s' = nextRef s -> wellFormed s -> wellFormed s'.
Proof. unfold wellFormed. intros -> -> -> -> ->. done. Qed.

Lemma wellFormed_geometryOnly s s' : geometryOnly s s' -> wellFormed s -> wellFormed s'.
Proof.
  intros (? & ? & ? & ? & _ & _ & ? & _). by apply wellFormed_same.
Qed.

Lemma wellFormed_selection s s' :
  selectionOnly s s' ->
  (forall r, r ∈ selectedCards s' -> r ∈ cards s) -> NoDup (selectedCards s') ->
  wellFormed s -> wellFormed s'.
Proof.
  unfold wellFormed.
  intros (-> & -> & -> & _ & _ & -> & _) Hin Hnd (? & ? & ? & _ & _ & ?). done.
Qed.

Lemma selectionOnly_trans s1 s2 s3 :
  selectionOnly s1 s2 -> selectionOnly s2 s3 -> selectionOnly s1 s3.
Proof.
  unfold selectionOnly.
  intros (? & ? & ? & ? & ? & ? & ? & ? & ?) (? & ? & ? & ? & ? & ? & ? & ? & ?).
  split_and!; congruence.
Qed.

(** The selection stays a duplicate-free list of cards. *)
Lemma selectCard_selection card s :
  card ∈ cards s ->
  (forall r, r ∈ selectedCards s -> r ∈ cards s) -> NoDup (selectedCards s) ->
  (forall r, r ∈ selectedCards (selectCard card s) -> r ∈ cards s)
  ∧ NoDup (selectedCards (selectCard card s)).
Proof.
  intros Hcard Hin Hnd. rewrite selectedCards_selectCard.
  case_bool_decide; [|done].
  destruct (includes (selectedCards s) card) eqn:Hinc; [done|].
  apply includes_false in Hinc. split.
  - intros r Hr. apply elem_of_app in Hr as [Hr|Hr]; [by apply Hin|].
    apply list_elem_of_singleton in Hr. by subst.
  - apply NoDup_app. split_and!; [done| |apply NoDup_singleton].
    intros x Hx Hx'. apply list_elem_of_singleton in Hx'. by subst.
Qed.

Lemma filter_selection (P : ref -> Prop) `{!forall x, Decision (P x)} (l cs : list ref) :
  (forall r, r ∈ l -> r ∈ cs) -> NoDup l ->
  (forall r, r ∈ filter P l -> r ∈ cs) ∧ NoDup (filter P l).
Proof.
  intros Hin Hnd. split; [|by apply NoDup_filter].
  intros r Hr. apply list_elem_of_filter in Hr as [_ Hr]. by apply Hin.
Qed.

Lemma onCardMouseDown_selection event card s :
  card ∈ cards s ->
  (forall r, r ∈ selectedCards s -> r ∈ cards s) -> NoDup (selectedCards s) ->
  let s' := onCardMouseDown event card s in
  selectionOnly s s'
  ∧ (forall r, r ∈ selectedCards s' -> r ∈ cards s) ∧ NoDup (selectedCards s').
Proof.
  intros Hcard Hin Hnd. cbv zeta. unfold onCardMouseDown.
  assert (selectionOnly s s) as Hrefl by (unfold selectionOnly; done).
  destruct (targetIsInput event); [done|].
  destruct (negb (altKey event)); [|done].
  destruct (isResizingEdge s card event).
  { unfold handleResize. by destruct (getResizeDirection s card event). }
  match goal with |- context [handleDrag event card ?s0] => set (s1 := s0) end.
  assert (selectionOnly s s1
          ∧ (forall r, r ∈ selectedCards s1 -> r ∈ cards s) ∧ NoDup (selectedCards s1))
    as (Hso & Hin1 & Hnd1).
  { unfold s1. destruct (ctrlKey event || shiftKey event).
    - destruct (includes (selectedCards s) card).
      + split; [unfold selectionOnly; done|].
        apply (filter_selection (fun c => c ≠ card)); done.
      + split; [apply selectCard_selectionOnly|]. by apply selectCard_selection.
    - destruct (negb (includes (selectedCards s) card)); [|done].
      split.
      + eapply selectionOnly_trans; [|apply selectCard_selectionOnly].
        unfold selectionOnly. done.
      + destruct (filter_selection (fun c => connectingFrom s = Some c)
                    (selectedCards s) (cards s) Hin Hnd) as [Hin0 Hnd0].
        by apply (selectCard_selection card (clearSelection s)). }
  destruct (includes (selectedCards s1) card); [|done].
  split_and!; [|exact Hin1|exact Hnd1].
  eapply selectionOnly_trans; [exact Hso|]. unfold selectionOnly. done.
Qed.

Lemma onCardMouseDown_selectionOnly event card s :
  selectionOnly s (onCardMouseDown event card s).
Proof.
  unfold onCardMouseDown, handleResize, handleDrag, selectCard, clearSelection,
    selectionOnly.
  repeat match goal with |- context [if ?b then _ else _] => destruct b end;
    try done; by destruct (getResizeDirection s card event).
Qed.

Lemma selectionFold_selection rect additive (l : list ref) s :
  (forall r, r ∈ l -> r ∈ cards s) ->
  (forall r, r ∈ selectedCards s -> r ∈ cards s) -> NoDup (selectedCards s) ->
  let s' := fold_left (selectionStep rect additive) l s in
  (forall r, r ∈ selectedCards s' -> r ∈ cards s) ∧ NoDup (selectedCards s').
Proof.
  revert s. induction l as [|card l IH]; intros s Hl Hin Hnd; cbv zeta; [done|].
  cbn [fold_left].
  destruct (selectionStep_fields rect additive s card) as (Hc & _).
  assert ((forall r, r ∈ selectedCards (selectionStep rect additive s card) -> r ∈ cards s)
          ∧ NoDup (selectedCards (selectionStep rect additive s card))) as [Hin1 Hnd1].
  { unfold selectionStep.
    destruct (isInside s rect card && negb (includes (selectedCards s) card)).
    - apply selectCard_selection; [apply Hl; by left | done | done].
    - destruct (negb (isInside s rect card) && includes (selectedCards s) card
                && bool_decide (connectingFrom s ≠ Some card) && negb additive); [|done].
      apply (filter_selection (fun c => c ≠ card)); done. }
  destruct (IH (selectionStep rect additive s card)) as [Hin2 Hnd2].
  - intros r Hr. rewrite Hc. apply Hl. by right.
  - intros r Hr. rewrite Hc. by apply Hin1.
  - exact Hnd1.
  - rewrite Hc in Hin2. done.
Qed.

Lemma onCardClick_fields event card s :
  let s' := onCardClick event card s in
  cards s' = cards s ∧ selectedCards s' = selectedCards s ∧ store s' = store s
  ∧ nextRef s' = nextRef s ∧ cardCount s' = cardCount s ∧ scale s' = scale s
  ∧ gridSpacing s' = gridSpacing s ∧ clipboard s' = clipboard s.
Proof.
  cbv zeta. unfold onCardClick.
  destruct (altKey event && negb (targetIsInput event)); [|done].
  destruct (connectingFrom s) as [connecting|]; [|done].
  case_bool_decide; [done|].
  by destruct (findIndex connecting card (connectors s)).
Qed.

Lemma onCardClick_wellFormed event card s :
  card ∈ cards s -> wellFormed s -> wellFormed (onCardClick event card s).
Proof.
  intros Hcard (Hnd & Hlt & Hcon & Hsel & Hnds & Hcf). unfold onCardClick.
  destruct (altKey event && negb (targetIsInput event)); [|done].
  destruct (connectingFrom s) as [connecting|] eqn:Hc.
  - case_bool_decide as Heq.
    + unfold wellFormed. cbn. split_and!; done.
    + destruct (findIndex connecting card (connectors s)) as [k|]; unfold wellFormed; cbn;
        split_and!; try done.
      * intros c Hin. apply Hcon.
        eapply elem_of_sublist; [exact Hin | apply sublist_delete].
      * intros c Hin. apply elem_of_app in Hin as [Hin|Hin]; [by apply Hcon|].
        apply list_elem_of_singleton in Hin as ->. cbn. split_and!; [by apply Hcf|done|done].
  - unfold wellFormed. cbn. split_and!; try done. by intros r [= <-].
Qed.

Lemma addNewCard_fields x y s :
  let s' := addNewCard x y s in
  cards s' = cards s ++ seq (nextRef s) 1 ∧ nextRef s' = S (nextRef s)
  ∧ cardCount s' = (cardCount s + 1)%nat
  ∧ connectors s' = connectors s ∧ selectedCards s' = selectedCards s
  ∧ connectingFrom s' = connectingFrom s ∧ scale s' = scale s
  ∧ gridSpacing s' = gridSpacing s
  ∧ id (store s' (nextRef s)) = "card" +:+ pretty (cardCount s + 1)%nat
  ∧ (forall r, (r < nextRef s)%nat -> store s' r = store s r).
Proof.
  cbv zeta. unfold addNewCard, alloc. cbn -[snapToGrid pretty String.append].
  rewrite Nat.add_1_r. split_and!; try done.
  - by case_decide.
  - intros r Hr. case_decide; [lia|done].
Qed.

(** Appending [n] freshly allocated cards keeps the state well formed. *)
Lemma wellFormed_extend s s' (n : nat) :
  cards s' = cards s ++ seq (nextRef s) n -> nextRef s' = (nextRef s + n)%nat ->
  (forall c, c ∈ connectors s' -> c ∈ connectors s
     ∨ ((from c ∈ seq (nextRef s) n) ∧ (to c ∈ seq (nextRef s) n) ∧ from c ≠ to c)) ->
  (forall r, r ∈ selectedCards s' -> r ∈ selectedCards s ∨ r ∈ seq (nextRef s) n) ->
  NoDup (selectedCards s') ->
  connectingFrom s' = connectingFrom s ->
  wellFormed s -> wellFormed s'.
Proof.
  intros Hc Hn Hcon' Hsel' Hnds' Hcf' (Hnd & Hlt & Hcon & Hsel & Hnds & Hcf).
  unfold wellFormed. rewrite Hc, Hn, Hcf'. split_and!.
  - apply NoDup_app. split_and!; [done| |apply NoDup_seq].
    intros r Hr Hr'. apply Hlt in Hr. apply elem_of_seq in Hr'. lia.
  - intros r Hr. apply elem_of_app in Hr as [Hr|Hr]; [apply Hlt in Hr; lia|].
    apply elem_of_seq in Hr. lia.
  - intros c Hin. destruct (Hcon' c Hin) as [Hold|(Hf & Ht & Hne)].
    + destruct (Hcon c Hold) as (? & ? & ?). rewrite !elem_of_app. auto.
    + rewrite !elem_of_app. auto.
  - intros r Hr. rewrite elem_of_app. destruct (Hsel' r Hr) as [Hold|Hnew]; auto.
  - exact Hnds'.
  - intros r Hr. rewrite elem_of_app. left. by apply Hcf.
Qed.

Lemma pasteCards_wellFormed s : wellFormed s -> wellFormed (pasteCards s).
Proof.
  intros Hwf. destruct (decide (clipboard s = [])) as [Hnil|Hclip].
  { unfold pasteCards. by rewrite Hnil. }
  pose proof Hwf as (Hnd & Hlt & Hcon & Hsel & Hnds & Hcf).
  destruct (paste_adds_cards s Hclip) as (Hc & _).
  destruct (pasteCards_content s Hclip) as (_ & Hs & Hcf' & Hn & _).
  { intros r Hr. apply Hlt. by apply Hsel. }
  { intros r Hr. apply Hlt. by apply Hcf. }
  destruct (paste_connectors s) as (new & Hnew & Hall).
  apply (wellFormed_extend s _ (length (clipboard s))); try done.
  - intros c Hin. rewrite Hnew in Hin. apply elem_of_app in Hin as [Hin|Hin]; [by left|].
    right. destruct (proj1 (Forall_forall _ _) Hall c Hin) as (? & ? & ?).
    rewrite !elem_of_seq. done.
  - intros r Hr. rewrite Hs in Hr. apply elem_of_app in Hr as [Hr|Hr]; [|by right].
    left. apply list_elem_of_filter in Hr. tauto.
  - rewrite Hs. apply NoDup_app. split_and!; [by apply NoDup_filter| |apply NoDup_seq].
    intros r Hr Hr'. apply list_elem_of_filter in Hr as [_ Hr].
    apply Hsel, Hlt in Hr. apply elem_of_seq in Hr'. lia.
Qed.

Lemma deleteSelectedCards_wellFormed confirmed s :
  wellFormed s -> wellFormed (deleteSelectedCards confirmed s).
Proof.
  intros Hwf. destruct (decide (selectedCards s = [])) as [Hnil|Hsel'].
  { unfold deleteSelectedCards. by rewrite Hnil. }
  destruct confirmed; [|by rewrite deleteSelectedCards_declined].
  destruct (deleteSelectedCards_confirmed s Hsel')
    as (Hc & Hcon' & Hs & Hcf' & _ & Hn & _).
  destruct Hwf as (Hnd & Hlt & Hcon & Hsel & Hnds & Hcf).
  unfold wellFormed. rewrite Hc, Hcon', Hs, Hcf', Hn. split_and!.
  - by apply NoDup_filter.
  - intros r Hr. apply list_elem_of_filter in Hr as [_ Hr]. by apply Hlt.
  - intros c Hin. apply list_elem_of_filter in Hin as [[Hf Ht] Hin].
    destruct (Hcon c Hin) as (? & ? & ?).
    split_and!; [apply list_elem_of_filter|apply list_elem_of_filter|]; done.
  - intros r Hr. by apply elem_of_nil in Hr.
  - apply NoDup_nil_2.
  - intros r Hr. destruct (connectingFrom s) as [c|] eqn:Hc0; [|done].
    destruct (includes (selectedCards s) c) eqn:Hinc; [done|].
    injection Hr as <-. apply includes_false in Hinc.
    apply list_elem_of_filter. split; [done|]. by apply Hcf.
Qed.

Lemma handle_wellFormed i s :
  wellFormed s -> admissible i s -> wellFormed (handle i s).
Proof.
  intros Hwf Hadm. destruct i as [x y|size|delta|event|event card|event card|event| |
                                  |rect additive|confirmed event|card text]; cbn [handle].
  - destruct (addNewCard_fields x y s) as (Hc & Hn & _ & Hcon & Hsel & Hcf & _).
    apply (wellFormed_extend s _ 1); try done.
    + by rewrite Hn, Nat.add_1_r.
    + intros c Hin. left. by rewrite <- Hcon.
    + intros r Hr. left. by rewrite <- Hsel.
    + rewrite Hsel. apply Hwf.
  - eapply wellFormed_geometryOnly; [apply setGridSpacing_geometryOnly|done].
  - eapply wellFormed_geometryOnly; [apply zoom_geometryOnly|done].
  - unfold onWheel. destruct (wheel_ctrlKey event); [|done].
    eapply wellFormed_geometryOnly; [apply zoom_geometryOnly|done].
  - cbn in Hadm. pose proof Hwf as (_ & _ & _ & Hsel & Hnds & _).
    destruct (onCardMouseDown_selection event card s Hadm Hsel Hnds) as (? & ? & ?).
    by eapply wellFormed_selection.
  - by apply onCardClick_wellFormed.
  - eapply wellFormed_geometryOnly; [apply documentMouseMove_geometryOnly|done].
  - eapply wellFormed_geometryOnly; [apply documentMouseUp_geometryOnly|done].
  - pose proof Hwf as (_ & _ & _ & Hsel & Hnds & _).
    destruct (filter_selection (fun c => connectingFrom s = Some c)
                (selectedCards s) (cards s) Hsel Hnds) as [? ?].
    eapply (wellFormed_selection s); [unfold selectionOnly| | |]; done.
  - pose proof Hwf as (_ & _ & _ & Hsel & Hnds & _).
    destruct (selectionFold_selection rect additive (cards s) s) as [? ?]; try done.
    destruct (selectByRectangle_fields rect additive s)
      as (? & ? & ? & ? & ? & ? & ? & ? & ? & _).
    eapply (wellFormed_selection s); [unfold selectionOnly| | |]; done.
  - unfold onKeyDown.
    destruct (key_ctrlKey event && _).
    { destruct (copyCards_fields s) as (_ & _ & ? & ? & ? & ? & _ & ? & _).
      by eapply wellFormed_same. }
    destruct (key_ctrlKey event && _); [by apply pasteCards_wellFormed|].
    case_bool_decide; [by apply deleteSelectedCards_wellFormed|done].
  - eapply wellFormed_same; [..|exact Hwf]; reflexivity.
Qed.

(** Ids of cards: kept when the cards are among the old ones and no id
    is written, extended when fresh cards take the next numbers. *)
Lemma idsIssued_subset s s' :
  (forall r, r ∈ cards s' -> r ∈ cards s) -> cardCount s' = cardCount s ->
  (forall r, id (store s' r) = id (store s r)) ->
  idsIssued s -> idsIssued s'.
Proof.
  intros Hsub Hcc Hid [Hnum Huniq]. split.
  - intros r Hr. rewrite Hcc, Hid. by apply Hnum, Hsub.
  - intros r r' Hr Hr'. rewrite !Hid. apply Huniq; by apply Hsub.
Qed.

Lemma idsIssued_geometryOnly s s' : geometryOnly s s' -> idsIssued s -> idsIssued s'.
Proof.
  intros (Hc & _ & _ & _ & _ & Hcc & _ & Hst). apply idsIssued_subset; [|done|].
  - intros r. by rewrite Hc.
  - intros r. apply Hst.
Qed.

Lemma idsIssued_selectionOnly s s' : selectionOnly s s' -> idsIssued s -> idsIssued s'.
Proof.
  intros (Hc & _ & _ & _ & Hcc & _ & Hst & _). apply idsIssued_subset; [|done|].
  - intros r. by rewrite Hc.
  - intros r. by rewrite Hst.
Qed.

Lemma card_id_inj (a b : nat) : "card" +:+ pretty a = "card" +:+ pretty b -> a = b.
Proof.
  unfold String.app. cbn [String.append]. intros [= H]. by apply (inj pretty) in H.
Qed.

Lemma idsIssued_extend s s' (n : nat) :
  (forall r, r ∈ cards s -> (r < nextRef s)%nat) ->
  cards s' = cards s ++ seq (nextRef s) n -> cardCount s' = (cardCount s + n)%nat ->
  (forall k, (k < n)%nat ->
     id (store s' (nextRef s + k)%nat) = "card" +:+ pretty (cardCount s + 1 + k)%nat) ->
  (forall r, (r < nextRef s)%nat -> id (store s' r) = id (store s r)) ->
  idsIssued s -> idsIssued s'.
Proof.
  intros Hlt Hc Hcc Hnew Hold [Hnum Huniq].
  assert (forall r, r ∈ cards s' ->
            (r ∈ cards s ∧ id (store s' r) = id (store s r))
            ∨ exists k, (k < n)%nat ∧ r = (nextRef s + k)%nat
                        ∧ id (store s' r) = "card" +:+ pretty (cardCount s + 1 + k)%nat)
    as Hcases.
  { intros r Hr. rewrite Hc in Hr. apply elem_of_app in Hr as [Hr|Hr].
    - left. split; [done|]. by apply Hold, Hlt.
    - right. apply elem_of_seq in Hr. exists (r - nextRef s)%nat.
      assert (r = (nextRef s + (r - nextRef s))%nat) as Hr' by lia.
      split_and!; [lia|exact Hr'|]. rewrite Hr' at 1. apply Hnew. lia. }
  split.
  - intros r Hr. destruct (Hcases r Hr) as [[Hin Hid]|(k & Hk & _ & Hid)].
    + destruct (Hnum r Hin) as (j & Hj & Hidj). exists j. rewrite Hid, Hcc. split; [lia|done].
    + exists (cardCount s + 1 + k)%nat. rewrite Hcc. split; [lia|done].
  - intros r r' Hr Hr' Heq.
    destruct (Hcases r Hr) as [[Hin Hid]|(k & Hk & -> & Hid)];
      destruct (Hcases r' Hr') as [[Hin' Hid']|(k' & Hk' & -> & Hid')].
    + apply Huniq; [done|done|]. by rewrite <- Hid, <- Hid'.
    + destruct (Hnum r Hin) as (j & Hj & Hidj).
      rewrite Hid, Hidj, Hid' in Heq. apply card_id_inj in Heq. lia.
    + destruct (Hnum r' Hin') as (j & Hj & Hidj).
      rewrite Hid, Hid', Hidj in Heq. apply card_id_inj in Heq. lia.
    + rewrite Hid, Hid' in Heq. apply card_id_inj in Heq. lia.
Qed.

Lemma handle_idsIssued i s :
  wellFormed s -> idsIssued s -> idsIssued (handle i s).
Proof.
  intros Hwf Hids. pose proof Hwf as (Hnd & Hlt & Hcon & Hsel & Hnds & Hcf).
  destruct i as [x y|size|delta|event|event card|event card|event| |
                 |rect additive|confirmed event|card text]; cbn [handle].
  - destruct (addNewCard_fields x y s) as (Hc & _ & Hcc & _ & _ & _ & _ & _ & Hid & Hst).
    apply (idsIssued_extend s _ 1); try done.
    + intros k Hk. replace k with 0%nat by lia. by rewrite !Nat.add_0_r.
    + intros r Hr. by rewrite Hst.
  - eapply idsIssued_geometryOnly; [apply setGridSpacing_geometryOnly|done].
  - eapply idsIssued_geometryOnly; [apply zoom_geometryOnly|done].
  - unfold onWheel. destruct (wheel_ctrlKey event); [|done].
    eapply idsIssued_geometryOnly; [apply zoom_geometryOnly|done].
  - eapply idsIssued_selectionOnly; [apply onCardMouseDown_selectionOnly|done].
  - destruct (onCardClick_fields event card s) as (Hc & _ & Hst & _ & Hcc & _).
    apply (idsIssued_subset s); [intros r; by rewrite Hc|done|intros r; by rewrite Hst|done].
  - eapply idsIssued_geometryOnly; [apply documentMouseMove_geometryOnly|done].
  - eapply idsIssued_geometryOnly; [apply documentMouseUp_geometryOnly|done].
  - by apply (idsIssued_subset s).
  - destruct (selectByRectangle_fields rect additive s)
      as (Hc & _ & Hst & _ & _ & _ & _ & Hcc & _).
    apply (idsIssued_subset s); [intros r; by rewrite Hc|done|intros r; by rewrite Hst|done].
  - unfold onKeyDown.
    destruct (key_ctrlKey event && _).
    { destruct (copyCards_fields s) as (_ & _ & Hc & _ & _ & _ & Hcc & _ & Hst & _).
      apply (idsIssued_subset s); [intros r; by rewrite Hc|done|intros r; by rewrite Hst|done]. }
    destruct (key_ctrlKey event && _).
    { destruct (decide (clipboard s = [])) as [Hnil|Hclip].
      { unfold pasteCards. by rewrite Hnil. }
      destruct (paste_adds_cards s Hclip) as (Hc & Hcc & Hid & Hst).
      apply (idsIssued_extend s _ (length (clipboard s))); try done.
      intros r Hr. by destruct (Hst r Hr). }
    case_bool_decide; [|done].
    destruct (decide (selectedCards s = [])) as [Hnil|Hsel'].
    { unfold deleteSelectedCards. by rewrite Hnil. }
    destruct confirmed; [|by rewrite deleteSelectedCards_declined].
    destruct (deleteSelectedCards_confirmed s Hsel')
      as (Hc & _ & _ & _ & Hst & _ & Hcc & _).
    apply (idsIssued_subset s); [|done|intros r; by rewrite Hst|done].
    intros r Hr. rewrite Hc in Hr. by apply list_elem_of_filter in Hr as [_ Hr].
  - apply (idsIssued_subset s); [done|done| |done].
    intros r. rewrite store_update. by case_decide.
Qed.

Lemma handle_inBounds i s :
  wellFormed s -> inBounds s -> inBounds (handle i s).
Proof.
  intros Hwf Hb. pose proof Hwf as (Hnd & Hlt & Hcon & Hsel & Hnds & Hcf).
  assert (forall s', scale s' = scale s -> gridSpacing s' = gridSpacing s -> inBounds s')
    as Hsame.
  { intros s' Hsc Hgs. unfold inBounds. by rewrite Hsc, Hgs. }
  assert (forall delta, inBounds (zoom delta s)) as Hzoom.
  { intros delta.
    destruct (Qlt_le_dec (scale s * delta) (1 # 2)) as [H1|H1].
    { rewrite zoom_rejected; [done|]. intros [? ?]. lra. }
    destruct (Qlt_le_dec 2 (scale s * delta)) as [H2|H2].
    { rewrite zoom_rejected; [done|]. intros [? ?]. lra. }
    destruct (zoom_cards delta s H1 H2) as (Hsc & Hgs & _).
    unfold inBounds. rewrite Hsc, Hgs. split; [done|apply Hb]. }
  destruct i as [x y|size|delta|event|event card|event card|event| |
                 |rect additive|confirmed event|card text]; cbn [handle].
  - destruct (addNewCard_fields x y s) as (_ & _ & _ & _ & _ & _ & ? & ? & _).
    by apply Hsame.
  - unfold setGridSpacing, adjustCardsAfterGridChange.
    match goal with |- context [forEachCard ?F ?l ?s0] =>
      destruct (forEachCard_fields F l s0) as (Hsc & Hgs & _)
    end.
    unfold inBounds. rewrite Hsc, Hgs. cbn [scale gridSpacing set_gridSpacing].
    split; [apply Hb|]. split; [apply Q.le_max_l|].
    apply Q.max_lub; [lra|]. apply Q.le_min_l.
  - apply Hzoom.
  - unfold onWheel. destruct (wheel_ctrlKey event); [apply Hzoom|done].
  - destruct (onCardMouseDown_selectionOnly event card s)
      as (_ & _ & _ & _ & _ & _ & _ & ? & ?).
    by apply Hsame.
  - destruct (onCardClick_fields event card s) as (_ & _ & _ & _ & _ & ? & ? & _).
    by apply Hsame.
  - destruct (documentMouseMove_geometryOnly event s) as (_ & ? & ?). by apply Hsame.
  - destruct (documentMouseUp_geometryOnly s) as (_ & ? & ?). by apply Hsame.
  - by apply Hsame.
  - destruct (selectByRectangle_fields rect additive s) as (_ & _ & _ & _ & ? & ? & _).
    by apply Hsame.
  - unfold onKeyDown.
    destruct (key_ctrlKey event && _).
    { destruct (copyCards_fields s) as (? & ? & _). by apply Hsame. }
    destruct (key_ctrlKey event && _).
    { destruct (decide (clipboard s = [])) as [Hnil|Hclip].
      { unfold pasteCards. by rewrite Hnil. }
      destruct (pasteCards_content s Hclip) as (_ & _ & _ & _ & ? & ? & _).
      { intros r Hr. apply Hlt. by apply Hsel. }
      { intros r Hr. apply Hlt. by apply Hcf. }
      by apply Hsame. }
    case_bool_decide; [|done].
    destruct (decide (selectedCards s = [])) as [Hnil|Hsel'].
    { unfold deleteSelectedCards. by rewrite Hnil. }
    destruct confirmed; [|by rewrite deleteSelectedCards_declined].
    destruct (deleteSelectedCards_confirmed s Hsel')
      as (_ & _ & _ & _ & _ & _ & _ & ? & ? & _).
    by apply Hsame.
  - by apply Hsame.
Qed.

Lemma reachable_invariants s : reachable s -> wellFormed s ∧ idsIssued s ∧ inBounds s.
Proof.
  induction 1 as [|i s Hr (Hwf & Hids & Hb) Hadm].
  - split_and!.
    + unfold wellFormed. cbn. split_and!; try done; try apply NoDup_nil_2.
      all: intros r Hr; by apply elem_of_nil in Hr.
    + split; [intros r Hr | intros r r' Hr]; cbn in Hr; by apply elem_of_nil in Hr.
    + unfold inBounds. cbn. lra.
  - split_and!;
      [by apply handle_wellFormed | by apply handle_idsIssued | by apply handle_inBounds].
Qed.

Lemma reachable_run inputs s :
  reachable s -> runnable inputs s = true -> reachable (run inputs s).
Proof.
  revert s. induction inputs as [|i inputs IH]; intros s Hr Hrun; [exact Hr|].
  cbn [runnable] in Hrun. apply andb_true_iff in Hrun as [Hadm Hrun].
  cbn [run fold_left]. apply IH; [|exact Hrun].
  apply reachable_handle; [exact Hr|].
  destruct i; try exact I; by apply bool_decide_eq_true in Hadm.
Qed.

(** X21.  In every state the component reaches, the card list and the
    selection are duplicate-free, every selected card and the card a
    connection is pending from are on the canvas, and every connector
    joins two distinct cards of the canvas: no handler leaves a dangling
    connector, selection entry or pending connection behind. *)
Theorem reachable_wellFormed s : reachable s -> wellFormed s.
Proof. intros Hr. by destruct (reachable_invariants s Hr) as (? & _). Qed.

(** The witness: the state after the paste of the session, reached
    through two drags registered at once: four cards, three connectors
    and two selected cards. *)
Lemma reachable_wellFormed_witness : wellFormed (run Scenario.editing initial).
Proof.
  apply reachable_wellFormed.
  apply reachable_run; [apply reachable_initial | vm_compute; reflexivity].
Defined.

(** X22.  In every state the component reaches, the id of each card is
    ["card" + k] for a [k] between 1 and [cardCount], and no two cards
    of the canvas have the same id: ids are not reused after a
    deletion, and a pasted card never takes the id of its original. *)
Theorem reachable_ids_unique s : reachable s -> idsIssued s.
Proof. intros Hr. by destruct (reachable_invariants s Hr) as (_ & ? & _). Qed.

(** The witness: the end of the session, after a paste and a deletion
    of card3 and card4; the card added last is card5. *)
Lemma reachable_ids_unique_witness : idsIssued (run Scenario.session initial).
Proof.
  apply reachable_ids_unique.
  apply reachable_run; [apply reachable_initial | vm_compute; reflexivity].
Defined.

(** X23.  In every state the component reaches, the scale is between 0.5 and 2
    and the grid spacing between 10 and 200, whatever deltas and sizes
    the handlers were called with; so the grid step the snapping
    divides by is positive. *)
Theorem reachable_inBounds s :
  reachable s -> inBounds s ∧ 0 < scale s ∧ 0 < gridSpacing s * scale s.
Proof.
  intros Hr. destruct (reachable_invariants s Hr) as (_ & _ & Hb).
  split; [exact Hb|]. destruct Hb as ((? & ?) & (? & ?)). split; [lra|nra].
Qed.

(** The witness: the end of the session, in which a zoom by 1.1 was
    accepted, a zoom by 4 rejected and a grid spacing of 500 clamped. *)
Lemma reachable_inBounds_witness :
  inBounds (run Scenario.session initial)
  ∧ 0 < scale (run Scenario.session initial)
  ∧ 0 < gridSpacing (run Scenario.session initial) * scale (run Scenario.session initial).
Proof.
  apply reachable_inBounds.
  apply reachable_run; [apply reachable_initial | vm_compute; reflexivity].
Defined.
(** X24.  A [mouseup] ends every registered gesture: each [onMouseUp]
    closure runs and removes its own pair, so none is registered
    afterwards and the next [mousemove] moves nothing, however many
    presses there were without a release.  It writes card positions
    only. *)
Theorem mouseup_ends_every_gesture s :
  let s' := documentMouseUp s in
  listeners s' = []
  ∧ (forall e, documentMouseMove e s' = s')
  ∧ geometryOnly s s' ∧ scale s' = scale s ∧ gridSpacing s' = gridSpacing s
  ∧ (forall r, baseWidth (store s' r) = baseWidth (store s r)
       ∧ baseHeight (store s' r) = baseHeight (store s r)).
Proof.
  cbv zeta. pose proof (documentMouseUp_listeners s) as Hl.
  destruct (documentMouseUp_geometryOnly s) as (Hg & Hsc & Hgs).
  split_and!; try done.
  - intros e. unfold documentMouseMove. by rewrite Hl.
  - unfold documentMouseUp. generalize (listeners s) at 1 2. intros l. revert s Hl Hg Hsc Hgs.
    induction l as [|listener l IH]; intros s _ _ _ _ r; [done|].
    cbn [fold_left].
    set (s1 := match listener with
               | Dragging _ => drag_onMouseUp s
               | Resizing _ => resize_onMouseUp s
               end).
    assert (baseWidth (store s1 r) = baseWidth (store s r)
            ∧ baseHeight (store s1 r) = baseHeight (store s r)) as [<- <-].
    { unfold s1. destruct listener as [offsets|st]; [|done].
      destruct (drag_onMouseUp_cards s) as (_ & _ & _ & Hdim & _). apply Hdim. }
    apply IH; try done.
    + apply documentMouseUp_listeners.
    + apply documentMouseUp_geometryOnly.
    + apply documentMouseUp_geometryOnly.
    + apply documentMouseUp_geometryOnly.
Qed.
End ReachableStates.
